(** * Smart Expense Tracker: the dashboard's aggregation, limit and form logic

    A shallow embedding of the computations of [Dashboard.tsx],
    [ExpenseChart.tsx], [ExpenseForm.tsx] and [ExpenseList.tsx], the
    properties the specification states about them, and further
    properties of the same code.

    - A JavaScript [number] is an IEEE 754 binary64 value: it is modelled by
      Rocq's primitive [float], whose [+], [-], [<?] are the same
      operations.  The aggregation functions are written once over the
      three number operations they use, so that they can also be read over
      exact rationals, where the algebraic laws the specification has in
      mind hold.
    - A string is a [string], one character per code unit.
    - An object used as a dictionary is the list of its own properties in
      creation order.
    - The system clock, the signed-in user and the storage are inputs: a
      reading of the clock is the ISO text of the instant, the storage's
      answer to an insert is a function of the row.  A render that reads
      the clock several times is given all its readings.
    - The form is submitted through the browser, which validates its
      controls first; of these the date input, with its [max], is spelled
      out.
    - A React component is the function from its state to what it shows;
      what an event handler does is the list of its effects, in order. *)

From Stdlib Require Import ZArith NArith QArith Qround List String Ascii Floats Bool Lia.
From Stdlib Require Import DecimalString DecimalN Permutation Sorted.
Import ListNotations.

Set Warnings "-inexact-float".
Set Implicit Arguments.

Open Scope string_scope.

(* ================================================================== *)
(** * JavaScript numbers *)
(* ================================================================== *)

Module JS.

Local Open Scope float_scope.

Definition number := float.

(** [ToBoolean] of a number: [+0], [-0] and [NaN] are falsy. *)
Definition falsy (x : number) : bool := is_zero x || is_nan x.

(** [Math.max(a, b)]: [NaN] if either is [NaN]; [+0] counts as larger
    than [-0]. *)
Definition Math_max (a b : number) : number :=
  if is_nan a || is_nan b then nan
  else if a <? b then b
  else if b <? a then a
  else if get_sign a then b else a.

(** The value a finite float denotes is [m * 2^e], with [m] and [e] given
    by [Prim2SF].  [cents_half_up m e] is the integer [n] for which
    [n / 100] is nearest to [m * 2^e], the larger one on a tie: step 10.a
    of [Number.prototype.toFixed] with [f = 2]. *)
Definition cents_half_up (m : positive) (e : Z) : Z :=
  if (0 <=? e)%Z then (100 * Zpos m * 2 ^ e)%Z
  else ((200 * Zpos m + 2 ^ (- e)) / 2 ^ (1 - e))%Z.

(** What [x.toFixed(2)] returns.  The text itself is [text] below; the
    exponent form that [Number::toString] gives to a finite [x] with
    [|x| >= 10^21] is kept symbolic. *)
Inductive fixedText : Type :=
| TNaN
| TInfinity (neg : bool)
| TToString (x : number)
| TFixed (neg : bool) (n : Z).

Definition toFixed2 (x : number) : fixedText :=
  match Prim2SF x with
  | S754_nan => TNaN
  | S754_infinity s => TInfinity s
  | S754_zero _ => TFixed false 0
  | S754_finite s m e =>
      if abs x <? 1e21 then TFixed s (cents_half_up m e) else TToString x
  end.

(** The digits of [n], padded with zeros on the left to three characters at
    least, with a point before the last two. *)
Definition digits (n : Z) : string :=
  NilZero.string_of_uint (N.to_uint (Z.to_N n)).

Definition pad3 (m : string) : string :=
  match String.length m with
  | 0%nat => "000" ++ m
  | 1%nat => "00" ++ m
  | 2%nat => "0" ++ m
  | _ => m
  end.

Fixpoint take (k : nat) (m : string) : string :=
  match k, m with
  | S k', String c m' => String c (take k' m')
  | _, _ => ""
  end.

Fixpoint drop (k : nat) (m : string) : string :=
  match k, m with
  | S k', String c m' => drop k' m'
  | _, _ => m
  end.

Definition point2 (m : string) : string :=
  let k := String.length m in
  take (k - 2) m ++ "." ++ drop (k - 2) m.

Definition text (t : fixedText) : option string :=
  match t with
  | TNaN => Some "NaN"
  | TInfinity s => Some ((if s then "-" else "") ++ "Infinity")
  | TToString _ => None
  | TFixed s n => Some ((if s then "-" else "") ++ point2 (pad3 (digits n)))
  end.

(** [Number(s)] for a text [s] that [toFixed] returned: the double nearest
    to the decimal numeral (ties to even), computed as the correctly rounded
    quotient of the two integers [n] and [100]. *)
Definition Number (t : fixedText) : number :=
  match t with
  | TNaN => nan
  | TInfinity s => if s then neg_infinity else infinity
  | TToString x => x
  | TFixed s n =>
      match n with
      | Zpos p =>
          SF2Prim (SFdiv prec emax (S754_finite s p 0) (S754_finite false 100 0))
      | _ => if s then neg_zero else zero
      end
  end.

End JS.

(** The operations on numbers that the aggregation uses. *)
Class Arith (N : Type) : Type := {
  zero : N;
  add : N -> N -> N;
  falsy : N -> bool;
}.

(** The numbers of the program. *)
#[export] Instance binary64 : Arith float := {
  zero := PrimFloat.zero;
  add := PrimFloat.add;
  falsy := JS.falsy;
}.

(** Exact rational arithmetic, for the laws that rounding breaks. *)
#[export] Instance exact : Arith Q := {
  zero := 0%Q;
  add := Qplus;
  falsy := fun q => Qeq_bool q 0;
}.

(* ================================================================== *)
(** * JavaScript objects used as string-keyed records *)
(* ================================================================== *)

Module Obj.

(** An object literal [{}] filled by assignments [o[k] = v]: its own
    properties in the order they were created.  The properties an object
    inherits from [Object.prototype] are not part of the model: see
    [plain_key]. *)
Definition t (V : Type) := list (string * V).

Definition empty {V} : t V := [].

Fixpoint get {V} (o : t V) (k : string) : option V :=
  match o with
  | [] => None
  | (k', v) :: o' => if String.eqb k k' then Some v else get o' k
  end.

(** [o[k] = v]: an existing property keeps its place. *)
Fixpoint set {V} (o : t V) (k : string) (v : V) : t V :=
  match o with
  | [] => [(k, v)]
  | (k', v') :: o' =>
      if String.eqb k k' then (k', v) :: o' else (k', v') :: set o' k v
  end.

(** An array index is the canonical decimal numeral of an integer below
    [2^32 - 1]. *)
Definition digit (c : ascii) : option N :=
  let n := N_of_ascii c in
  if ((48 <=? n) && (n <=? 57))%N then Some (n - 48)%N else None.

Fixpoint numeral (s : string) (acc : N) : option N :=
  match s with
  | EmptyString => Some acc
  | String c s' =>
      match digit c with
      | Some d => numeral s' (10 * acc + d)%N
      | None => None
      end
  end.

Definition array_index (k : string) : option N :=
  match k with
  | EmptyString => None
  | String "0" EmptyString => Some 0%N
  | String "0" _ => None
  | _ =>
      match numeral k 0 with
      | Some n => if (n <? 4294967295)%N then Some n else None
      | None => None
      end
  end.

Definition is_index (k : string) : bool :=
  match array_index k with Some _ => true | None => false end.

Definition index_of (k : string) : N :=
  match array_index k with Some n => n | None => 0%N end.

Fixpoint insert_by_index {V} (p : string * V) (l : list (string * V)) :=
  match l with
  | [] => [p]
  | q :: l' =>
      if (index_of (fst p) <=? index_of (fst q))%N then p :: l
      else q :: insert_by_index p l'
  end.

Definition sort_by_index {V} (l : list (string * V)) :=
  fold_right insert_by_index [] l.

(** [Object.entries(o)]: the array-index keys in ascending order, then the
    other keys in the order of their creation. *)
Definition entries {V} (o : t V) : list (string * V) :=
  sort_by_index (filter (fun p => is_index (fst p)) o)
    ++ filter (fun p => negb (is_index (fst p))) o.

(** [Object.keys(o)], in the same order. *)
Definition keys {V} (o : t V) : list string := map fst (entries o).

(** The names every object inherits from [Object.prototype].  For such a
    key [o[k]] reads the inherited function before any assignment, so
    [(o[k] || 0) + x] is not a sum of numbers. *)
Definition prototype_keys : list string :=
  [ "constructor"; "hasOwnProperty"; "isPrototypeOf"; "propertyIsEnumerable";
    "toLocaleString"; "toString"; "valueOf"; "__proto__";
    "__defineGetter__"; "__defineSetter__"; "__lookupGetter__";
    "__lookupSetter__" ].

Definition plain_key (k : string) : bool :=
  negb (existsb (String.eqb k) prototype_keys).

End Obj.

(* ================================================================== *)
(** * Data model *)
(* ================================================================== *)

(** [interface Expense] of [Dashboard.tsx]; [ExpenseChart.tsx] reads only
    [category] and [amount].  The amount is a number already, and
    [Number(exp.amount)] is that number. *)
Record Expense (N : Type) : Type := {
  id : string;
  category : string;
  amount : N;
  description : string;
  date : string;
}.

Record Profile : Type := {
  daily_limit : float;
  full_name : string;
}.

Arguments id {N} _.
Arguments category {N} _.
Arguments amount {N} _.
Arguments description {N} _.
Arguments date {N} _.

(* ================================================================== *)
(** * The aggregations *)
(* ================================================================== *)

Section Aggregator.

Context {N : Type} `{Arith N}.

(** [acc[category] || 0] *)
Definition or_zero (v : option N) : N :=
  match v with
  | None => zero
  | Some x => if falsy x then zero else x
  end.

(** [ExpenseChart]: the reducer, and
    [expenses.reduce((acc, expense) => ..., {})]. *)
Definition categoryStep (acc : Obj.t N) (expense : Expense N) : Obj.t N :=
  let category := category expense in
  Obj.set acc category (add (or_zero (Obj.get acc category)) (amount expense)).

Definition categoryTotals (expenses : list (Expense N)) : Obj.t N :=
  fold_left categoryStep expenses Obj.empty.

(** [array.reduce((sum, x) => sum + x, 0)] *)
Definition sum (l : list N) : N := fold_left add l zero.

(** [Dashboard]: [expenses.filter((exp) => exp.date === today)] *)
Definition todayExpenses (expenses : list (Expense N)) (today : string) :=
  filter (fun exp => String.eqb (date exp) today) expenses.

(** The total that [calculateTodayTotal] stores, for the date it read. *)
Definition todayTotalOn (expenses : list (Expense N)) (today : string) : N :=
  sum (map amount (todayExpenses expenses today)).

(** [expenses.reduce((sum, exp) => sum + Number(exp.amount), 0)] *)
Definition grandTotal (expenses : list (Expense N)) : N :=
  sum (map amount expenses).

(** The sum of the values of a totals object, in [Object.entries] order. *)
Definition sumValues (o : Obj.t N) : N := sum (map snd (Obj.entries o)).

End Aggregator.

(** Every category of the list is a key the model of objects covers. *)
Definition plain_categories {N} (expenses : list (Expense N)) : bool :=
  forallb (fun e => Obj.plain_key (category e)) expenses.

(** [ExpenseChart]: [chartData], the entries with each value passed through
    [Number(value.toFixed(2))]. *)
Definition chartData (expenses : list (Expense float)) : list (string * float) :=
  map (fun '(name, value) => (name, JS.Number (JS.toFixed2 value)))
      (Obj.entries (categoryTotals expenses)).

(** [COLORS], and the cell colour [COLORS[index % COLORS.length]]. *)
Definition COLORS : list string :=
  [ "hsl(var(--chart-1))"; "hsl(var(--chart-2))"; "hsl(var(--chart-3))";
    "hsl(var(--chart-4))"; "hsl(var(--chart-5))" ].

Definition cellColor (index : nat) : string :=
  nth (index mod List.length COLORS) COLORS "".

(** What [ExpenseChart] renders: the placeholder when [chartData] is empty,
    else one coloured cell per entry. *)
Inductive chartView : Type :=
| NoExpenses
| Pie (cells : list (string * float * string)).

Definition ExpenseChart (expenses : list (Expense float)) : chartView :=
  match chartData expenses with
  | [] => NoExpenses
  | data =>
      Pie (map (fun '(index, (name, value)) => (name, value, cellColor index))
               (combine (seq 0 (List.length data)) data))
  end.

(* ================================================================== *)
(** * The system clock *)
(* ================================================================== *)

(** A reading of the clock is the text [new Date().toISOString()] returns,
    such as ["2024-01-02T10:15:00.000Z"]; [isoDate] is [.split("T")[0]]. *)
Fixpoint isoDate (iso : string) : string :=
  match iso with
  | EmptyString => EmptyString
  | String c s => if Ascii.eqb c "T" then EmptyString else String c (isoDate s)
  end.

(* ================================================================== *)
(** * Dashboard *)
(* ================================================================== *)

Module Dashboard.

Local Open Scope float_scope.

(** The component's state ([useState]) that the summary cards read. *)
Record State : Type := {
  profile : option Profile;
  expenses : list (Expense float);
  todayTotal : float;
}.

(** [calculateTodayTotal], run by the effect on [expenses]; [now] is the
    clock reading of [new Date()] inside it. *)
Definition calculateTodayTotal (now : string) (st : State) : State :=
  let today := isoDate now in
  let todayExpenses := todayExpenses (expenses st) today in
  let total := sum (map amount todayExpenses) in
  {| profile := profile st; expenses := expenses st; todayTotal := total |}.

(** [profile && todayTotal > profile.daily_limit]: [None] is the [null]
    that [&&] returns for an absent profile. *)
Definition isOverLimit (profile : option Profile) (todayTotal : float)
  : option bool :=
  match profile with
  | None => None
  | Some p => Some (daily_limit p <? todayTotal)
  end.

(** [ToBoolean], as [{isOverLimit && ...}] applies it. *)
Definition truthy (v : option bool) : bool :=
  match v with Some b => b | None => false end.

(** [Math.max(0, (profile?.daily_limit || 0) - todayTotal)] *)
Definition remaining (profile : option Profile) (todayTotal : float) : float :=
  JS.Math_max 0 (or_zero (option_map daily_limit profile) - todayTotal).

(** [profile?.daily_limit.toFixed(2) || "0.00"] *)
Definition limitText (profile : option Profile) : JS.fixedText :=
  match profile with
  | None => JS.TFixed false 0
  | Some p => JS.toFixed2 (daily_limit p)
  end.

(** The alert's two amounts: [profile?.daily_limit.toFixed(2)], which is
    [undefined] (here [None]) without a profile, and [todayTotal.toFixed(2)]. *)
Record Alert : Type := {
  alertLimit : option JS.fixedText;
  alertToday : JS.fixedText;
}.

(** The readings of the clock during one render: [clock i] is what the
    [i]-th evaluation of [new Date().toISOString()] in it returns. *)
Definition Clock : Type := nat -> string.

(** The clock of a render during which every reading is [now]. *)
Definition steady (now : string) : Clock := fun _ => now.

(** [expenses.filter((e) => e.date === new Date().toISOString()
    .split("T")[0])]: the callback runs once per expense, in order, and
    reads the clock each time; [i] counts the readings made so far. *)
Fixpoint countedToday (clock : Clock) (i : nat)
    (expenses : list (Expense float)) : list (Expense float) :=
  match expenses with
  | [] => []
  | e :: rest =>
      if String.eqb (date e) (isoDate (clock i))
      then e :: countedToday clock (S i) rest
      else countedToday clock (S i) rest
  end.

(** What one render shows.  The transaction count is the only place of the
    render that reads the clock. *)
Record View : Type := {
  alert : option Alert;
  todayText : JS.fixedText;
  todayCount : nat;
  dailyLimitText : JS.fixedText;
  remainingText : JS.fixedText;
  totalText : JS.fixedText;
  totalCount : nat;
  chart : chartView;
}.

Definition render (clock : Clock) (st : State) : View :=
  {| alert :=
       if truthy (isOverLimit (profile st) (todayTotal st))
       then Some {| alertLimit :=
                      option_map (fun p => JS.toFixed2 (daily_limit p))
                                 (profile st);
                    alertToday := JS.toFixed2 (todayTotal st) |}
       else None;
     todayText := JS.toFixed2 (todayTotal st);
     todayCount := List.length (countedToday clock 0 (expenses st));
     dailyLimitText := limitText (profile st);
     remainingText := JS.toFixed2 (remaining (profile st) (todayTotal st));
     totalText := JS.toFixed2 (grandTotal (expenses st));
     totalCount := List.length (expenses st);
     chart := ExpenseChart (expenses st) |}.

(** One display pass after the expenses changed: the effect computes the
    total at the clock reading [now], and the render it triggers reads the
    clock again, once per expense. *)
Definition displayPass (now : string) (clock : Clock) (st : State) : View :=
  render clock (calculateTodayTotal now st).

End Dashboard.

(* ================================================================== *)
(** * ExpenseForm *)
(* ================================================================== *)

Module ExpenseForm.

Local Open Scope float_scope.

Definition CATEGORIES : list string :=
  [ "Food"; "Travel"; "Entertainment"; "Shopping"; "Bills"; "Healthcare";
    "Other" ].

(** The four controlled inputs of the form, all texts. *)
Record Fields : Type := {
  category : string;
  amount : string;
  description : string;
  date : string;
}.

(** The [max] attribute of the date input, [new Date().toISOString()
    .split("T")[0]] when the form renders.  It is the one place where the
    form compares a date with today; [handleSubmit] does not read it. *)
Definition dateMax (now : string) : string := isoDate now.

(** ** The date input

    A date, as an input of type [date] reads it: a year of four digits or
    more, above zero, a month and a day of two digits each, the day within
    the month; [None] for every other text. *)
Definition leapYear (y : N) : bool :=
  ((y mod 400 =? 0) || ((y mod 4 =? 0) && negb (y mod 100 =? 0)))%N.

Definition daysInMonth (y m : N) : N :=
  match m with
  | 1 | 3 | 5 | 7 | 8 | 10 | 12 => 31
  | 4 | 6 | 9 | 11 => 30
  | 2 => if leapYear y then 29 else 28
  | _ => 0
  end%N.

Definition parseDate (s : string) : option (N * N * N) :=
  let k := String.length s in
  if (k <? 10)%nat then None
  else
    match JS.drop (k - 6) s with
    | String "-" (String m1 (String m2
        (String "-" (String d1 (String d2 EmptyString))))) =>
        match Obj.numeral (JS.take (k - 6) s) 0,
              Obj.numeral (String m1 (String m2 EmptyString)) 0,
              Obj.numeral (String d1 (String d2 EmptyString)) 0 with
        | Some y, Some m, Some d =>
            if ((0 <? y) && (1 <=? m) && (m <=? 12)
                && (1 <=? d) && (d <=? daysInMonth y m))%N
            then Some (y, m, d) else None
        | _, _, _ => None
        end
    | _ => None
    end.

(** The order of two dates. *)
Definition dateLe (a b : N * N * N) : bool :=
  let '(y1, m1, d1) := a in
  let '(y2, m2, d2) := b in
  ((y1 <? y2) || ((y1 =? y2) && ((m1 <? m2) || ((m1 =? m2) && (d1 <=? d2)))))%N.

(** Whether the browser finds the date input valid when the form is
    submitted.  The input holds a date or nothing (a value that is no date
    is cleared), and it is [required]; a date after the one of [max] is out
    of range; a [max] that is no date sets no bound. *)
Definition dateInputValid (max value : string) : bool :=
  match parseDate value with
  | None => false
  | Some v =>
      match parseDate max with
      | None => true
      | Some m => dateLe v m
      end
  end.

(** The object given to [expenseSchema.parse], and what it returns. *)
Record Input : Type := {
  in_category : string;
  in_amount : float;
  in_description : string;
  in_date : string;
}.

(** The issues [expenseSchema] can raise, in the order of its keys. *)
Inductive issue : Type :=
| CategoryRequired
| AmountNotANumber
| AmountNotPositive
| DescriptionTooLong
| DateRequired.

Definition message (i : issue) : string :=
  match i with
  | CategoryRequired => "Category is required"
  | AmountNotANumber => "Expected number, received nan"
  | AmountNotPositive => "Amount must be positive"
  | DescriptionTooLong => "Description too long"
  | DateRequired => "Date is required"
  end.

(** [expenseSchema]: each key's checks, collected key by key.
    [z.number()] refuses [NaN] before [positive] is looked at. *)
Definition expenseSchema (i : Input) : list issue :=
  (if (1 <=? String.length (in_category i))%nat then [] else [CategoryRequired])
  ++ (if is_nan (in_amount i) then [AmountNotANumber]
      else if 0 <? in_amount i then [] else [AmountNotPositive])
  ++ (if (String.length (in_description i) <=? 500)%nat then []
      else [DescriptionTooLong])
  ++ (if (1 <=? String.length (in_date i))%nat then [] else [DateRequired]).

(** [expenseSchema.parse]: the input back, or a [ZodError] with the issues. *)
Definition parse (i : Input) : Input + list issue :=
  match expenseSchema i with
  | [] => inl i
  | errors => inr errors
  end.

(** The row given to [supabase.from("expenses").insert]. *)
Record Row : Type := {
  row_user_id : string;
  row_category : string;
  row_amount : float;
  row_description : option string;
  row_date : string;
}.

(** What [handleSubmit] does, in order. *)
Inductive event : Type :=
| PreventDefault
| SetLoading (loading : bool)
| Toast (title text : string) (destructive : bool)
| Insert (row : Row)
| OnSuccess.

Section Submit.

(** [parseFloat], the signed-in user's id if any ([supabase.auth.getUser])
    and the storage's answer to an insert (an error message or none). *)
Variable parseFloat : string -> float.
Variable user : option string.
Variable insertError : Row -> option string.

(** [validated.description || null] *)
Definition or_null (s : string) : option string :=
  match s with EmptyString => None | _ => Some s end.

Definition handleSubmit (f : Fields) : list event :=
  PreventDefault ::
  match parse {| in_category := category f;
                 in_amount := parseFloat (amount f);
                 in_description := description f;
                 in_date := date f |} with
  | inr errors =>
      [ Toast "Validation Error" (message (hd CategoryRequired errors)) true;
        SetLoading false ]
  | inl validated =>
      SetLoading true ::
      match user with
      | None =>
          [ Toast "Error" "You must be logged in to add expenses" true;
            SetLoading false ]
      | Some user_id =>
          let row := {| row_user_id := user_id;
                        row_category := in_category validated;
                        row_amount := in_amount validated;
                        row_description := or_null (in_description validated);
                        row_date := in_date validated |} in
          Insert row ::
          match insertError row with
          | Some error => [ Toast "Error" error true; SetLoading false ]
          | None =>
              [ Toast "Success" "Expense added successfully" false;
                OnSuccess; SetLoading false ]
          end
      end
  end.

(** The rows a submission sent to storage. *)
Definition inserted (f : Fields) : list Row :=
  flat_map (fun ev => match ev with Insert r => [r] | _ => [] end)
           (handleSubmit f).

(** What the browser makes of the other controls (the category select,
    the amount with its [min], [step] and [required], the description),
    which rest on components outside these files. *)
Variable otherControlsValid : Fields -> bool.

(** [<form onSubmit={handleSubmit}>], with no [noValidate]: pressing the
    submit button makes the browser validate the controls, and the submit
    event reaches [handleSubmit] only if all of them are valid.  [now] is
    the clock reading of the render that set the [max] of the date input. *)
Definition formSubmit (now : string) (f : Fields) : list event :=
  if otherControlsValid f && dateInputValid (dateMax now) (date f)
  then handleSubmit f
  else [].

(** The rows a press of the submit button sent to storage. *)
Definition formInserted (now : string) (f : Fields) : list Row :=
  flat_map (fun ev => match ev with Insert r => [r] | _ => [] end)
           (formSubmit now f).

End Submit.

End ExpenseForm.

(* ================================================================== *)
(** * ExpenseList *)
(* ================================================================== *)

Module ExpenseList.

Local Open Scope float_scope.

(** The component's state: the id awaiting confirmation ([null] when there
    is none) and whether a removal is under way. *)
Record State : Type := {
  deleteId : option string;
  deleting : bool;
}.

(** [!!deleteId]: [null] and the empty string are falsy. *)
Definition truthyId (d : option string) : bool :=
  match d with
  | Some id => negb (String.eqb id "")
  | None => false
  end.

(** What the handlers of the list do, in order. *)
Inductive event : Type :=
| SetDeleteId (id : option string)
| SetDeleting (deleting : bool)
| Delete (id : string)
| Toast (title text : string) (destructive : bool)
| OnUpdate.

Definition apply (ev : event) (st : State) : State :=
  match ev with
  | SetDeleteId id => {| deleteId := id; deleting := deleting st |}
  | SetDeleting b => {| deleteId := deleteId st; deleting := b |}
  | _ => st
  end.

Definition run (evs : list event) (st : State) : State :=
  fold_left (fun s ev => apply ev s) evs st.

(** The ids a run of effects asked the storage to remove. *)
Definition deleted (evs : list event) : list string :=
  flat_map (fun ev => match ev with Delete id => [id] | _ => [] end) evs.

(** The trash button of a row, and the dialog's [onOpenChange]. *)
Definition clickTrash (expense : Expense float) : list event :=
  [ SetDeleteId (Some (id expense)) ].

Definition onOpenChange : list event := [ SetDeleteId None ].

Section Storage.

(** Whether the storage answers the removal of an id with an error, and
    [formatDate], which rests on [Date] and [toLocaleDateString]. *)
Variable deleteError : string -> bool.
Variable formatDate : string -> string.

Definition handleDelete (st : State) : list event :=
  if truthyId (deleteId st) then
    match deleteId st with
    | None => []
    | Some id =>
        SetDeleting true :: Delete id ::
        (if deleteError id
         then [ Toast "Error" "Failed to delete expense" true ]
         else [ Toast "Success" "Expense deleted successfully" false; OnUpdate ])
        ++ [ SetDeleting false; SetDeleteId None ]
    end
  else [].

(** One row of the list; the description is shown only when it is truthy. *)
Record Row : Type := {
  key : string;
  rowCategory : string;
  rowAmount : JS.fixedText;
  rowDescription : option string;
  rowDate : string;
}.

Definition row (expense : Expense float) : Row :=
  {| key := id expense;
     rowCategory := category expense;
     rowAmount := JS.toFixed2 (amount expense);
     rowDescription := ExpenseForm.or_null (description expense);
     rowDate := formatDate (date expense) |}.

(** What the list shows. *)
Inductive view : Type :=
| LoadingExpenses
| NoExpensesYet
| Rows (rows : list Row) (dialogOpen : bool) (disabled : bool)
       (actionLabel : string).

Definition render (expenses : list (Expense float)) (loading : bool)
    (st : State) : view :=
  if loading then LoadingExpenses
  else match expenses with
       | [] => NoExpensesYet
       | _ =>
           Rows (map row expenses) (truthyId (deleteId st)) (deleting st)
                (if deleting st then "Deleting..." else "Delete")
       end.

End Storage.

End ExpenseList.

(* ================================================================== *)
(** * Dashboard: loading the data *)
(* ================================================================== *)

Module DashboardFlow.

Local Open Scope float_scope.

(** The whole state of the component. *)
Record State : Type := {
  core : Dashboard.State;
  showExpenseForm : bool;
  loading : bool;
}.

(** What the storage answers to a query: the data, or an error. *)
Inductive answer (A : Type) : Type :=
| Data (data : A)
| Error.

Arguments Data {A} _.
Arguments Error {A}.

(** What the handlers of the dashboard do, in order. *)
Inductive event : Type :=
| SetProfile (p : Profile)
| SetExpenses (es : list (Expense float))
| SetTodayTotal (t : float)
| SetShowExpenseForm (shown : bool)
| SetLoading (loading : bool)
| Toast (title text : string) (destructive : bool)
| SignOut
| Navigate (path : string).

Definition apply (ev : event) (st : State) : State :=
  let c := core st in
  match ev with
  | SetProfile p =>
      {| core := {| Dashboard.profile := Some p;
                    Dashboard.expenses := Dashboard.expenses c;
                    Dashboard.todayTotal := Dashboard.todayTotal c |};
         showExpenseForm := showExpenseForm st; loading := loading st |}
  | SetExpenses es =>
      {| core := {| Dashboard.profile := Dashboard.profile c;
                    Dashboard.expenses := es;
                    Dashboard.todayTotal := Dashboard.todayTotal c |};
         showExpenseForm := showExpenseForm st; loading := loading st |}
  | SetTodayTotal t =>
      {| core := {| Dashboard.profile := Dashboard.profile c;
                    Dashboard.expenses := Dashboard.expenses c;
                    Dashboard.todayTotal := t |};
         showExpenseForm := showExpenseForm st; loading := loading st |}
  | SetShowExpenseForm b =>
      {| core := c; showExpenseForm := b; loading := loading st |}
  | SetLoading b =>
      {| core := c; showExpenseForm := showExpenseForm st; loading := b |}
  | _ => st
  end.

Definition run (evs : list event) (st : State) : State :=
  fold_left (fun s ev => apply ev s) evs st.

(** The state a component starts from ([useState]). *)
Definition initial : State :=
  {| core := {| Dashboard.profile := None; Dashboard.expenses := [];
                Dashboard.todayTotal := 0 |};
     showExpenseForm := false; loading := true |}.

Section Backend.

(** The signed-in user's id if any, and the storage's answers: the profile
    row of a user ([.single()]), and the expenses of a user, where the data
    can be [null]. *)
Variable user : option string.
Variable profileOf : string -> answer Profile.
Variable expensesOf : string -> answer (option (list (Expense float))).

Definition fetchProfile : list event :=
  match user with
  | None => []
  | Some user_id =>
      match profileOf user_id with
      | Error => [ Toast "Error" "Failed to load profile" true ]
      | Data data => [ SetProfile data ]
      end
  end.

Definition fetchExpenses : list event :=
  SetLoading true ::
  match user with
  | None => []
  | Some user_id =>
      match expensesOf user_id with
      | Error => [ Toast "Error" "Failed to load expenses" true ]
      | Data data =>
          [ SetExpenses (match data with Some es => es | None => [] end) ]
      end
      ++ [ SetLoading false ]
  end.

(** The effect on [expenses], as effects on the whole state. *)
Definition calculateTodayTotal (now : string) (st : State) : list event :=
  [ SetTodayTotal
      (Dashboard.todayTotal (Dashboard.calculateTodayTotal now (core st))) ].

Definition handleLogout : list event := [ SignOut; Navigate "/auth" ].

Definition handleExpenseAdded : list event :=
  SetShowExpenseForm false :: fetchExpenses.

(** The mount effect: [fetchProfile(); fetchExpenses();].  The two run
    interleaved; here one after the other. *)
Definition mount : list event := fetchProfile ++ fetchExpenses.

(** The dashboard's part in a submission of the form: [onSuccess] is
    [handleExpenseAdded]. *)
Definition onSubmitted (evs : list ExpenseForm.event) : list event :=
  flat_map (fun ev => match ev with
                      | ExpenseForm.OnSuccess => handleExpenseAdded
                      | _ => []
                      end) evs.

(** The dashboard's part in a removal from the list: [onUpdate] is
    [fetchExpenses]. *)
Definition onDeleted (evs : list ExpenseList.event) : list event :=
  flat_map (fun ev => match ev with
                      | ExpenseList.OnUpdate => fetchExpenses
                      | _ => []
                      end) evs.

End Backend.

End DashboardFlow.

(* ================================================================== *)
(** * Facts about binary64 comparison *)
(* ================================================================== *)

Module FloatFacts.

Local Open Scope float_scope.

Lemma SFcompare_flip (x y : spec_float) :
  SFcompare y x = option_map CompOpp (SFcompare x y).
Proof.
  destruct x as [[]|[]| |[] mx ex], y as [[]|[]| |[] my ey]; simpl;
    try reflexivity;
    rewrite (Z.compare_antisym ey ex);
    destruct (ey ?= ex)%Z; simpl; try reflexivity;
    rewrite (Pos.compare_cont_antisym mx my Eq); simpl;
    try rewrite CompOpp_involutive; reflexivity.
Qed.

Lemma SFcompare_refl (x : spec_float) :
  x <> S754_nan -> SFcompare x x = Some Eq.
Proof.
  destruct x as [s|s| |s m e]; simpl; intros Hx; try congruence.
  - destruct s; reflexivity.
  - destruct s; rewrite Z.compare_refl;
      change (Pos.compare_cont Eq m m) with (Pos.compare m m);
      rewrite Pos.compare_refl; reflexivity.
Qed.

Lemma ltb_asym (x y : float) : (x <? y) = true -> (y <? x) = false.
Proof.
  rewrite !FloatAxioms.ltb_spec. unfold SFltb.
  rewrite (SFcompare_flip (Prim2SF x) (Prim2SF y)).
  destruct (SFcompare (Prim2SF x) (Prim2SF y)) as [[ | | ]|]; simpl;
    congruence.
Qed.

Lemma ltb_gt (x y : float) : (x <? y) = true <-> (y ?= x) = FGt.
Proof.
  rewrite FloatAxioms.ltb_spec, FloatAxioms.compare_spec. unfold SFltb.
  rewrite (SFcompare_flip (Prim2SF x) (Prim2SF y)).
  destruct (SFcompare (Prim2SF x) (Prim2SF y)) as [[ | | ]|]; simpl;
    split; congruence.
Qed.

Lemma eqb_not_ltb (x y : float) : (x =? y) = true -> (y <? x) = false.
Proof.
  rewrite FloatAxioms.eqb_spec, FloatAxioms.ltb_spec. unfold SFeqb, SFltb.
  rewrite (SFcompare_flip (Prim2SF x) (Prim2SF y)).
  destruct (SFcompare (Prim2SF x) (Prim2SF y)) as [[ | | ]|]; simpl;
    congruence.
Qed.

Lemma ltb_irrefl (x : float) : (x <? x) = false.
Proof.
  destruct (x <? x) eqn:E; [|reflexivity].
  rewrite (ltb_asym E) in E. discriminate.
Qed.

Lemma is_nan_spec (x : float) : is_nan x = true <-> Prim2SF x = S754_nan.
Proof.
  unfold is_nan. rewrite FloatAxioms.eqb_spec. unfold SFeqb.
  destruct (Prim2SF x) as [s|s| |s m e] eqn:E.
  1,2,4: rewrite SFcompare_refl by discriminate; simpl; split; discriminate.
  simpl. split; reflexivity.
Qed.

Lemma is_zero_spec (x : float) :
  is_zero x = true <-> exists s, Prim2SF x = S754_zero s.
Proof.
  unfold is_zero. rewrite FloatAxioms.eqb_spec. unfold SFeqb.
  change (Prim2SF 0) with (S754_zero false).
  destruct (Prim2SF x) as [s|s| |s m e]; simpl.
  - split; eauto.
  - destruct s; split; try discriminate; intros [s' ?]; discriminate.
  - split; try discriminate; intros [s' ?]; discriminate.
  - destruct s; split; try discriminate; intros [s' ?]; discriminate.
Qed.

(** The two zeros are the only floats that [Prim2SF] sends to a zero. *)
Lemma zero_cases (x : float) (s : bool) :
  Prim2SF x = S754_zero s -> x = if s then neg_zero else 0.
Proof.
  intros E. apply Prim2SF_inj. rewrite E. destruct s; reflexivity.
Qed.

End FloatFacts.

(* ================================================================== *)
(** * The order of doubles, and the rounding of their sums *)
(* ================================================================== *)

(** The order of binary64 values and the rounding of [+] and [-] are read
    off their specification in [SpecFloat]: a non-negative double is counted
    in units of [2^-1074], the smallest positive one, so that every finite
    double is an integer and the exact sum of two doubles is the sum of two
    integers.  The outcome: adding non-negative doubles is monotone, and
    subtracting a larger double never leaves a positive one. *)

Module Binary64.

Local Open Scope Z_scope.
Local Unset Implicit Arguments.

(** The number of units of [m * 2^e]. *)
Definition units (m : positive) (e : Z) : Z := Zpos m * 2 ^ (e + 1074).

(** Above every finite double: [2^1024], in units. *)
Definition top : Z := 2 ^ 2098.

Definition nonneg (x : spec_float) : bool :=
  match x with
  | S754_zero _ | S754_infinity false | S754_finite false _ _ => true
  | _ => false
  end.

(** The place of a non-negative double in the order. *)
Definition rank (x : spec_float) : Z :=
  match x with
  | S754_finite _ m e => units m e
  | S754_infinity _ => top
  | _ => 0
  end.

Lemma digits2_bounds (m : positive) :
  2 ^ (Zpos (digits2_pos m) - 1) <= Zpos m < 2 ^ Zpos (digits2_pos m).
Proof.
  induction m as [p IH|p IH|]; simpl digits2_pos.
  - rewrite Pos2Z.inj_succ.
    replace (Z.succ (Zpos (digits2_pos p)) - 1) with (Z.succ (Zpos (digits2_pos p) - 1)) by lia.
    rewrite !Z.pow_succ_r by lia. lia.
  - rewrite Pos2Z.inj_succ.
    replace (Z.succ (Zpos (digits2_pos p)) - 1) with (Z.succ (Zpos (digits2_pos p) - 1)) by lia.
    rewrite !Z.pow_succ_r by lia. lia.
  - simpl. lia.
Qed.

Lemma digits2_log2 (m : positive) :
  Zpos (digits2_pos m) = Z.log2 (Zpos m) + 1.
Proof.
  pose proof (digits2_bounds m) as H.
  symmetry. apply Z.add_move_r. apply Z.log2_unique; [lia|].
  replace (Z.succ (Zpos (digits2_pos m) - 1)) with (Zpos (digits2_pos m)) by lia.
  exact H.
Qed.

Lemma pow2_pos (k : Z) : 0 <= k -> 0 < 2 ^ k.
Proof. intros. apply Z.pow_pos_nonneg; lia. Qed.

Lemma pow2_le (a b : Z) : 0 <= a <= b -> 2 ^ a <= 2 ^ b.
Proof. intros. apply Z.pow_le_mono_r; lia. Qed.

(** What [valid_binary] says of a finite double. *)
Lemma bounded_facts (m : positive) (e : Z) :
  bounded prec emax m e = true ->
  -1074 <= e <= 971
  /\ Zpos m < 2 ^ 53
  /\ (-1074 < e -> 2 ^ 52 <= Zpos m).
Proof.
  unfold bounded, canonical_mantissa, fexp.
  change (SpecFloat.emin prec emax) with (-1074). change prec with 53.
  change (emax - 53) with 971.
  intros H. apply andb_true_iff in H. destruct H as [Hc Hb].
  apply Z.eqb_eq in Hc. apply Z.leb_le in Hb.
  pose proof (digits2_bounds m) as Hd.
  assert (Zpos (digits2_pos m) <= 53) as Hd53 by lia.
  split; [lia|]. split.
  - apply Z.lt_le_trans with (2 ^ Zpos (digits2_pos m)); [lia|].
    apply pow2_le. lia.
  - intros He. assert (Zpos (digits2_pos m) = 53) as E by lia.
    rewrite E in Hd. exact (proj1 Hd).
Qed.

Lemma units_pos (m : positive) (e : Z) : -1074 <= e -> 0 < units m e.
Proof.
  intros He. unfold units.
  pose proof (pow2_pos (e + 1074)). nia.
Qed.

Lemma units_below_top (m : positive) (e : Z) :
  bounded prec emax m e = true -> units m e < top.
Proof.
  intros H. destruct (bounded_facts _ _ H) as (He & Hm & _).
  unfold units, top.
  apply Z.lt_le_trans with (2 ^ 53 * 2 ^ (e + 1074)).
  - pose proof (pow2_pos (e + 1074)). nia.
  - rewrite <- Z.pow_add_r by lia. apply pow2_le. lia.
Qed.

(** A larger exponent makes a larger double. *)
Lemma units_lt_exponent (m1 m2 : positive) (e1 e2 : Z) :
  bounded prec emax m1 e1 = true -> bounded prec emax m2 e2 = true ->
  e1 < e2 -> units m1 e1 < units m2 e2.
Proof.
  intros H1 H2 He.
  destruct (bounded_facts _ _ H1) as (He1 & Hm1 & _).
  destruct (bounded_facts _ _ H2) as (He2 & _ & Hm2).
  specialize (Hm2 ltac:(lia)). unfold units.
  apply Z.lt_le_trans with (2 ^ 53 * 2 ^ (e1 + 1074)).
  - pose proof (pow2_pos (e1 + 1074)). nia.
  - apply Z.le_trans with (2 ^ 52 * 2 ^ (e2 + 1074)).
    + rewrite <- !Z.pow_add_r by lia. apply pow2_le. lia.
    + pose proof (pow2_pos (e2 + 1074)). nia.
Qed.

(** On valid non-negative doubles, [<=] is the order of the ranks. *)
Lemma SFleb_rank (x y : spec_float) :
  valid_binary x = true -> valid_binary y = true ->
  nonneg x = true -> nonneg y = true ->
  (SFleb x y = true <-> rank x <= rank y).
Proof.
  intros Vx Vy Nx Ny. unfold SFleb.
  destruct x as [sx|[|]| |[|] mx ex], y as [sy|[|]| |[|] my ey];
    try discriminate; simpl in *.
  - split; [lia|reflexivity].
  - split; [intros _; unfold top; pose proof (pow2_pos 2098); lia|reflexivity].
  - destruct (bounded_facts _ _ Vy) as (He & _).
    pose proof (units_pos my ey ltac:(lia)). split; [lia|reflexivity].
  - split; [discriminate|]. unfold top. pose proof (pow2_pos 2098). lia.
  - split; [lia|reflexivity].
  - pose proof (units_below_top _ _ Vy). split; [discriminate|lia].
  - destruct (bounded_facts _ _ Vx) as (He & _).
    pose proof (units_pos mx ex ltac:(lia)). split; [discriminate|lia].
  - pose proof (units_below_top _ _ Vx). split; [lia|reflexivity].
  - destruct (Z.compare_spec ex ey) as [E|E|E].
    + subst ey. change (Pos.compare_cont Eq mx my) with (Pos.compare mx my).
      destruct (bounded_facts _ _ Vx) as (He & _).
      pose proof (pow2_pos (ex + 1074)). unfold units.
      destruct (Pos.compare_spec mx my) as [E|E|E].
      * subst. split; [lia|reflexivity].
      * split; [intros _; nia|reflexivity].
      * split; [discriminate|]. intros. nia.
    + pose proof (units_lt_exponent _ _ _ _ Vx Vy E). split; [lia|reflexivity].
    + pose proof (units_lt_exponent _ _ _ _ Vy Vx E). split; [discriminate|lia].
Qed.

(** ** Rounding to nearest, ties to even, on integers *)

(** [rne n v] is the multiple of [2^n] nearest to [v]; half-way, the one
    whose quotient by [2^n] is even. *)
Definition roundUp (n v : Z) : bool :=
  (2 ^ n <? 2 * (v mod 2 ^ n)) || ((2 ^ n =? 2 * (v mod 2 ^ n)) && Z.odd (v / 2 ^ n)).

Definition rne (n v : Z) : Z :=
  (v / 2 ^ n + (if roundUp n v then 1 else 0)) * 2 ^ n.

(** The bits that do not fit in 53. *)
Definition excess (v : Z) : Z := Z.max (Z.log2 v - 52) 0.

(** [v] units rounded to a double. *)
Definition rounded (v : Z) : Z := rne (excess v) v.

Lemma div_mod_pow2 (n v : Z) :
  0 <= n ->
  v = v / 2 ^ n * 2 ^ n + v mod 2 ^ n /\ 0 <= v mod 2 ^ n < 2 ^ n.
Proof.
  intros Hn. pose proof (pow2_pos n Hn) as Hp. split.
  - rewrite Z.mul_comm. apply Z.div_mod. lia.
  - apply Z.mod_pos_bound. lia.
Qed.

Lemma rne_bounds (n v : Z) :
  0 <= n -> v / 2 ^ n * 2 ^ n <= rne n v <= (v / 2 ^ n + 1) * 2 ^ n.
Proof.
  intros Hn. pose proof (pow2_pos n Hn). unfold rne.
  destruct (roundUp n v); nia.
Qed.

Lemma roundUp_mono (n v v' : Z) :
  0 <= n -> v <= v' -> v / 2 ^ n = v' / 2 ^ n ->
  roundUp n v = true -> roundUp n v' = true.
Proof.
  intros Hn Hv Hq. unfold roundUp. rewrite <- Hq.
  destruct (div_mod_pow2 n v Hn) as [E1 B1].
  destruct (div_mod_pow2 n v' Hn) as [E2 B2].
  rewrite <- Hq in E2.
  assert (v mod 2 ^ n <= v' mod 2 ^ n) as Hr by lia.
  intros H. apply orb_true_iff in H. apply orb_true_iff.
  destruct H as [H|H].
  - left. apply Z.ltb_lt in H. apply Z.ltb_lt. lia.
  - apply andb_true_iff in H. destruct H as [H Ho]. apply Z.eqb_eq in H.
    destruct (Z.eq_dec (2 ^ n) (2 * (v' mod 2 ^ n))) as [E|E].
    + right. apply andb_true_iff. split; [apply Z.eqb_eq; exact E|exact Ho].
    + left. apply Z.ltb_lt. lia.
Qed.

Lemma rne_mono (n v v' : Z) : 0 <= n -> v <= v' -> rne n v <= rne n v'.
Proof.
  intros Hn Hv. pose proof (pow2_pos n Hn) as Hp.
  assert (v / 2 ^ n <= v' / 2 ^ n) as Hq by (apply Z.div_le_mono; lia).
  destruct (Z.eq_dec (v / 2 ^ n) (v' / 2 ^ n)) as [E|E].
  - unfold rne. rewrite <- E.
    destruct (roundUp n v) eqn:U.
    + rewrite (roundUp_mono n v v' Hn Hv E U). lia.
    + destruct (roundUp n v'); nia.
  - apply Z.le_trans with ((v / 2 ^ n + 1) * 2 ^ n); [apply rne_bounds; lia|].
    apply Z.le_trans with (v' / 2 ^ n * 2 ^ n); [nia|apply rne_bounds; lia].
Qed.

Lemma rne_exact (n v : Z) : 0 <= n -> v mod 2 ^ n = 0 -> rne n v = v.
Proof.
  intros Hn Hr. pose proof (pow2_pos n Hn) as Hp.
  destruct (div_mod_pow2 n v Hn) as [E _].
  unfold rne, roundUp. rewrite Hr.
  replace (2 ^ n <? 2 * 0) with false by (symmetry; apply Z.ltb_ge; lia).
  replace (2 ^ n =? 2 * 0) with false by (symmetry; apply Z.eqb_neq; lia).
  simpl. lia.
Qed.

Lemma rne_scale (n c a : Z) :
  0 <= n -> 0 <= c -> rne (n + c) (a * 2 ^ c) = rne n a * 2 ^ c.
Proof.
  intros Hn Hc.
  pose proof (pow2_pos n Hn) as Hpn. pose proof (pow2_pos c Hc) as Hpc.
  unfold rne, roundUp. rewrite Z.pow_add_r by lia.
  rewrite Z.div_mul_cancel_r by lia.
  rewrite Z.mul_mod_distr_r by lia.
  set (r := a mod 2 ^ n).
  replace (2 ^ n * 2 ^ c <? 2 * (r * 2 ^ c)) with (2 ^ n <? 2 * r).
  2: { destruct (Z.ltb_spec (2 ^ n) (2 * r));
       [symmetry; apply Z.ltb_lt; nia | symmetry; apply Z.ltb_ge; nia]. }
  replace (2 ^ n * 2 ^ c =? 2 * (r * 2 ^ c)) with (2 ^ n =? 2 * r).
  2: { destruct (Z.eqb_spec (2 ^ n) (2 * r));
       [symmetry; apply Z.eqb_eq; nia | symmetry; apply Z.eqb_neq; nia]. }
  ring.
Qed.

Lemma log2_bounds (v : Z) : 0 < v -> 2 ^ Z.log2 v <= v < 2 ^ (Z.log2 v + 1).
Proof.
  intros Hv. pose proof (Z.log2_spec v Hv) as H.
  replace (Z.succ (Z.log2 v)) with (Z.log2 v + 1) in H by lia. exact H.
Qed.

Lemma excess_bounds (v : Z) : 0 <= excess v /\ excess v <= Z.log2 v + 1.
Proof.
  unfold excess. pose proof (Z.log2_nonneg v). lia.
Qed.

(** Rounding never crosses a power of two. *)
Lemma rne_le_pow2 (n k v : Z) :
  0 <= n <= k -> 0 <= v < 2 ^ k -> rne n v <= 2 ^ k.
Proof.
  intros Hn Hv. pose proof (pow2_pos n ltac:(lia)) as Hp.
  apply Z.le_trans with ((v / 2 ^ n + 1) * 2 ^ n); [apply rne_bounds; lia|].
  replace k with ((k - n) + n) by lia. rewrite Z.pow_add_r by lia.
  apply Z.mul_le_mono_nonneg_r; [lia|].
  assert (v / 2 ^ n < 2 ^ (k - n)); [|lia].
  apply Z.div_lt_upper_bound; [lia|].
  rewrite <- Z.pow_add_r by lia. replace (n + (k - n)) with k by lia. lia.
Qed.

Lemma rne_ge_pow2 (n k v : Z) :
  0 <= n <= k -> 2 ^ k <= v -> 2 ^ k <= rne n v.
Proof.
  intros Hn Hv. pose proof (pow2_pos n ltac:(lia)) as Hp.
  apply Z.le_trans with (v / 2 ^ n * 2 ^ n); [|apply rne_bounds; lia].
  replace k with ((k - n) + n) at 1 by lia. rewrite Z.pow_add_r by lia.
  apply Z.mul_le_mono_nonneg_r; [lia|].
  apply Z.div_le_lower_bound; [lia|].
  rewrite <- Z.pow_add_r by lia. replace (n + (k - n)) with k by lia. lia.
Qed.

(** The rounding of a sum grows with the sum. *)
Lemma rounded_mono (v v' : Z) : 0 < v <= v' -> rounded v <= rounded v'.
Proof.
  intros Hv. unfold rounded.
  pose proof (Z.log2_le_mono v v' ltac:(lia)) as Hl.
  pose proof (excess_bounds v) as Hb. pose proof (excess_bounds v') as Hb'.
  destruct (Z.eq_dec (excess v) (excess v')) as [E|E].
  - rewrite E. apply rne_mono; lia.
  - assert (excess v < excess v') as Hlt by (unfold excess in *; lia).
    assert (Z.log2 v < Z.log2 v') as Hll by (unfold excess in *; lia).
    pose proof (log2_bounds v ltac:(lia)) as B.
    pose proof (log2_bounds v' ltac:(lia)) as B'.
    apply Z.le_trans with (2 ^ (Z.log2 v + 1)).
    + apply rne_le_pow2; lia.
    + apply Z.le_trans with (2 ^ Z.log2 v').
      * apply pow2_le. pose proof (Z.log2_nonneg v). lia.
      * apply rne_ge_pow2; [unfold excess in *; lia|lia].
Qed.

(** A value that fits is left alone. *)
Lemma rounded_exact (v : Z) : 0 < v -> v mod 2 ^ excess v = 0 -> rounded v = v.
Proof.
  intros Hv Hr. apply rne_exact; [apply excess_bounds|exact Hr].
Qed.

(** ** The shifts of [SpecFloat] *)

Lemma iter_pos_nat {A : Type} (f : A -> A) (p : positive) (x : A) :
  iter_pos f p x = Nat.iter (Pos.to_nat p) f x.
Proof.
  revert x. induction p as [p IH|p IH|]; intros x; simpl iter_pos.
  - rewrite !IH, Pos2Nat.inj_xI.
    replace (S (2 * Pos.to_nat p))%nat with (Pos.to_nat p + (Pos.to_nat p + 1))%nat by lia.
    rewrite !Nat.iter_add. reflexivity.
  - rewrite !IH, Pos2Nat.inj_xO.
    replace (2 * Pos.to_nat p)%nat with (Pos.to_nat p + Pos.to_nat p)%nat by lia.
    rewrite Nat.iter_add. reflexivity.
  - reflexivity.
Qed.

Lemma shr_1_nonneg (m : Z) (r s : bool) :
  0 <= m ->
  shr_1 {| shr_m := m; shr_r := r; shr_s := s |}
  = {| shr_m := m / 2; shr_r := Z.odd m; shr_s := r || s |}.
Proof.
  intros Hm. rewrite <- Z.div2_div.
  destruct m as [|[p|p|]|p]; try reflexivity. lia.
Qed.

(** After [k] shifts of [m]: the quotient by [2^k], whether the bit below
    it is set, and whether any bit further down is. *)
Definition shifted (m k : Z) (mrs : shr_record) : Prop :=
  0 <= shr_m mrs
  /\ exists low,
       0 <= low < 2 ^ k
       /\ 2 * m = shr_m mrs * 2 ^ (k + 1) + (if shr_r mrs then 2 ^ k else 0) + low
       /\ (shr_s mrs = true <-> 0 < low).

Lemma shifted_0 (m : Z) :
  0 <= m -> shifted m 0 {| shr_m := m; shr_r := false; shr_s := false |}.
Proof.
  intros Hm. split; [exact Hm|]. exists 0. cbn [shr_m shr_r shr_s].
  change (2 ^ (0 + 1)) with 2. change (2 ^ 0) with 1.
  split; [lia|]. split; [lia|]. split; [discriminate|lia].
Qed.

Lemma shifted_step (m k : Z) (mrs : shr_record) :
  0 <= k -> shifted m k mrs -> shifted m (k + 1) (shr_1 mrs).
Proof.
  intros Hk [Hm [low (Hl & E & Hs)]].
  destruct mrs as [q r s]. cbn [shr_m shr_r shr_s] in *.
  rewrite shr_1_nonneg by exact Hm. cbn [shr_m shr_r shr_s].
  pose proof (pow2_pos k Hk) as Hp.
  assert (2 ^ (k + 1) = 2 * 2 ^ k) as E1
    by (rewrite Z.pow_add_r by lia; change (2 ^ 1) with 2; lia).
  assert (2 ^ (k + 1 + 1) = 4 * 2 ^ k) as E2
    by (rewrite !Z.pow_add_r by lia; change (2 ^ 1) with 2; lia).
  assert (q = 2 * (q / 2) + (if Z.odd q then 1 else 0)) as Eq.
  { pose proof (Z.div_mod q 2 ltac:(lia)) as D.
    rewrite Zmod_odd in D. exact D. }
  split; [apply Z.div_pos; lia|].
  exists ((if r then 2 ^ k else 0) + low).
  rewrite E1, E2. rewrite E1 in E.
  cbn [shr_m shr_r shr_s].
  split; [clear Eq E; destruct r; lia|]. split.
  - clear Hs. destruct (Z.odd q), r; lia.
  - destruct r, s; simpl; split; intros H; try reflexivity; try lia;
      try discriminate; try (apply Hs; reflexivity).
Qed.

Lemma shifted_iter (m : Z) (k : nat) :
  0 <= m ->
  shifted m (Z.of_nat k)
    (Nat.iter k shr_1 {| shr_m := m; shr_r := false; shr_s := false |}).
Proof.
  intros Hm. induction k as [|k IH].
  - apply shifted_0. exact Hm.
  - rewrite Nat2Z.inj_succ. unfold Z.succ. simpl Nat.iter.
    apply shifted_step; [lia|exact IH].
Qed.

(** What the rounding makes of a shifted record. *)
Lemma shifted_round (m k : Z) (mrs : shr_record) :
  0 <= k -> shifted m k mrs ->
  round_nearest_even (shr_m mrs) (loc_of_shr_record mrs)
  = m / 2 ^ k + (if roundUp k m then 1 else 0).
Proof.
  intros Hk [Hm [low (Hl & E & Hs)]].
  destruct mrs as [q r s]. cbn [shr_m shr_r shr_s] in *.
  pose proof (pow2_pos k Hk) as Hp.
  assert (2 ^ (k + 1) = 2 * 2 ^ k) as E1
    by (rewrite Z.pow_add_r by lia; change (2 ^ 1) with 2; lia).
  rewrite E1 in E.
  set (rem := m - q * 2 ^ k).
  assert (2 * rem = (if r then 2 ^ k else 0) + low) as Er by (unfold rem; lia).
  assert (0 <= rem < 2 ^ k) as Hrem by (destruct r; lia).
  assert (m / 2 ^ k = q) as Eq.
  { symmetry. apply Z.div_unique with rem; [lia|unfold rem; lia]. }
  assert (m mod 2 ^ k = rem) as Em.
  { symmetry. apply Z.mod_unique with q; [lia|unfold rem; lia]. }
  unfold roundUp. rewrite Eq, Em.
  destruct r, s; cbn [loc_of_shr_record round_nearest_even].
  - assert (0 < low) by (apply Hs; reflexivity).
    replace (2 ^ k <? 2 * rem) with true by (symmetry; apply Z.ltb_lt; lia).
    reflexivity.
  - assert (low = 0).
    { destruct (Z.eq_dec low 0); [assumption|].
      assert (false = true) by (apply Hs; lia). discriminate. }
    replace (2 ^ k <? 2 * rem) with false by (symmetry; apply Z.ltb_ge; lia).
    replace (2 ^ k =? 2 * rem) with true by (symmetry; apply Z.eqb_eq; lia).
    cbn [orb andb]. rewrite <- Z.negb_odd.
    destruct (Z.odd q); cbn [negb]; lia.
  - replace (2 ^ k <? 2 * rem) with false by (symmetry; apply Z.ltb_ge; lia).
    assert (0 < low) by (apply Hs; reflexivity).
    replace (2 ^ k =? 2 * rem) with false by (symmetry; apply Z.eqb_neq; lia).
    cbn [orb andb]. lia.
  - assert (low = 0).
    { destruct (Z.eq_dec low 0); [assumption|].
      assert (false = true) by (apply Hs; lia). discriminate. }
    replace (2 ^ k <? 2 * rem) with false by (symmetry; apply Z.ltb_ge; lia).
    replace (2 ^ k =? 2 * rem) with false by (symmetry; apply Z.eqb_neq; lia).
    cbn [orb andb]. lia.
Qed.

(** ** What [binary_round] computes *)

Lemma fexp_eq (k : Z) : fexp prec emax k = Z.max (k - 53) (-1074).
Proof. reflexivity. Qed.

Lemma log2_units (m : positive) (e : Z) :
  -1074 <= e -> Z.log2 (units m e) = Z.log2 (Zpos m) + (e + 1074).
Proof.
  intros He. unfold units. rewrite Z.log2_mul_pow2 by lia. lia.
Qed.

Lemma units_mod (m : positive) (e n : Z) :
  0 <= n <= e + 1074 -> units m e mod 2 ^ n = 0.
Proof.
  intros Hn. unfold units.
  replace (e + 1074) with ((e + 1074 - n) + n) by lia.
  rewrite Z.pow_add_r by lia. rewrite Z.mul_assoc.
  apply Z.mod_mul. pose proof (pow2_pos n ltac:(lia)). lia.
Qed.

(** A mantissa of at most 53 bits is not rounded. *)
Lemma rounded_units (m : positive) (e : Z) :
  -1074 <= e -> Zpos m < 2 ^ 53 -> rounded (units m e) = units m e.
Proof.
  intros He Hm. apply rounded_exact; [apply units_pos; lia|].
  apply units_mod. split; [apply excess_bounds|].
  unfold excess. rewrite log2_units by lia.
  assert (Z.log2 (Zpos m) < 53) by (apply Z.log2_lt_pow2; lia).
  lia.
Qed.

(** The last step of [binary_round_aux]: overflow to infinity. *)
Definition finish (s : bool) (m : positive) (e : Z) : spec_float :=
  if e <=? emax - prec then S754_finite s m e else S754_infinity s.

(** A mantissa and an exponent that [finish] may be given: the mantissa
    has at most 53 bits, and exactly 53 beyond the largest exponent. *)
Definition normal (m : positive) (e : Z) : Prop :=
  -1074 <= e /\ Zpos m < 2 ^ 53 /\ (971 < e -> 2 ^ 52 <= Zpos m).

Lemma top_split : top = 2 ^ 52 * 2 ^ (972 + 1074).
Proof. unfold top. rewrite <- Z.pow_add_r by lia. reflexivity. Qed.

Lemma finish_rank (m : positive) (e : Z) :
  normal m e ->
  nonneg (finish false m e) = true
  /\ rank (finish false m e) = Z.min (units m e) top.
Proof.
  intros (He & Hm & Hn). unfold finish. change (emax - prec) with 971.
  destruct (Z.leb_spec e 971) as [H|H]; simpl; split; try reflexivity.
  - assert (units m e < top); [|lia].
    unfold units, top.
    apply Z.lt_le_trans with (2 ^ 53 * 2 ^ (e + 1074)).
    + pose proof (pow2_pos (e + 1074) ltac:(lia)). nia.
    + rewrite <- Z.pow_add_r by lia. apply pow2_le. lia.
  - assert (top <= units m e); [|lia].
    rewrite top_split. unfold units. specialize (Hn H).
    apply Z.le_trans with (2 ^ 52 * 2 ^ (e + 1074)).
    + apply Z.mul_le_mono_nonneg_l; [lia|]. apply pow2_le. lia.
    + pose proof (pow2_pos (e + 1074) ltac:(lia)). nia.
Qed.

(** The second [shr_fexp] of [binary_round_aux] absorbs the carry of the
    rounding. *)
Lemma carry_stage (m' e' : Z) :
  2 ^ 52 <= m' <= 2 ^ 53 -> -1074 <= e' ->
  exists m'' e'',
    shr_fexp prec emax m' e' loc_Exact
    = ({| shr_m := Zpos m''; shr_r := false; shr_s := false |}, e'')
    /\ 2 ^ 52 <= Zpos m'' < 2 ^ 53
    /\ -1074 <= e''
    /\ units m'' e'' = m' * 2 ^ (e' + 1074).
Proof.
  intros Hm He.
  destruct m' as [|p|p]; try (pose proof (pow2_pos 52); lia).
  unfold shr_fexp. cbn [Zdigits2 shr_record_of_loc].
  rewrite digits2_log2, fexp_eq.
  destruct (Z.eq_dec (Zpos p) (2 ^ 53)) as [E|E].
  - rewrite E. rewrite Z.log2_pow2 by lia.
    replace (Z.max (53 + 1 + e' - 53) (-1074) - e') with 1 by lia.
    cbn [shr iter_pos]. rewrite shr_1_nonneg by lia.
    change (2 ^ 53 / 2) with (Zpos (2 ^ 52)).
    exists (2 ^ 52)%positive, (e' + 1). split; [reflexivity|].
    split; [split; [reflexivity|reflexivity]|].
    split; [lia|]. unfold units.
    replace (e' + 1 + 1074) with (1 + (e' + 1074)) by lia.
    rewrite Z.pow_add_r by lia. change (Z.pos (2 ^ 52)) with (2 ^ 52).
    change (2 ^ 1) with 2. change (2 ^ 53) with (2 ^ 52 * 2). ring.
  - assert (Z.log2 (Zpos p) = 52) as El.
    { apply Z.log2_unique; [lia|]. change (Z.succ 52) with 53. lia. }
    rewrite El.
    replace (Z.max (52 + 1 + e' - 53) (-1074) - e') with 0 by lia.
    cbn [shr]. exists p, e'. split; [reflexivity|].
    split; [lia|]. split; [lia|reflexivity].
Qed.

(** [binary_round_aux] of an aligned mantissa, whatever the sign: the
    rounded value, or infinity. *)
Lemma binary_round_aux_finish (s : bool) (mz : positive) (e1 : Z) :
  -1074 <= e1 ->
  e1 <= fexp prec emax (Zpos (digits2_pos mz) + e1) ->
  exists m e,
    binary_round_aux prec emax s (Zpos mz) e1 loc_Exact = finish s m e
    /\ normal m e
    /\ units m e = rounded (units mz e1).
Proof.
  intros He Ha. rewrite fexp_eq, digits2_log2 in Ha.
  pose proof (log2_bounds (Zpos mz) ltac:(lia)) as Hl.
  pose proof (Z.log2_nonneg (Zpos mz)) as Hl0.
  destruct (Z.max (Z.log2 (Zpos mz) + 1 + e1 - 53) (-1074) - e1)
    as [|n|n] eqn:En; try lia.
  - (* the mantissa fits *)
    exists mz, e1.
    assert (Zpos mz < 2 ^ 53) as Hm.
    { apply Z.lt_le_trans with (2 ^ (Z.log2 (Zpos mz) + 1)); [lia|].
      apply pow2_le. lia. }
    split; [|split].
    + unfold binary_round_aux, shr_fexp. cbn [Zdigits2 shr_record_of_loc].
      rewrite digits2_log2, fexp_eq, En.
      cbn [shr shr_m loc_of_shr_record round_nearest_even Zdigits2].
      rewrite digits2_log2, fexp_eq, En. reflexivity.
    + split; [lia|]. split; [exact Hm|].
      intros H. assert (Z.log2 (Zpos mz) = 52) as E by lia.
      rewrite E in Hl. lia.
    + symmetry. apply rounded_units; lia.
  - (* [n] bits are rounded away *)
    assert (Z.log2 (Zpos mz) = 52 + Zpos n) as El by lia.
    pose proof (shifted_iter (Zpos mz) (Pos.to_nat n) ltac:(lia)) as Hs.
    rewrite positive_nat_Z in Hs.
    pose proof (shifted_round (Zpos mz) (Zpos n) _ ltac:(lia) Hs) as Hround.
    set (m' := Zpos mz / 2 ^ Zpos n
               + (if roundUp (Zpos n) (Zpos mz) then 1 else 0)) in *.
    assert (rne (Zpos n) (Zpos mz) = m' * 2 ^ Zpos n) as Hrne by reflexivity.
    assert (2 ^ 52 <= Zpos mz / 2 ^ Zpos n < 2 ^ 53) as Hq.
    { pose proof (pow2_pos (Zpos n) ltac:(lia)) as Hp.
      rewrite El in Hl. split.
      - apply Z.div_le_lower_bound; [lia|].
        rewrite <- Z.pow_add_r by lia.
        replace (Zpos n + 52) with (52 + Zpos n) by lia. lia.
      - apply Z.div_lt_upper_bound; [lia|].
        rewrite <- Z.pow_add_r by lia.
        replace (Zpos n + 53) with (52 + Zpos n + 1) by lia. lia. }
    assert (2 ^ 52 <= m' <= 2 ^ 53) as Hm'
      by (unfold m'; destruct (roundUp (Zpos n) (Zpos mz)); lia).
    clearbody m'.
    destruct (carry_stage m' (e1 + Zpos n) Hm' ltac:(lia))
      as (m'' & e'' & Hc & Hm'' & He'' & Hu).
    exists m'', e''. split; [|split].
    + unfold binary_round_aux. unfold shr_fexp at 1.
      cbn [Zdigits2 shr_record_of_loc].
      rewrite digits2_log2, fexp_eq, En.
      cbn [shr]. rewrite iter_pos_nat, Hround, Hc. reflexivity.
    + split; [lia|]. split; lia.
    + unfold rounded, excess. rewrite log2_units, El by lia.
      replace (Z.max (52 + Zpos n + (e1 + 1074) - 52) 0)
        with (Zpos n + (e1 + 1074)) by lia.
      unfold units at 2. rewrite rne_scale by lia.
      rewrite Hrne, Hu.
      replace (e1 + Zpos n + 1074) with (Zpos n + (e1 + 1074)) by lia.
      rewrite (Z.pow_add_r 2 (Zpos n) (e1 + 1074)) by lia. ring.
Qed.

Lemma iter_xO (m d : positive) :
  Zpos (Pos.iter xO m d) = Zpos m * 2 ^ Zpos d.
Proof.
  induction d as [|d IH] using Pos.peano_ind.
  - simpl. change (2 ^ 1) with 2. lia.
  - rewrite Pos.iter_succ, Pos2Z.inj_xO, IH, Pos2Z.inj_succ.
    rewrite Z.pow_succ_r by lia. ring.
Qed.

(** [binary_round] of a mantissa and an exponent, whatever the sign: the
    value in units, rounded, or infinity from [2^1024] on. *)
Lemma binary_round_finish (s : bool) (M : positive) (ez : Z) :
  -1074 <= ez ->
  exists m e,
    binary_round prec emax s M ez = finish s m e
    /\ normal m e
    /\ units m e = rounded (units M ez).
Proof.
  intros He. unfold binary_round, shl_align.
  rewrite fexp_eq, digits2_log2.
  pose proof (Z.log2_nonneg (Zpos M)) as Hl0.
  destruct (Z.max (Z.log2 (Zpos M) + 1 + ez - 53) (-1074) - ez)
    as [|d|d] eqn:Ed.
  - apply binary_round_aux_finish; [lia|]. rewrite fexp_eq, digits2_log2. lia.
  - apply binary_round_aux_finish; [lia|]. rewrite fexp_eq, digits2_log2. lia.
  - set (e1 := Z.max (Z.log2 (Zpos M) + 1 + ez - 53) (-1074)) in *.
    assert (ez = e1 + Zpos d) as Ez by lia.
    assert (units (Pos.iter xO M d) e1 = units M ez) as Eu.
    { unfold units. rewrite iter_xO, Ez.
      replace (e1 + Zpos d + 1074) with (Zpos d + (e1 + 1074)) by lia.
      rewrite (Z.pow_add_r 2 (Zpos d) (e1 + 1074)) by lia. ring. }
    rewrite <- Eu. apply binary_round_aux_finish; [lia|].
    rewrite fexp_eq, digits2_log2, iter_xO.
    rewrite Z.log2_mul_pow2 by lia. lia.
Qed.

Lemma binary_round_rank (M : positive) (ez : Z) :
  -1074 <= ez ->
  nonneg (binary_round prec emax false M ez) = true
  /\ rank (binary_round prec emax false M ez) = Z.min (rounded (units M ez)) top.
Proof.
  intros He.
  destruct (binary_round_finish false M ez He) as (m & e & Eb & Hn & Hu).
  rewrite Eb, <- Hu. apply finish_rank. exact Hn.
Qed.

(** ** Addition *)

(** The rank of a sum, from the sum of the ranks. *)
Definition sumRank (u : Z) : Z :=
  if u =? 0 then 0 else Z.min (rounded u) top.

Lemma top_pos : 0 < top.
Proof. apply pow2_pos. lia. Qed.

Lemma rounded_nonneg (u : Z) : 0 <= u -> 0 <= rounded u.
Proof.
  intros Hu. unfold rounded.
  pose proof (excess_bounds u) as [Hn _].
  pose proof (pow2_pos (excess u) Hn) as Hp.
  apply Z.le_trans with (u / 2 ^ excess u * 2 ^ excess u);
    [|apply rne_bounds; lia].
  assert (0 <= u / 2 ^ excess u) by (apply Z.div_pos; lia). nia.
Qed.

Lemma rounded_top (u : Z) : top <= u <= 2 * top -> top <= rounded u.
Proof.
  intros Hu. unfold rounded, top in *. apply rne_ge_pow2; [|lia].
  pose proof (pow2_pos 2098 ltac:(lia)) as Hp.
  split; [apply excess_bounds|]. unfold excess.
  assert (Z.log2 u < 2100); [|lia].
  apply Z.log2_lt_pow2; [lia|].
  change (2 ^ 2100) with (4 * 2 ^ 2098). lia.
Qed.

Lemma sumRank_mono (u u' : Z) : 0 <= u <= u' -> sumRank u <= sumRank u'.
Proof.
  intros Hu. unfold sumRank. pose proof top_pos.
  destruct (Z.eqb_spec u 0) as [E|E], (Z.eqb_spec u' 0) as [E'|E']; try lia.
  - pose proof (rounded_nonneg u' ltac:(lia)). lia.
  - pose proof (rounded_mono u u' ltac:(lia)). lia.
Qed.

Lemma rank_range (x : spec_float) :
  valid_binary x = true -> 0 <= rank x <= top.
Proof.
  intros V. pose proof top_pos.
  destruct x as [s|s| |s m e]; simpl in *; try lia.
  destruct (bounded_facts _ _ V) as (He & _).
  pose proof (units_pos m e ltac:(lia)).
  pose proof (units_below_top _ _ V). lia.
Qed.

(** A double is its own rounding. *)
Lemma sumRank_rank (x : spec_float) :
  valid_binary x = true -> x <> S754_nan -> sumRank (rank x) = rank x.
Proof.
  intros V Hn. unfold sumRank. pose proof top_pos.
  destruct x as [s|s| |s m e]; simpl in *; try congruence.
  - destruct (Z.eqb_spec top 0); [lia|].
    pose proof (rounded_top top ltac:(lia)). lia.
  - destruct (bounded_facts _ _ V) as (He & Hm & _).
    pose proof (units_pos m e ltac:(lia)).
    pose proof (units_below_top _ _ V).
    destruct (Z.eqb_spec (units m e) 0); [lia|].
    rewrite rounded_units by lia. lia.
Qed.

Lemma shl_align_fst (m : positive) (e ez : Z) :
  ez <= e -> Zpos (fst (shl_align m e ez)) = Zpos m * 2 ^ (e - ez).
Proof.
  intros He. unfold shl_align.
  destruct (ez - e) as [|d|d] eqn:Ed; try lia; cbn [fst].
  - replace (e - ez) with 0 by lia. change (2 ^ 0) with 1. lia.
  - rewrite iter_xO. replace (e - ez) with (Zpos d) by lia. reflexivity.
Qed.

Lemma SFadd_rank (x y : spec_float) :
  valid_binary x = true -> valid_binary y = true ->
  nonneg x = true -> nonneg y = true ->
  nonneg (SF64add x y) = true
  /\ rank (SF64add x y) = sumRank (rank x + rank y).
Proof.
  intros Vx Vy Nx Ny. pose proof top_pos as Ht.
  pose proof (rank_range x Vx) as Rx. pose proof (rank_range y Vy) as Ry.
  destruct x as [sx|[|]| |[|] mx ex]; try discriminate;
    destruct y as [sy|[|]| |[|] my ey]; try discriminate.
  - (* zero, zero *)
    destruct sx, sy; split; reflexivity.
  - (* zero, infinity *)
    split; [reflexivity|]. symmetry.
    apply (sumRank_rank (S754_infinity false)); [reflexivity|discriminate].
  - (* zero, finite *)
    split; [reflexivity|]. symmetry.
    apply (sumRank_rank (S754_finite false my ey)); [exact Vy|discriminate].
  - (* infinity, zero *)
    split; [reflexivity|]. unfold sumRank. simpl rank.
    destruct (Z.eqb_spec (top + 0) 0); [lia|].
    pose proof (rounded_top (top + 0) ltac:(lia)). lia.
  - (* infinity, infinity *)
    split; [reflexivity|]. unfold sumRank. simpl rank.
    destruct (Z.eqb_spec (top + top) 0); [lia|].
    pose proof (rounded_top (top + top) ltac:(lia)). lia.
  - (* infinity, finite *)
    split; [reflexivity|]. unfold sumRank. simpl rank in *.
    destruct (Z.eqb_spec (top + units my ey) 0); [lia|].
    pose proof (rounded_top (top + units my ey) ltac:(lia)). lia.
  - (* finite, zero *)
    split; [reflexivity|]. simpl rank. rewrite Z.add_0_r. symmetry.
    apply (sumRank_rank (S754_finite false mx ex)); [exact Vx|discriminate].
  - (* finite, infinity *)
    split; [reflexivity|]. unfold sumRank. simpl rank in *.
    destruct (Z.eqb_spec (units mx ex + top) 0); [lia|].
    pose proof (rounded_top (units mx ex + top) ltac:(lia)). lia.
  - (* finite, finite *)
    destruct (bounded_facts _ _ Vx) as (Hex & _).
    destruct (bounded_facts _ _ Vy) as (Hey & _).
    pose proof (units_pos mx ex ltac:(lia)) as Ux.
    pose proof (units_pos my ey ltac:(lia)) as Uy.
    unfold SF64add, SFadd. cbn [cond_Zopp].
    set (ez := Z.min ex ey).
    set (ax := fst (shl_align mx ex ez)). set (ay := fst (shl_align my ey ez)).
    change (Zpos ax + Zpos ay) with (Zpos (ax + ay)).
    cbn [binary_normalize].
    assert (units (ax + ay) ez = units mx ex + units my ey) as Eu.
    { unfold units. rewrite Pos2Z.inj_add. unfold ax, ay.
      rewrite !shl_align_fst by (unfold ez; lia).
      replace (ex + 1074) with ((ex - ez) + (ez + 1074)) by lia.
      replace (ey + 1074) with ((ey - ez) + (ez + 1074)) by lia.
      rewrite (Z.pow_add_r 2 (ex - ez) (ez + 1074)) by (unfold ez; lia).
      rewrite (Z.pow_add_r 2 (ey - ez) (ez + 1074)) by (unfold ez; lia).
      ring. }
    destruct (binary_round_rank (ax + ay) ez ltac:(unfold ez; lia)) as [Hn Hr].
    split; [exact Hn|]. rewrite Hr, Eu. unfold sumRank. simpl rank.
    destruct (Z.eqb_spec (units mx ex + units my ey) 0); [lia|reflexivity].
Qed.

(** ** Subtraction of a larger double *)

Definition nonpos (x : spec_float) : bool :=
  match x with
  | S754_zero _ | S754_infinity true | S754_finite true _ _ => true
  | _ => false
  end.

Lemma SFltb_rank (x y : spec_float) :
  valid_binary x = true -> valid_binary y = true ->
  nonneg x = true -> nonneg y = true ->
  SFltb x y = true -> rank x < rank y.
Proof.
  intros Vx Vy Nx Ny H.
  destruct (Z.lt_ge_cases (rank x) (rank y)) as [Hlt|Hge]; [exact Hlt|].
  apply (SFleb_rank y x Vy Vx Ny Nx) in Hge.
  unfold SFltb in H. unfold SFleb in Hge.
  rewrite (FloatFacts.SFcompare_flip x y) in Hge.
  destruct (SFcompare x y) as [[ | | ]|]; simpl in *; discriminate.
Qed.

(** Two negative doubles compare as their magnitudes, the other way round. *)
Lemma SFcompare_negative (mx my : positive) (ex ey : Z) :
  SFcompare (S754_finite true mx ex) (S754_finite true my ey)
  = SFcompare (S754_finite false my ey) (S754_finite false mx ex).
Proof.
  simpl. rewrite (Z.compare_antisym ex ey).
  destruct (ex ?= ey); simpl; try reflexivity.
  rewrite (Pos.compare_cont_antisym mx my Eq). reflexivity.
Qed.

Lemma units_aligned (m : positive) (e ez : Z) :
  -1074 <= ez <= e ->
  units m e = Zpos (fst (shl_align m e ez)) * 2 ^ (ez + 1074).
Proof.
  intros He. rewrite shl_align_fst by lia. unfold units.
  replace (e + 1074) with ((e - ez) + (ez + 1074)) by lia.
  rewrite (Z.pow_add_r 2 (e - ez) (ez + 1074)) by lia. ring.
Qed.

Lemma binary_normalize_negative (d : positive) (ez : Z) :
  -1074 <= ez ->
  nonpos (binary_normalize prec emax (Zneg d) ez false) = true.
Proof.
  intros He. cbn [binary_normalize].
  destruct (binary_round_finish true d ez He) as (m & e & Eb & _).
  rewrite Eb. unfold finish. destruct (e <=? emax - prec); reflexivity.
Qed.

(** [x - y] for [x < y]: a zero or a negative double, never [NaN]. *)
Lemma SFsub_lt_nonpos (x y : spec_float) :
  valid_binary x = true -> valid_binary y = true ->
  SFltb x y = true -> nonpos (SF64sub x y) = true.
Proof.
  intros Vx Vy H.
  destruct x as [sx|sx| |sx mx ex], y as [sy|sy| |sy my ey];
    try discriminate H;
    try (destruct sx, sy; try discriminate H; reflexivity);
    try (destruct sx; try discriminate H; reflexivity);
    try (destruct sy; try discriminate H; reflexivity).
  destruct (bounded_facts _ _ Vx) as (Hex & _).
  destruct (bounded_facts _ _ Vy) as (Hey & _).
  unfold SF64sub, SFsub.
  set (ez := Z.min ex ey).
  assert (-1074 <= ez <= ex) as Hzx by (unfold ez; lia).
  assert (-1074 <= ez <= ey) as Hzy by (unfold ez; lia).
  pose proof (units_aligned mx ex ez Hzx) as Ux.
  pose proof (units_aligned my ey ez Hzy) as Uy.
  pose proof (pow2_pos (ez + 1074) ltac:(lia)) as Hp.
  set (ax := fst (shl_align mx ex ez)) in *.
  set (ay := fst (shl_align my ey ez)) in *.
  assert (cond_Zopp sx (Zpos ax) - cond_Zopp sy (Zpos ay) < 0) as Hd.
  { destruct sx, sy; cbn [cond_Zopp].
    - unfold SFltb in H. rewrite SFcompare_negative in H.
      fold (SFltb (S754_finite false my ey) (S754_finite false mx ex)) in H.
      apply SFltb_rank in H; try assumption; try reflexivity.
      simpl rank in H. nia.
    - lia.
    - discriminate H.
    - apply SFltb_rank in H; try assumption; try reflexivity.
      simpl rank in H. nia. }
  destruct (cond_Zopp sx (Zpos ax) - cond_Zopp sy (Zpos ay)) as [|d|d];
    try lia.
  apply binary_normalize_negative. lia.
Qed.

(** ** Subtraction of a smaller or an equal double *)

Definition above_zero (x : spec_float) : bool :=
  match x with
  | S754_infinity false | S754_finite false _ _ => true
  | _ => false
  end.

Lemma binary_normalize_positive (d : positive) (ez : Z) :
  -1074 <= ez ->
  above_zero (binary_normalize prec emax (Zpos d) ez false) = true.
Proof.
  intros He. cbn [binary_normalize].
  destruct (binary_round_finish false d ez He) as (m & e & Eb & _).
  rewrite Eb. unfold finish. destruct (e <=? emax - prec); reflexivity.
Qed.

(** [x - y] for [y < x]: a positive double or [Infinity], never a zero or
    [NaN]. *)
Lemma SFsub_gt_above (x y : spec_float) :
  valid_binary x = true -> valid_binary y = true ->
  SFltb y x = true -> above_zero (SF64sub x y) = true.
Proof.
  intros Vx Vy H.
  destruct x as [sx|sx| |sx mx ex], y as [sy|sy| |sy my ey];
    try discriminate H;
    try (destruct sx, sy; try discriminate H; reflexivity);
    try (destruct sx; try discriminate H; reflexivity);
    try (destruct sy; try discriminate H; reflexivity).
  destruct (bounded_facts _ _ Vx) as (Hex & _).
  destruct (bounded_facts _ _ Vy) as (Hey & _).
  unfold SF64sub, SFsub.
  set (ez := Z.min ex ey).
  assert (-1074 <= ez <= ex) as Hzx by (unfold ez; lia).
  assert (-1074 <= ez <= ey) as Hzy by (unfold ez; lia).
  pose proof (units_aligned mx ex ez Hzx) as Ux.
  pose proof (units_aligned my ey ez Hzy) as Uy.
  pose proof (pow2_pos (ez + 1074) ltac:(lia)) as Hp.
  set (ax := fst (shl_align mx ex ez)) in *.
  set (ay := fst (shl_align my ey ez)) in *.
  assert (0 < cond_Zopp sx (Zpos ax) - cond_Zopp sy (Zpos ay)) as Hd.
  { destruct sx, sy; cbn [cond_Zopp].
    - unfold SFltb in H. rewrite SFcompare_negative in H.
      fold (SFltb (S754_finite false mx ex) (S754_finite false my ey)) in H.
      apply SFltb_rank in H; try assumption; try reflexivity.
      simpl rank in H. nia.
    - discriminate H.
    - lia.
    - apply SFltb_rank in H; try assumption; try reflexivity.
      simpl rank in H. nia. }
  destruct (cond_Zopp sx (Zpos ax) - cond_Zopp sy (Zpos ay)) as [|d|d];
    try lia.
  apply binary_normalize_positive. lia.
Qed.

Definition is_a_zero (x : spec_float) : bool :=
  match x with S754_zero _ => true | _ => false end.

(** [x - y] for [x = y], neither infinite: a zero. *)
Lemma SFsub_eq_zero (x y : spec_float) :
  SFeqb x y = true -> x <> S754_infinity false -> x <> S754_infinity true ->
  is_a_zero (SF64sub x y) = true.
Proof.
  intros H Hp Hn.
  destruct x as [sx|sx| |sx mx ex], y as [sy|sy| |sy my ey];
    try discriminate H;
    try (destruct sx, sy; try discriminate H; try congruence; reflexivity);
    try (destruct sx; try discriminate H; try congruence; reflexivity);
    try (destruct sy; try discriminate H; try congruence; reflexivity).
  assert (sx = sy /\ ex = ey /\ mx = my) as (-> & -> & ->).
  { unfold SFeqb in H. cbn [SFcompare] in H.
    destruct sx, sy; try discriminate H;
      destruct (ex ?= ey) eqn:Ee; try discriminate H;
      apply Z.compare_eq in Ee;
      (destruct (Pos.compare_cont Eq mx my) eqn:Em ||
       destruct (Pos.compare_cont Eq my mx) eqn:Em ||
       destruct (CompOpp (Pos.compare_cont Eq mx my)) eqn:Em);
      try discriminate H; repeat split; try assumption.
    all: try (apply Pos.compare_eq; exact Em).
    all: try (symmetry; apply Pos.compare_eq; exact Em).
    all: try (apply Pos.compare_eq; destruct (Pos.compare_cont Eq mx my);
              try discriminate Em; reflexivity). }
  unfold SF64sub, SFsub. rewrite Z.sub_diag. reflexivity.
Qed.

(** ** The same on the primitive floats *)

Local Open Scope float_scope.

Lemma leb_zero_nonneg (x : float) :
  (0 <=? x) = true <-> nonneg (Prim2SF x) = true.
Proof.
  rewrite FloatAxioms.leb_spec. change (Prim2SF 0) with (S754_zero false).
  unfold SFleb. destruct (Prim2SF x) as [s|[|]| |[|] m e]; simpl;
    split; congruence.
Qed.

Lemma leb_rank (x y : float) :
  (0 <=? x) = true -> (0 <=? y) = true ->
  ((x <=? y) = true <-> (rank (Prim2SF x) <= rank (Prim2SF y))%Z).
Proof.
  intros Hx Hy. rewrite FloatAxioms.leb_spec.
  apply SFleb_rank; try apply Prim2SF_valid; now apply leb_zero_nonneg.
Qed.

Lemma add_rank (x y : float) :
  (0 <=? x) = true -> (0 <=? y) = true ->
  (0 <=? x + y) = true
  /\ rank (Prim2SF (x + y)) = sumRank (rank (Prim2SF x) + rank (Prim2SF y)).
Proof.
  intros Hx Hy. rewrite leb_zero_nonneg, FloatAxioms.add_spec.
  apply SFadd_rank; try apply Prim2SF_valid; now apply leb_zero_nonneg.
Qed.

(** Adding non-negative doubles preserves the order. *)
Theorem add_le_mono (x y a b : float) :
  (0 <=? x) = true -> (0 <=? a) = true ->
  (0 <=? y) = true -> (0 <=? b) = true ->
  (x <=? y) = true -> (a <=? b) = true ->
  (x + a <=? y + b) = true.
Proof.
  intros Hx Ha Hy Hb Hxy Hab.
  destruct (add_rank x a Hx Ha) as [N1 R1].
  destruct (add_rank y b Hy Hb) as [N2 R2].
  apply leb_rank in Hxy; try assumption. apply leb_rank in Hab; try assumption.
  apply leb_rank; try assumption. rewrite R1, R2.
  pose proof (rank_range _ (Prim2SF_valid x)).
  pose proof (rank_range _ (Prim2SF_valid a)).
  apply sumRank_mono. lia.
Qed.

(** Adding a non-negative double does not make a double smaller. *)
Theorem le_add_nonneg (y a : float) :
  (0 <=? y) = true -> (0 <=? a) = true -> (y <=? y + a) = true.
Proof.
  intros Hy Ha. destruct (add_rank y a Hy Ha) as [N R].
  apply leb_rank; try assumption. rewrite R.
  pose proof (rank_range _ (Prim2SF_valid y)).
  pose proof (rank_range _ (Prim2SF_valid a)).
  rewrite <- (sumRank_rank (Prim2SF y)) at 1.
  - apply sumRank_mono. lia.
  - apply Prim2SF_valid.
  - apply leb_zero_nonneg in Hy. intros E. rewrite E in Hy. discriminate.
Qed.

Lemma leb_trans (x y z : float) :
  (0 <=? x) = true -> (0 <=? y) = true -> (0 <=? z) = true ->
  (x <=? y) = true -> (y <=? z) = true -> (x <=? z) = true.
Proof.
  intros Hx Hy Hz Hxy Hyz.
  apply leb_rank in Hxy; try assumption. apply leb_rank in Hyz; try assumption.
  apply leb_rank; try assumption. lia.
Qed.

(** On non-negative doubles, [<] is the strict order of the values. *)
Lemma ltb_rank (x y : float) :
  (0 <=? x) = true -> (0 <=? y) = true ->
  ((x <? y) = true <-> (rank (Prim2SF x) < rank (Prim2SF y))%Z).
Proof.
  intros Hx Hy. pose proof (leb_rank y x Hy Hx) as Hle.
  apply leb_zero_nonneg in Hx. apply leb_zero_nonneg in Hy.
  rewrite FloatAxioms.ltb_spec. rewrite FloatAxioms.leb_spec in Hle.
  split.
  - apply SFltb_rank; try apply Prim2SF_valid; assumption.
  - intros Hlt. unfold SFltb. unfold SFleb in Hle.
    rewrite (FloatFacts.SFcompare_flip (Prim2SF x) (Prim2SF y)) in Hle.
    destruct (Prim2SF x) as [sx|[|]| |[|] mx ex];
      destruct (Prim2SF y) as [sy|[|]| |[|] my ey]; try discriminate;
      destruct (SFcompare _ _) as [[ | | ]|] eqn:Ec; try reflexivity;
      try discriminate Ec;
      (assert (rank _ <= rank _)%Z as Hge
         by (apply Hle; reflexivity); lia).
Qed.

(** Subtracting a larger double leaves a zero or a negative double. *)
Theorem sub_lt_nonpos (x y : float) :
  (x <? y) = true -> nonpos (Prim2SF (x - y)) = true.
Proof.
  rewrite FloatAxioms.ltb_spec, FloatAxioms.sub_spec.
  apply SFsub_lt_nonpos; apply Prim2SF_valid.
Qed.

Theorem sub_gt_above (x y : float) :
  (y <? x) = true -> above_zero (Prim2SF (x - y)) = true.
Proof.
  rewrite FloatAxioms.ltb_spec, FloatAxioms.sub_spec.
  apply SFsub_gt_above; apply Prim2SF_valid.
Qed.

Lemma is_infinity_spec (x : float) :
  is_infinity x = false ->
  Prim2SF x <> S754_infinity false /\ Prim2SF x <> S754_infinity true.
Proof.
  unfold is_infinity. rewrite FloatAxioms.eqb_spec, FloatAxioms.abs_spec.
  change (Prim2SF infinity) with (S754_infinity false).
  destruct (Prim2SF x) as [s|s| |s m e]; split; discriminate.
Qed.

Theorem sub_eq_zero (x y : float) :
  (x =? y) = true -> is_infinity x = false ->
  is_a_zero (Prim2SF (x - y)) = true.
Proof.
  intros H Hi. destruct (is_infinity_spec x Hi).
  rewrite FloatAxioms.eqb_spec in H. rewrite FloatAxioms.sub_spec.
  apply SFsub_eq_zero; assumption.
Qed.

End Binary64.

(* ================================================================== *)
(** * The rounding of a quotient *)
(* ================================================================== *)

(** [Number] of a numeral with two decimals divides the integer its digits
    make by 100 ([SFdiv]).  The double that comes out is the one nearest
    to the quotient, the one with an even mantissa on a tie: this is read
    off [SFdiv] here, in the units of [Binary64]. *)

Module Division.

Import Binary64.
Local Open Scope Z_scope.
Local Unset Implicit Arguments.

(** [v / w] rounded to the nearest integer, to the even one on a tie. *)
Definition roundUpDiv (w v : Z) : bool :=
  (w <? 2 * (v mod w)) || ((w =? 2 * (v mod w)) && Z.odd (v / w)).

Definition rdiv (w v : Z) : Z := v / w + (if roundUpDiv w v then 1 else 0).

(** A shift record for the quotient of [v] by [w]: the quotient, whether
    the remainder reaches [w / 2], and whether it goes beyond. *)
Definition split (v w : Z) (mrs : shr_record) : Prop :=
  0 <= shr_m mrs
  /\ exists low,
       0 <= low < w
       /\ 2 * v = shr_m mrs * (2 * w) + (if shr_r mrs then w else 0) + low
       /\ (shr_s mrs = true <-> 0 < low).

Lemma split_location (q r : Z) :
  0 <= q -> 0 <= r < 100 ->
  split (100 * q + r) 100 (shr_record_of_loc q (new_location 100 r)).
Proof.
  intros Hq Hr. unfold new_location. change (Z.even 100) with true.
  cbv iota. unfold new_location_even.
  destruct (Z.eqb_spec r 0) as [E|E].
  - split; [exact Hq|]. exists 0. cbn [shr_record_of_loc shr_m shr_r shr_s].
    repeat split; try lia; try discriminate.
  - destruct (Z.compare_spec (2 * r) 100) as [C|C|C];
      (split; [exact Hq|]); cbn [shr_record_of_loc shr_m shr_r shr_s].
    + exists 0. repeat split; try lia; try discriminate.
    + exists (2 * r). repeat split; try lia; try discriminate.
    + exists (2 * r - 100). repeat split; try lia; try discriminate.
Qed.

Lemma split_step (v w : Z) (mrs : shr_record) :
  0 < w -> split v w mrs -> split v (2 * w) (shr_1 mrs).
Proof.
  intros Hw [Hm [low (Hl & E & Hs)]].
  destruct mrs as [q r s]. cbn [shr_m shr_r shr_s] in *.
  rewrite shr_1_nonneg by exact Hm. cbn [shr_m shr_r shr_s].
  assert (q = 2 * (q / 2) + (if Z.odd q then 1 else 0)) as Eq.
  { pose proof (Z.div_mod q 2 ltac:(lia)) as D.
    rewrite Zmod_odd in D. exact D. }
  split; [apply Z.div_pos; lia|].
  exists ((if r then w else 0) + low). cbn [shr_m shr_r shr_s].
  split; [clear Eq E; destruct r; lia|]. split.
  - clear Hs Hm.
    destruct (Z.odd q), r; set (h := q / 2) in *; clearbody h; subst q; lia.
  - destruct r, s; simpl; split; intros H; try reflexivity; try lia;
      try discriminate; try (apply Hs; reflexivity).
Qed.

Lemma split_iter (v w : Z) (mrs : shr_record) (k : nat) :
  0 < w -> split v w mrs ->
  split v (w * 2 ^ Z.of_nat k) (Nat.iter k shr_1 mrs).
Proof.
  intros Hw Hs. induction k as [|k IH].
  - change (2 ^ Z.of_nat 0) with 1. rewrite Z.mul_1_r. exact Hs.
  - rewrite Nat2Z.inj_succ, Z.pow_succ_r by lia. simpl Nat.iter.
    replace (w * (2 * 2 ^ Z.of_nat k)) with (2 * (w * 2 ^ Z.of_nat k)) by ring.
    apply split_step; [|exact IH].
    pose proof (pow2_pos (Z.of_nat k) ltac:(lia)). nia.
Qed.

(** What the rounding makes of such a record. *)
Lemma split_round (v w : Z) (mrs : shr_record) :
  0 < w -> split v w mrs ->
  round_nearest_even (shr_m mrs) (loc_of_shr_record mrs) = rdiv w v.
Proof.
  intros Hw [Hm [low (Hl & E & Hs)]].
  destruct mrs as [q r s]. cbn [shr_m shr_r shr_s] in *.
  set (rem := v - q * w).
  assert (2 * rem = (if r then w else 0) + low) as Er by (unfold rem; lia).
  assert (0 <= rem < w) as Hrem by (destruct r; lia).
  assert (v / w = q) as Eq.
  { symmetry. apply Z.div_unique with rem; [lia|unfold rem; lia]. }
  assert (v mod w = rem) as Em.
  { symmetry. apply Z.mod_unique with q; [lia|unfold rem; lia]. }
  unfold rdiv, roundUpDiv. rewrite Eq, Em.
  destruct r, s; cbn [loc_of_shr_record round_nearest_even].
  - assert (0 < low) by (apply Hs; reflexivity).
    replace (w <? 2 * rem) with true by (symmetry; apply Z.ltb_lt; lia).
    reflexivity.
  - assert (low = 0).
    { destruct (Z.eq_dec low 0); [assumption|].
      assert (false = true) by (apply Hs; lia). discriminate. }
    replace (w <? 2 * rem) with false by (symmetry; apply Z.ltb_ge; lia).
    replace (w =? 2 * rem) with true by (symmetry; apply Z.eqb_eq; lia).
    cbn [orb andb]. rewrite <- Z.negb_odd.
    destruct (Z.odd q); cbn [negb]; lia.
  - replace (w <? 2 * rem) with false by (symmetry; apply Z.ltb_ge; lia).
    assert (0 < low) by (apply Hs; reflexivity).
    replace (w =? 2 * rem) with false by (symmetry; apply Z.eqb_neq; lia).
    cbn [orb andb]. lia.
  - assert (low = 0).
    { destruct (Z.eq_dec low 0); [assumption|].
      assert (false = true) by (apply Hs; lia). discriminate. }
    replace (w <? 2 * rem) with false by (symmetry; apply Z.ltb_ge; lia).
    replace (w =? 2 * rem) with false by (symmetry; apply Z.eqb_neq; lia).
    cbn [orb andb]. lia.
Qed.

(** ** The rounded quotient is a nearest integer *)

Lemma rdiv_cases (w v : Z) :
  0 < w ->
  exists q r,
    v = q * w + r /\ 0 <= r < w /\ q = v / w
    /\ ((rdiv w v = q /\ 2 * r <= w /\ (2 * r = w -> Z.even q = true))
        \/ (rdiv w v = q + 1 /\ w <= 2 * r
            /\ (2 * r = w -> Z.even (q + 1) = true))).
Proof.
  intros Hw. exists (v / w), (v mod w).
  pose proof (Z.div_mod v w ltac:(lia)) as D.
  pose proof (Z.mod_pos_bound v w Hw) as B.
  split; [lia|]. split; [exact B|]. split; [reflexivity|].
  unfold rdiv, roundUpDiv.
  destruct (Z.ltb_spec w (2 * (v mod w))) as [L|L]; cbn [orb].
  - right. split; [reflexivity|]. split; lia.
  - destruct (Z.eqb_spec w (2 * (v mod w))) as [T|T]; cbn [andb].
    + destruct (Z.odd (v / w)) eqn:O.
      * right. split; [reflexivity|]. split; [lia|]. intros _.
        rewrite Z.even_add, <- Z.negb_odd, O. reflexivity.
      * left. split; [lia|]. split; [lia|]. intros _.
        rewrite <- Z.negb_odd, O. reflexivity.
    + left. split; [lia|]. split; lia.
Qed.

Lemma rdiv_nearest (w v j : Z) :
  0 < w -> Z.abs (rdiv w v * w - v) <= Z.abs (j * w - v).
Proof.
  intros Hw. destruct (rdiv_cases w v Hw) as (q & r & E & Hr & _ & H).
  destruct (Z.le_gt_cases j q) as [Hj|Hj].
  - assert (j * w <= q * w) by (apply Z.mul_le_mono_nonneg_r; lia).
    destruct H as [[-> [H1 _]]|[-> [H1 _]]]; lia.
  - assert ((q + 1) * w <= j * w) by (apply Z.mul_le_mono_nonneg_r; lia).
    destruct H as [[-> [H1 _]]|[-> [H1 _]]]; lia.
Qed.

Lemma rdiv_tie (w v j : Z) :
  0 < w -> j <> rdiv w v ->
  Z.abs (j * w - v) = Z.abs (rdiv w v * w - v) ->
  Z.even (rdiv w v) = true.
Proof.
  intros Hw Hne Hd. destruct (rdiv_cases w v Hw) as (q & r & E & Hr & _ & H).
  destruct (Z.le_gt_cases j q) as [Hj|Hj].
  - assert (j * w <= q * w) by (apply Z.mul_le_mono_nonneg_r; lia).
    destruct H as [[Eq [H1 Ht]]|[Eq [H1 Ht]]]; rewrite Eq in *.
    + assert (j * w <= (q - 1) * w)
        by (apply Z.mul_le_mono_nonneg_r; lia). lia.
    + apply Ht. lia.
  - assert ((q + 1) * w <= j * w) by (apply Z.mul_le_mono_nonneg_r; lia).
    destruct H as [[Eq [H1 Ht]]|[Eq [H1 Ht]]]; rewrite Eq in *.
    + apply Ht. lia.
    + assert ((q + 2) * w <= j * w)
        by (apply Z.mul_le_mono_nonneg_r; lia). lia.
Qed.

(** Below the quotient [2^52 <= v / w] the rounded quotient errs no more
    than the quotient is above [2^52]. *)
Lemma rdiv_above (w v : Z) :
  0 < w -> 2 ^ 52 * w <= v ->
  2 ^ 52 <= rdiv w v /\ Z.abs (rdiv w v * w - v) <= v - 2 ^ 52 * w.
Proof.
  intros Hw Hv. destruct (rdiv_cases w v Hw) as (q & r & E & Hr & Eq & H).
  assert (2 ^ 52 <= q) as Hq.
  { rewrite Eq. apply Z.div_le_lower_bound; lia. }
  assert (2 ^ 52 * w <= q * w) by (apply Z.mul_le_mono_nonneg_r; lia).
  destruct H as [[-> [H1 _]]|[-> [H1 _]]]; split; lia.
Qed.

(** ** What [SFdiv] computes for a quotient by 100 *)

(** The quotient and the remainder that [SFdiv] starts from: the dividend
    is shifted so that the quotient has 53 bits at least. *)
Lemma core_100 (p : positive) :
  exists sh q r,
    0 <= sh <= 60
    /\ SFdiv_core_binary prec emax (Zpos p) 0 100 0
       = (q, - sh, new_location 100 r)
    /\ Zpos p * 2 ^ sh = 100 * q + r
    /\ 0 <= r < 100
    /\ 2 ^ 52 <= q.
Proof.
  pose proof (log2_bounds (Zpos p) ltac:(lia)) as Hl.
  pose proof (Z.log2_nonneg (Zpos p)) as Hl0.
  set (L := Z.log2 (Zpos p)) in *.
  set (sh := Z.max (59 - L) 0).
  assert (0 <= sh <= 60) as Hsh by (unfold sh; lia).
  assert (2 ^ 59 <= Zpos p * 2 ^ sh) as Hv.
  { pose proof (pow2_pos sh ltac:(lia)) as Hp.
    destruct (Z.le_gt_cases L 59) as [H|H].
    - replace sh with (59 - L) in * by (unfold sh; lia).
      replace 59 with (L + (59 - L)) at 1 by lia.
      rewrite (Z.pow_add_r 2 L (59 - L)) by lia.
      apply Z.mul_le_mono_nonneg_r; lia.
    - assert (2 ^ 59 <= 2 ^ L) by (apply pow2_le; lia). nia. }
  pose proof (Z_div_mod (Zpos p * 2 ^ sh) 100 ltac:(lia)) as Hd.
  destruct (Z.div_eucl (Zpos p * 2 ^ sh) 100) as [q r] eqn:E.
  exists sh, q, r. split; [exact Hsh|]. split; [|split; [lia|split; [lia|]]].
  - unfold SFdiv_core_binary. cbn [Zdigits2].
    change (Zpos (digits2_pos 100)) with 7.
    rewrite digits2_log2, fexp_eq. fold L.
    replace (Z.min (Z.max (L + 1 + 0 - (7 + 0) - 53) (-1074)) (0 - 0))
      with (- sh) by (unfold sh; lia).
    replace (0 - 0 - - sh) with sh by lia.
    destruct sh as [|d|d] eqn:Es; try lia.
    + rewrite Z.mul_1_r in E. rewrite E. reflexivity.
    + rewrite Z.shiftl_mul_pow2 by lia. rewrite E. reflexivity.
  - change (2 ^ 59) with (128 * 2 ^ 52) in Hv.
    pose proof (pow2_pos 52 ltac:(lia)). lia.
Qed.

(** The carry of the rounding, with the parity of the mantissa. *)
Lemma carry_cases (m' e' : Z) :
  2 ^ 52 <= m' <= 2 ^ 53 -> -1074 <= e' ->
  exists m'' e'',
    shr_fexp prec emax m' e' loc_Exact
    = ({| shr_m := Zpos m''; shr_r := false; shr_s := false |}, e'')
    /\ 2 ^ 52 <= Zpos m'' < 2 ^ 53
    /\ -1074 <= e'' <= e' + 1
    /\ units m'' e'' = m' * 2 ^ (e' + 1074)
    /\ (Z.even m' = true -> Z.even (Zpos m'') = true).
Proof.
  intros Hm He.
  destruct m' as [|p|p]; try (pose proof (pow2_pos 52); lia).
  unfold shr_fexp. cbn [Zdigits2 shr_record_of_loc].
  rewrite digits2_log2, fexp_eq.
  destruct (Z.eq_dec (Zpos p) (2 ^ 53)) as [E|E].
  - rewrite E. rewrite Z.log2_pow2 by lia.
    replace (Z.max (53 + 1 + e' - 53) (-1074) - e') with 1 by lia.
    cbn [shr iter_pos]. rewrite shr_1_nonneg by lia.
    change (2 ^ 53 / 2) with (Zpos (2 ^ 52)).
    exists (2 ^ 52)%positive, (e' + 1). split; [reflexivity|].
    split; [split; [reflexivity|reflexivity]|].
    split; [lia|]. split; [|reflexivity]. unfold units.
    replace (e' + 1 + 1074) with (1 + (e' + 1074)) by lia.
    rewrite Z.pow_add_r by lia. change (Z.pos (2 ^ 52)) with (2 ^ 52).
    change (2 ^ 1) with 2. change (2 ^ 53) with (2 ^ 52 * 2). ring.
  - assert (Z.log2 (Zpos p) = 52) as El.
    { apply Z.log2_unique; [lia|]. change (Z.succ 52) with 53. lia. }
    rewrite El.
    replace (Z.max (52 + 1 + e' - 53) (-1074) - e') with 0 by lia.
    cbn [shr]. exists p, e'. split; [reflexivity|].
    split; [lia|]. split; [lia|]. split; [reflexivity|auto].
Qed.

(** The quotient of [p] by 100, as [SFdiv] rounds it: a mantissa of 53
    bits on the grid [2^g], the rounded quotient of two integers [v] and
    [w] with [v / w = p * 2^1074 / (100 * 2^g)]. *)
Lemma SFdiv_100 (s : bool) (p : positive) :
  exists (m : positive) (e g w v c : Z),
    SFdiv prec emax (S754_finite s p 0) (S754_finite false 100 0)
    = finish s m e
    /\ 2 ^ 52 <= Zpos m < 2 ^ 53
    /\ -1074 <= e <= Z.log2 (Zpos p) - 51
    /\ 0 < w /\ 0 < c /\ 0 <= g
    /\ c * w = 100 * 2 ^ g
    /\ c * v = Zpos p * 2 ^ 1074
    /\ 2 ^ 52 * w <= v
    /\ units m e = rdiv w v * 2 ^ g
    /\ (Z.even (rdiv w v) = true -> Z.even (Zpos m) = true).
Proof.
  destruct (core_100 p) as (sh & q & r & Hsh & Hcore & Hv & Hr & Hq).
  pose proof (log2_bounds q ltac:(pose proof (pow2_pos 52); lia)) as Hlq.
  assert (52 <= Z.log2 q) as Hl52 by (apply Z.log2_le_pow2; lia).
  set (k := Z.log2 q - 52).
  assert (0 <= k) as Hk by (unfold k; lia).
  pose proof (pow2_pos k Hk) as Hpk.
  pose proof (pow2_pos sh ltac:(lia)) as Hpsh.
  set (v := Zpos p * 2 ^ sh) in *.
  set (w := 100 * 2 ^ k).
  assert (0 < w) as Hw by (unfold w; lia).
  assert (2 ^ (52 + k) <= q < 2 ^ (53 + k)) as Hqk.
  { unfold k. replace (52 + (Z.log2 q - 52)) with (Z.log2 q) by lia.
    replace (53 + (Z.log2 q - 52)) with (Z.log2 q + 1) by lia. exact Hlq. }
  rewrite !Z.pow_add_r in Hqk by lia.
  assert (2 ^ 52 * w <= v) as Hvw by (unfold w; nia).
  assert (v / w = q / 2 ^ k) as Hdiv.
  { unfold w. rewrite <- Z.div_div by lia. f_equal.
    symmetry. apply Z.div_unique with r; lia. }
  destruct (rdiv_above w v Hw Hvw) as [Hlow _].
  assert (rdiv w v <= 2 ^ 53) as Hhigh.
  { unfold rdiv. rewrite Hdiv.
    assert (q / 2 ^ k < 2 ^ 53) by (apply Z.div_lt_upper_bound; lia).
    destruct (roundUpDiv w v); lia. }
  assert (round_nearest_even
            (shr_m (fst (shr_fexp prec emax q (- sh) (new_location 100 r))))
            (loc_of_shr_record
               (fst (shr_fexp prec emax q (- sh) (new_location 100 r))))
          = rdiv w v
          /\ snd (shr_fexp prec emax q (- sh) (new_location 100 r))
             = - sh + k) as [Hround Hexp].
  { pose proof (split_location q r ltac:(lia) Hr) as Hs0.
    replace (100 * q + r) with v in Hs0 by lia.
    unfold shr_fexp. destruct q as [|qp|qp]; try lia.
    cbn [Zdigits2]. rewrite digits2_log2, fexp_eq.
    replace (Z.max (Z.log2 (Zpos qp) + 1 + - sh - 53) (-1074) - - sh)
      with k by (unfold k; lia).
    destruct k as [|kp|kp] eqn:Ek; try lia.
    - cbn [shr fst snd]. split; [|lia].
      rewrite (split_round v 100 _ ltac:(lia) Hs0).
      unfold w. change (2 ^ 0) with 1. rewrite Z.mul_1_r. reflexivity.
    - cbn [shr fst snd]. split; [|reflexivity].
      rewrite iter_pos_nat.
      pose proof (split_iter v 100 _ (Pos.to_nat kp) ltac:(lia) Hs0) as Hs.
      rewrite positive_nat_Z in Hs.
      apply (split_round v (100 * 2 ^ Zpos kp) _ Hw Hs). }
  destruct (carry_cases (rdiv w v) (- sh + k) ltac:(lia) ltac:(lia))
    as (m & e & Hc & Hm & He & Hu & Heven).
  exists m, e, (- sh + k + 1074), w, v, (2 ^ (1074 - sh)).
  pose proof (pow2_pos (1074 - sh) ltac:(lia)) as Hpc.
  split; [|split; [exact Hm|split; [|split; [exact Hw|split; [exact Hpc|
          split; [lia|split; [|split; [|split; [exact Hvw|
          split; [exact Hu|exact Heven]]]]]]]]]].
  - unfold SFdiv. rewrite Hcore. unfold binary_round_aux.
    destruct (shr_fexp prec emax q (- sh) (new_location 100 r))
      as [mrs' e1] eqn:E1.
    cbn [fst snd] in Hround, Hexp. rewrite Hround, Hexp, Hc.
    cbn [shr_m]. rewrite xorb_false_r. reflexivity.
  - split; [lia|].
    assert (Z.log2 q <= Z.log2 v) as Hlv.
    { apply Z.log2_le_mono. lia. }
    unfold v in Hlv. rewrite Z.log2_mul_pow2 in Hlv by lia.
    unfold k in He. lia.
  - unfold w.
    replace (- sh + k + 1074) with ((1074 - sh) + k) by lia.
    rewrite (Z.pow_add_r 2 (1074 - sh) k) by lia. ring.
  - unfold v. replace 1074 with ((1074 - sh) + sh) at 2 by lia.
    rewrite (Z.pow_add_r 2 (1074 - sh) sh) by lia. ring.
Qed.

(** ** The nearest double *)

(** The double [m * 2^e] is nearest to [n / 100] among the values
    [m' * 2^e'] of mantissas below [2^53] and exponents from [-1074]
    (every finite double is one), and has an even mantissa when another
    is as near.  All in units of [2^-1074], times 100. *)
Definition nearest (n : Z) (m : positive) (e : Z) : Prop :=
  forall (m' : positive) (e' : Z),
    Zpos m' < 2 ^ 53 -> -1074 <= e' ->
    Z.abs (100 * units m e - n * 2 ^ 1074)
    <= Z.abs (100 * units m' e' - n * 2 ^ 1074)
    /\ (units m' e' <> units m e ->
        Z.abs (100 * units m' e' - n * 2 ^ 1074)
        = Z.abs (100 * units m e - n * 2 ^ 1074) ->
        Z.even (Zpos m) = true).

Lemma nearest_rdiv (n : Z) (m : positive) (e g w v c : Z) :
  0 < w -> 0 < c -> 0 <= g ->
  c * w = 100 * 2 ^ g ->
  c * v = n * 2 ^ 1074 ->
  2 ^ 52 * w <= v ->
  units m e = rdiv w v * 2 ^ g ->
  (Z.even (rdiv w v) = true -> Z.even (Zpos m) = true) ->
  nearest n m e.
Proof.
  intros Hw Hc Hg Hcw Hcv Hvw Hu Heven m' e' Hm' He'.
  pose proof (pow2_pos g Hg) as Hpg.
  set (m1 := rdiv w v) in *.
  assert (100 * units m e - n * 2 ^ 1074 = c * (m1 * w - v)) as E1.
  { rewrite Hu, <- Hcv.
    replace (100 * (m1 * 2 ^ g)) with (m1 * (100 * 2 ^ g)) by ring.
    rewrite <- Hcw. ring. }
  rewrite E1, Z.abs_mul, (Z.abs_eq c) by lia.
  destruct (rdiv_above w v Hw Hvw) as [_ Habove]. fold m1 in Habove.
  set (a := e' + 1074). assert (0 <= a) as Ha by (unfold a; lia).
  pose proof (pow2_pos a Ha) as Hpa.
  destruct (Z.le_gt_cases g a) as [Hga|Hga].
  - (* a value on the grid *)
    set (j := Zpos m' * 2 ^ (a - g)).
    assert (units m' e' = j * 2 ^ g) as Ej.
    { unfold units, j. fold a. replace a with ((a - g) + g) at 1 by lia.
      rewrite (Z.pow_add_r 2 (a - g) g) by lia. ring. }
    assert (100 * units m' e' - n * 2 ^ 1074 = c * (j * w - v)) as E2.
    { rewrite Ej, <- Hcv.
      replace (100 * (j * 2 ^ g)) with (j * (100 * 2 ^ g)) by ring.
      rewrite <- Hcw. ring. }
    rewrite E2, Z.abs_mul, (Z.abs_eq c) by lia.
    split.
    + apply Z.mul_le_mono_nonneg_l; [lia|]. apply rdiv_nearest, Hw.
    + intros Hne Hd. apply Heven.
      apply (rdiv_tie w v j Hw).
      * intros Ejm. apply Hne. rewrite Ej, Hu. fold m1. rewrite Ejm.
        reflexivity.
      * fold m1. apply (Z.mul_reg_l _ _ c); [lia|exact Hd].
  - (* a value below the grid: below [2^52] grid steps *)
    assert (2 * units m' e' < 2 ^ 53 * 2 ^ g) as Hy.
    { unfold units. fold a.
      assert (2 * 2 ^ a <= 2 ^ g) as Hp.
      { replace (2 * 2 ^ a) with (2 ^ (a + 1))
          by (rewrite Z.pow_add_r by lia; change (2 ^ 1) with 2; ring).
        apply pow2_le. lia. }
      pose proof (pow2_pos 53 ltac:(lia)). nia. }
    change (2 ^ 53) with (2 * 2 ^ 52) in Hy.
    assert (100 * units m' e' < c * (2 ^ 52 * w)) as Hy'.
    { replace (c * (2 ^ 52 * w)) with (2 ^ 52 * (c * w)) by ring.
      rewrite Hcw. lia. }
    assert (c * (2 ^ 52 * w) <= c * v) as Hcvw
      by (apply Z.mul_le_mono_nonneg_l; lia).
    assert (c * Z.abs (m1 * w - v) <= c * (v - 2 ^ 52 * w)) as Hce
      by (apply Z.mul_le_mono_nonneg_l; lia).
    replace (c * (v - 2 ^ 52 * w)) with (c * v - c * (2 ^ 52 * w)) in Hce
      by ring.
    rewrite <- Hcv.
    clear - Hy' Hcvw Hce.
    set (A := c * (2 ^ 52 * w)) in *. set (B := c * v) in *.
    set (D := c * Z.abs (m1 * w - v)) in *. set (Y := 100 * units m' e') in *.
    clearbody A B D Y.
    assert (D < Z.abs (Y - B)) as Hstrict by lia.
    split; [lia|]. intros _ Hd. lia.
Qed.

End Division.
(* ================================================================== *)
(** * The limit evaluator *)
(* ================================================================== *)

Module LimitFacts.

Import Dashboard FloatFacts.
Local Open Scope float_scope.

(** [Math.max(0, y)] by the shape of [y]. *)
Lemma Math_max_0 (y : float) :
  JS.Math_max 0 y =
  match Prim2SF y with
  | S754_nan => nan
  | S754_zero _ => 0
  | S754_infinity s | S754_finite s _ _ => if s then 0 else y
  end.
Proof.
  unfold JS.Math_max.
  change (is_nan 0) with false. change (get_sign 0) with false. simpl orb.
  destruct (is_nan y) eqn:Hn.
  - apply is_nan_spec in Hn. rewrite Hn. reflexivity.
  - assert (Prim2SF y <> S754_nan) as Hy
      by (intros E; apply is_nan_spec in E; congruence).
    rewrite !FloatAxioms.ltb_spec. change (Prim2SF 0) with (S754_zero false).
    destruct (Prim2SF y) as [s|s| |s m e]; try congruence;
      destruct s; reflexivity.
Qed.

Lemma Math_max_0_not_negative (y : float) : (JS.Math_max 0 y <? 0) = false.
Proof.
  rewrite Math_max_0.
  destruct (Prim2SF y) as [s|s| |s m e] eqn:E; try reflexivity;
    destruct s; try reflexivity;
    rewrite FloatAxioms.ltb_spec, E; reflexivity.
Qed.

(** A limit of [-0] is replaced by [+0] by [|| 0]; the remaining amount
    is the same. *)
Lemma Math_max_0_sub_zeros (t : float) :
  JS.Math_max 0 (0 - t) = JS.Math_max 0 (neg_zero - t).
Proof.
  rewrite !Math_max_0.
  assert (Prim2SF (0 - t) = SF64sub (S754_zero false) (Prim2SF t)) as E1
    by apply FloatAxioms.sub_spec.
  assert (Prim2SF (neg_zero - t) = SF64sub (S754_zero true) (Prim2SF t)) as E2
    by apply FloatAxioms.sub_spec.
  destruct (Prim2SF t) as [s|s| |s m e]; unfold SF64sub, SFsub in E1, E2.
  - destruct s; rewrite E1, E2; reflexivity.
  - rewrite (Prim2SF_inj (0 - t) (neg_zero - t)) by congruence. reflexivity.
  - rewrite E1, E2. reflexivity.
  - rewrite (Prim2SF_inj (0 - t) (neg_zero - t)) by congruence. reflexivity.
Qed.

(** With no limit, nothing remains as soon as the day's total is a
    non-negative number. *)
Lemma Math_max_0_sub_nonneg (t : float) :
  (0 <=? t) = true -> JS.Math_max 0 (0 - t) = 0.
Proof.
  rewrite FloatAxioms.leb_spec. change (Prim2SF 0) with (S754_zero false).
  intros Ht. rewrite Math_max_0.
  assert (Prim2SF (0 - t) = SF64sub (S754_zero false) (Prim2SF t)) as E
    by apply FloatAxioms.sub_spec.
  destruct (Prim2SF t) as [s|s| |s m e]; unfold SF64sub, SFsub in E;
    simpl in Ht; rewrite E; try discriminate;
    destruct s; try discriminate; reflexivity.
Qed.

(** When the total is over the limit, nothing remains. *)
Lemma Math_max_0_sub_lt (limit t : float) :
  (limit <? t) = true -> JS.Math_max 0 (limit - t) = 0.
Proof.
  intros H. apply Binary64.sub_lt_nonpos in H. rewrite Math_max_0.
  destruct (Prim2SF (limit - t)) as [s|[|]| |[|] m e]; try discriminate H;
    reflexivity.
Qed.

(** A positive difference is kept as it is, and a zero is [0]. *)
Lemma Math_max_0_above (y : float) :
  Binary64.above_zero (Prim2SF y) = true ->
  JS.Math_max 0 y = y /\ (0 <? y) = true.
Proof.
  intros H. rewrite Math_max_0, FloatAxioms.ltb_spec.
  change (Prim2SF 0) with (S754_zero false).
  destruct (Prim2SF y) as [s|[|]| |[|] m e]; try discriminate H;
    split; reflexivity.
Qed.

Lemma Math_max_0_zero (y : float) :
  Binary64.is_a_zero (Prim2SF y) = true -> JS.Math_max 0 y = 0.
Proof.
  intros H. rewrite Math_max_0.
  destruct (Prim2SF y) as [s|s| |s m e]; try discriminate H. reflexivity.
Qed.

Lemma or_zero_limit (p : Profile) :
  is_nan (daily_limit p) = false ->
  or_zero (option_map daily_limit (Some p)) = daily_limit p
  \/ (or_zero (option_map daily_limit (Some p)) = 0
      /\ daily_limit p = neg_zero).
Proof.
  intros Hn. simpl. unfold JS.falsy. rewrite Hn, orb_false_r.
  destruct (is_zero (daily_limit p)) eqn:Hz; [|now left].
  apply is_zero_spec in Hz. destruct Hz as [s Hz].
  apply zero_cases in Hz. destruct s; [right|left]; auto.
Qed.

End LimitFacts.

Module LimitClaims.

Import Dashboard FloatFacts LimitFacts.
Local Open Scope float_scope.

(** C2: with a profile loaded, the limit is exceeded exactly when today's
    total compares greater than the daily limit; a total equal to the
    limit does not exceed it.  For a non-negative total and limit, greater
    is the strict order of the two values (here counted in units of
    [2^-1074]). *)
Theorem isOverLimit_strict (p : Profile) (t : float) :
  (truthy (isOverLimit (Some p) t) = true <-> (t ?= daily_limit p) = FGt)
  /\ ((t =? daily_limit p) = true -> truthy (isOverLimit (Some p) t) = false)
  /\ truthy (isOverLimit (Some p) (daily_limit p)) = false
  /\ ((0 <=? t) = true -> (0 <=? daily_limit p) = true ->
      (truthy (isOverLimit (Some p) t) = true
       <-> (Binary64.rank (Prim2SF (daily_limit p))
            < Binary64.rank (Prim2SF t))%Z)).
Proof.
  simpl. split; [apply ltb_gt|]. split; [apply eqb_not_ltb|].
  split; [apply ltb_irrefl|].
  intros Ht Hl. apply Binary64.ltb_rank; assumption.
Qed.

Definition limit150 : Profile := {| daily_limit := 150; full_name := "" |}.

Example evaluate_100_150 : truthy (isOverLimit (Some limit150) 100) = false.
Proof. reflexivity. Qed.

Example evaluate_150_150 : truthy (isOverLimit (Some limit150) 150) = false.
Proof. reflexivity. Qed.

Example evaluate_150_01_150 :
  truthy (isOverLimit (Some limit150) 150.01) = true.
Proof. reflexivity. Qed.

(** The scenario of the specification: a limit of 20 and a total of 25
    show the alert with "20.00" and "25.00". *)
Example alert_20_25 :
  let v := render (steady "2024-01-02T10:15:00.000Z")
             {| profile := Some {| daily_limit := 20; full_name := "" |};
                expenses := []; todayTotal := 25 |} in
  option_map (fun a => (option_map JS.text (alertLimit a), JS.text (alertToday a)))
             (alert v)
  = Some (Some (Some "20.00"), Some "25.00").
Proof. reflexivity. Qed.

(** C3, refuted: with no profile and a total of 5, the remaining amount is
    the number [Math.max(0, 0 - 5)], shown as "0.00" beside a limit of
    "0.00": a limit of zero was substituted, nothing signals "unknown". *)
Lemma remaining_without_profile_is_a_number :
  let v := render (steady "2024-01-02T10:15:00.000Z")
             {| profile := None; expenses := []; todayTotal := 5 |} in
  remaining None 5 = JS.Math_max 0 (0 - 5)
  /\ JS.text (remainingText v) = Some "0.00"
  /\ JS.text (dailyLimitText v) = Some "0.00".
Proof. repeat split; reflexivity. Qed.

(** C3, amended: when no profile is loaded the remaining amount is
    computed with a limit of zero, as [max(0, 0 - todayTotal)], which is 0
    for every non-negative total, and the limit is shown as "0.00"; only
    the exceeded signal is withheld (it is [null]). *)
Theorem remaining_defaults_to_zero_limit (t : float) :
  remaining None t = JS.Math_max 0 (0 - t)
  /\ ((0 <=? t) = true -> remaining None t = 0)
  /\ JS.text (limitText None) = Some "0.00"
  /\ isOverLimit None t = None.
Proof.
  repeat split. apply Math_max_0_sub_nonneg.
Qed.

(** C4: for a daily limit that is a number, the remaining amount is
    [max(0, limit - todayTotal)]: while the total is below the limit it is
    the difference [limit - todayTotal] itself, which is positive; when
    the total equals a finite limit it is zero; and when the limit is
    exceeded it is zero, the floor.  Whatever the profile and the total,
    it is never below zero. *)
Theorem remaining_is_floored_difference (p : Profile) (t : float) :
  is_nan (daily_limit p) = false ->
  remaining (Some p) t = JS.Math_max 0 (daily_limit p - t)
  /\ (forall profile, (remaining profile t <? 0) = false)
  /\ (truthy (isOverLimit (Some p) t) = true -> remaining (Some p) t = 0)
  /\ ((t <? daily_limit p) = true ->
      remaining (Some p) t = daily_limit p - t
      /\ (0 <? remaining (Some p) t) = true)
  /\ ((daily_limit p =? t) = true -> is_infinity (daily_limit p) = false ->
      remaining (Some p) t = 0).
Proof.
  intros Hn.
  assert (remaining (Some p) t = JS.Math_max 0 (daily_limit p - t)) as E.
  { unfold remaining.
    destruct (or_zero_limit p Hn) as [E|[E Hz]]; rewrite E.
    - reflexivity.
    - rewrite Hz. apply Math_max_0_sub_zeros. }
  split; [exact E|]. split; [|split; [|split]].
  - intros profile. apply Math_max_0_not_negative.
  - simpl. intros Hover. rewrite E. apply Math_max_0_sub_lt. exact Hover.
  - intros Hbelow. rewrite E.
    destruct (Math_max_0_above (daily_limit p - t)
                (Binary64.sub_gt_above _ _ Hbelow)) as [-> Hpos].
    split; [reflexivity|exact Hpos].
  - intros Heq Hfin. rewrite E.
    apply Math_max_0_zero, Binary64.sub_eq_zero; assumption.
Qed.

(** A limit of 150 and a total of 100: 50 remain. *)
Lemma remaining_is_floored_difference_witness :
  remaining (Some limit150) 100 = JS.Math_max 0 (daily_limit limit150 - 100)
  /\ (forall profile, (remaining profile 100 <? 0) = false)
  /\ (truthy (isOverLimit (Some limit150) 100) = true
      -> remaining (Some limit150) 100 = 0)
  /\ ((100 <? daily_limit limit150) = true ->
      remaining (Some limit150) 100 = daily_limit limit150 - 100
      /\ (0 <? remaining (Some limit150) 100) = true)
  /\ ((daily_limit limit150 =? 100) = true ->
      is_infinity (daily_limit limit150) = false ->
      remaining (Some limit150) 100 = 0).
Proof.
  apply (@remaining_is_floored_difference limit150 100). reflexivity.
Defined.

(** The three cases on a limit of 150: a total of 100 leaves 50, a total
    of 150 leaves nothing, and so does a total of 200. *)
Example evaluate_100_150_remaining :
  remaining (Some limit150) 100 = 50
  /\ JS.text (JS.toFixed2 (remaining (Some limit150) 100)) = Some "50.00".
Proof. split; reflexivity. Qed.

Example evaluate_150_150_remaining : remaining (Some limit150) 150 = 0.
Proof. reflexivity. Qed.

Example evaluate_200_150_remaining : remaining (Some limit150) 200 = 0.
Proof. reflexivity. Qed.

(** C5: while the profile has not been loaded the exceeded signal is
    never true, whatever the expenses and today's total, and no render
    shows the alert. *)
Theorem no_alert_without_profile
    (es : list (Expense float)) (t : float) (clock : Clock) :
  truthy (isOverLimit None t) = false
  /\ alert (render clock {| profile := None; expenses := es; todayTotal := t |})
     = None
  /\ forall now, alert (displayPass now clock
                   {| profile := None; expenses := es; todayTotal := t |})
     = None.
Proof. repeat split. Qed.

End LimitClaims.

(* ================================================================== *)
(** * The notion of today within one display pass *)
(* ================================================================== *)

Module CountFacts.

Import Dashboard.
Local Unset Implicit Arguments.

(** While every reading is on the date [today], the count is the one
    against [today]. *)
Lemma countedToday_same_date
    (clock : Clock) (today : string) (es : list (Expense float)) (i : nat) :
  (forall j, (j < List.length es)%nat -> isoDate (clock (i + j)%nat) = today) ->
  countedToday clock i es = todayExpenses es today.
Proof.
  revert i. induction es as [|e es IH]; intros i Hclock; [reflexivity|].
  cbn [countedToday todayExpenses filter].
  assert (isoDate (clock i) = today) as ->.
  { rewrite <- (Hclock 0%nat); [|simpl; lia]. rewrite Nat.add_0_r. reflexivity. }
  assert (countedToday clock (S i) es = todayExpenses es today) as ->.
  { apply IH. intros j Hj. rewrite <- (Hclock (S j)); [|simpl; lia].
    rewrite Nat.add_succ_r. reflexivity. }
  reflexivity.
Qed.

End CountFacts.

Module TodayClaims.

Import Dashboard.
Local Open Scope float_scope.

(** The today total and the today count of a view are computed against
    the one date [today]. *)
Definition sameToday (es : list (Expense float)) (v : View) (today : string)
  : Prop :=
  todayText v = JS.toFixed2 (todayTotalOn es today)
  /\ todayCount v = List.length (todayExpenses es today).

Definition lunch : Expense float :=
  {| id := "e1"; category := "Food"; amount := 5; description := "";
     date := "2024-01-01" |}.

Definition dinner : Expense float :=
  {| id := "e2"; category := "Food"; amount := 7; description := "";
     date := "2024-01-02" |}.

(** A render that begins just before midnight: the first reading of the
    clock falls on the first of January, the later ones on the second. *)
Definition overMidnight : Clock :=
  fun i => match i with
           | O => "2024-01-01T23:59:59.999Z"
           | _ => "2024-01-02T00:00:00.001Z"
           end.

(** C7, refuted: a lunch on the first of January and a dinner on the
    second.  The total is computed by a clock reading just before
    midnight, and the count reads the clock once per expense, before
    midnight for the lunch and after it for the dinner: the pass shows
    "5.00" with 2 transactions beside a grand total of "12.00", which no
    single date explains. *)
Lemma two_clock_readings_disagree :
  let st := {| profile := None; expenses := [lunch; dinner]; todayTotal := 0 |} in
  let v := displayPass "2024-01-01T23:59:59.999Z" overMidnight st in
  JS.text (todayText v) = Some "5.00" /\ todayCount v = 2%nat
  /\ JS.text (totalText v) = Some "12.00"
  /\ ~ exists today, sameToday [lunch; dinner] v today.
Proof.
  cbv zeta. split; [reflexivity|]. split; [reflexivity|].
  split; [reflexivity|].
  intros [today [_ Hcount]].
  assert (todayExpenses [lunch; dinner] today
          = (if String.eqb "2024-01-01" today then [lunch] else [])
            ++ (if String.eqb "2024-01-02" today then [dinner] else []))%list
    as E.
  { unfold todayExpenses. cbn [filter date lunch dinner].
    destruct (String.eqb "2024-01-01" today),
             (String.eqb "2024-01-02" today); reflexivity. }
  rewrite E in Hcount.
  destruct (String.eqb "2024-01-01" today) eqn:E1.
  - apply String.eqb_eq in E1. subst today.
    vm_compute in Hcount. discriminate Hcount.
  - destruct (String.eqb "2024-01-02" today);
      vm_compute in Hcount; discriminate Hcount.
Qed.

(** C7, amended: today is read from the clock once inside
    [calculateTodayTotal] and once per expense inside the transaction
    count; whenever all these readings fall on the same date, the total
    and the count of the pass are computed against that date. *)
Theorem same_date_same_today
    (st : State) (now : string) (clock : Clock) :
  (forall i, (i < List.length (expenses st))%nat ->
             isoDate (clock i) = isoDate now) ->
  sameToday (expenses st) (displayPass now clock st) (isoDate now).
Proof.
  intros Hclock. unfold sameToday, displayPass, render, calculateTodayTotal.
  cbn [todayText todayCount expenses todayTotal].
  rewrite (CountFacts.countedToday_same_date clock (isoDate now) (expenses st) 0 Hclock).
  split; reflexivity.
Qed.

(** The effect at eight in the morning, the readings of the render twenty
    milliseconds later. *)
Lemma same_date_same_today_witness :
  sameToday [lunch; dinner]
    (displayPass "2024-01-01T08:00:00.000Z" (steady "2024-01-01T08:00:00.020Z")
       {| profile := None; expenses := [lunch; dinner]; todayTotal := 0 |})
    "2024-01-01".
Proof.
  apply (@same_date_same_today
           {| profile := None; expenses := [lunch; dinner]; todayTotal := 0 |}
           "2024-01-01T08:00:00.000Z" (steady "2024-01-01T08:00:00.020Z")).
  intros i _. reflexivity.
Defined.

End TodayClaims.
(* ================================================================== *)
(** * Validation and the inserted row *)
(* ================================================================== *)

Module FormClaims.

Import ExpenseForm.
Local Open Scope float_scope.

(** What [handleSubmit] gives to [expenseSchema.parse]. *)
Definition input (parseFloat : string -> float) (f : Fields) : Input :=
  {| in_category := category f;
     in_amount := parseFloat (amount f);
     in_description := description f;
     in_date := date f |}.

Lemma no_issue_no_insert parseFloat user insertError (f : Fields) :
  expenseSchema (input parseFloat f) <> [] ->
  inserted parseFloat user insertError f = [].
Proof.
  intros Hne. unfold inserted, handleSubmit, parse. fold (input parseFloat f).
  destruct (expenseSchema (input parseFloat f)); [congruence|reflexivity].
Qed.

(** The fields of a submission that passes every check. *)
Definition wellFormed (parseFloat : string -> float) (f : Fields) : Prop :=
  category f <> ""
  /\ (0 <? parseFloat (amount f)) = true
  /\ (String.length (description f) <= 500)%nat
  /\ date f <> "".

Lemma expenseSchema_accepts parseFloat (f : Fields) :
  expenseSchema (input parseFloat f) = [] <-> wellFormed parseFloat f.
Proof.
  unfold expenseSchema, wellFormed, input; simpl.
  destruct (category f) as [|c cs] eqn:Ec; simpl.
  { split; [discriminate|]. intros [H _]. congruence. }
  destruct (is_nan (parseFloat (amount f))) eqn:Hn; simpl.
  { split; [discriminate|]. intros (_ & Hp & _).
    apply FloatFacts.is_nan_spec in Hn.
    rewrite FloatAxioms.ltb_spec, Hn in Hp. simpl in Hp.
    change (Prim2SF 0) with (S754_zero false) in Hp. discriminate. }
  destruct (0 <? parseFloat (amount f)) eqn:Hp; simpl.
  2: { split; [discriminate|]. intros (_ & Hp' & _). discriminate. }
  destruct (String.length (description f) <=? 500)%nat eqn:Hd; simpl.
  2: { split; [discriminate|]. intros (_ & _ & Hd' & _).
       apply Nat.leb_gt in Hd. lia. }
  apply Nat.leb_le in Hd.
  destruct (date f) as [|d ds] eqn:Ed; simpl.
  { split; [discriminate|]. intros (_ & _ & _ & H). congruence. }
  split; [|reflexivity]. intros _. repeat split; auto; discriminate.
Qed.

(** [parseFloat] on the one text the examples type into the amount field. *)
Definition parseFloat5 (s : string) : float :=
  if String.eqb s "5" then 5 else nan.

(** [handleSubmit] itself sends no row when a check of the schema fails,
    and shows the message of the first issue. *)
Lemma handleSubmit_rejects
    parseFloat user insertError (f : Fields) :
  category f = ""
  \/ (0 <? parseFloat (amount f)) = false
  \/ (500 < String.length (description f))%nat
  \/ date f = "" ->
  inserted parseFloat user insertError f = []
  /\ exists i, handleSubmit parseFloat user insertError f
       = [ PreventDefault; Toast "Validation Error" (message i) true;
           SetLoading false ].
Proof.
  intros Hbad.
  assert (expenseSchema (input parseFloat f) <> []) as Hne.
  { intros Hok. apply expenseSchema_accepts in Hok.
    destruct Hok as (Hc & Hp & Hd & Ht).
    destruct Hbad as [H|[H|[H|H]]]; try congruence; lia. }
  split; [now apply no_issue_no_insert|].
  unfold handleSubmit, parse. fold (input parseFloat f).
  destruct (expenseSchema (input parseFloat f)) as [|i errors];
    [congruence|].
  exists i. reflexivity.
Qed.

(** The order of dates is transitive. *)
Lemma dateLe_trans (a b c : N * N * N) :
  dateLe a b = true -> dateLe b c = true -> dateLe a c = true.
Proof.
  destruct a as [[y1 m1] d1], b as [[y2 m2] d2], c as [[y3 m3] d3].
  unfold dateLe.
  repeat rewrite ?orb_true_iff, ?andb_true_iff, ?N.ltb_lt, ?N.eqb_eq, ?N.leb_le.
  lia.
Qed.

(** Some dates and texts, as the date input reads them. *)
Example parseDate_samples :
  map parseDate
      [ "2024-01-02"; "2024-02-29"; "2023-02-29"; "12024-12-31"; "2024-13-01";
        "024-01-02"; "2024-1-2"; ""; "2024-01-02T10:15:00.000Z";
        "+010000-01-01" ]
  = [ Some (2024, 1, 2); Some (2024, 2, 29); None; Some (12024, 12, 31); None;
      None; None; None; None; None ]%N.
Proof. reflexivity. Qed.

(** C8: a press of the submit button sends no row to storage when the
    category is empty, the amount is not a positive number, the
    description exceeds 500 characters, or the date is empty or after the
    current date.  The first four are refused by [expenseSchema] inside
    [handleSubmit]; a date after today never reaches [handleSubmit],
    because the browser finds the date input beyond its [max], the date of
    the last render, which is not after the current date.  [current] is
    the clock reading at the press of the button. *)
Theorem invalid_submission_not_inserted
    parseFloat user insertError otherControlsValid
    (now current : string) (rendered today : N * N * N) (f : Fields) :
  parseDate (isoDate now) = Some rendered ->
  parseDate (isoDate current) = Some today ->
  dateLe rendered today = true ->
  category f = ""
  \/ (0 <? parseFloat (amount f)) = false
  \/ (500 < String.length (description f))%nat
  \/ date f = ""
  \/ (exists d, parseDate (date f) = Some d /\ dateLe d today = false) ->
  formInserted parseFloat user insertError otherControlsValid now f = []
  /\ (formSubmit parseFloat user insertError otherControlsValid now f = []
      \/ exists i,
           formSubmit parseFloat user insertError otherControlsValid now f
           = [ PreventDefault; Toast "Validation Error" (message i) true;
               SetLoading false ]).
Proof.
  intros Hrendered Htoday Hclock Hbad.
  unfold formInserted, formSubmit.
  destruct (otherControlsValid f && dateInputValid (dateMax now) (date f))
    eqn:Hgate; [|split; [reflexivity|left; reflexivity]].
  apply andb_true_iff in Hgate. destruct Hgate as [_ Hdate].
  assert (category f = ""
          \/ (0 <? parseFloat (amount f)) = false
          \/ (500 < String.length (description f))%nat
          \/ date f = "") as Hschema.
  { destruct Hbad as [H|[H|[H|[H|[d [Hd Hafter]]]]]]; auto.
    exfalso. unfold dateInputValid, dateMax in Hdate.
    rewrite Hd, Hrendered in Hdate.
    rewrite (dateLe_trans d rendered today Hdate Hclock) in Hafter.
    discriminate Hafter. }
  destruct (@handleSubmit_rejects parseFloat user insertError f Hschema)
    as [Hnone [i Hi]].
  split; [exact Hnone|right; exists i; exact Hi].
Qed.

(** Rendered on the second of January 2024 and submitted a moment later,
    with a date at the end of the year 2999. *)
Lemma invalid_submission_not_inserted_witness :
  let f := {| category := "Food"; amount := "5"; description := "";
              date := "2999-12-31" |} in
  let now := "2024-01-02T10:15:00.000Z" in
  formInserted parseFloat5 (Some "u1") (fun _ => None) (fun _ => true) now f
  = []
  /\ (formSubmit parseFloat5 (Some "u1") (fun _ => None) (fun _ => true) now f
      = []
      \/ exists i,
           formSubmit parseFloat5 (Some "u1") (fun _ => None) (fun _ => true)
             now f
           = [ PreventDefault; Toast "Validation Error" (message i) true;
               SetLoading false ]).
Proof.
  apply (@invalid_submission_not_inserted parseFloat5 (Some "u1")
           (fun _ => None) (fun _ => true)
           "2024-01-02T10:15:00.000Z" "2024-01-02T10:15:07.000Z"
           (2024, 1, 2)%N (2024, 1, 2)%N
           {| category := "Food"; amount := "5"; description := "";
              date := "2999-12-31" |}).
  - reflexivity.
  - reflexivity.
  - reflexivity.
  - right. right. right. right. exists (2999, 12, 31)%N.
    split; reflexivity.
Defined.

(** The same fields with a date that is not in the future are stored. *)
Example past_date_is_inserted :
  formInserted parseFloat5 (Some "u1") (fun _ => None) (fun _ => true)
    "2024-01-02T10:15:00.000Z"
    {| category := "Food"; amount := "5"; description := "";
       date := "2024-01-02" |}
  = [ {| row_user_id := "u1"; row_category := "Food"; row_amount := 5;
         row_description := None; row_date := "2024-01-02" |} ].
Proof. reflexivity. Qed.

(** C10: a submission that passes validation, from a signed-in user, sends
    exactly one row to the storage create; the row's description is null
    when the description typed is empty, and is never the empty string. *)
Theorem empty_description_is_null
    parseFloat user_id insertError (f : Fields) :
  expenseSchema (input parseFloat f) = [] ->
  exists row,
    inserted parseFloat (Some user_id) insertError f = [row]
    /\ (description f = "" -> row_description row = None)
    /\ row_description row <> Some "".
Proof.
  intros Hok. unfold inserted, handleSubmit, parse. fold (input parseFloat f).
  rewrite Hok. simpl.
  eexists. split.
  - destruct (insertError _); reflexivity.
  - simpl. split.
    + intros E. rewrite E. reflexivity.
    + destruct (description f); simpl; congruence.
Qed.

(** A lunch with nothing typed in the description. *)
Lemma empty_description_is_null_witness :
  exists row,
    inserted parseFloat5 (Some "u1") (fun _ => None)
      {| category := "Food"; amount := "5"; description := "";
         date := "2024-01-02" |} = [row]
    /\ (description {| category := "Food"; amount := "5"; description := "";
                       date := "2024-01-02" |} = ""
        -> row_description row = None)
    /\ row_description row <> Some "".
Proof.
  apply (@empty_description_is_null parseFloat5 "u1" (fun _ => None)
           {| category := "Food"; amount := "5"; description := "";
              date := "2024-01-02" |}).
  reflexivity.
Defined.

End FormClaims.

(* ================================================================== *)
(** * Conservation of the category totals *)
(* ================================================================== *)

Module ObjFacts.

Section Entries.

Context {V : Type}.

Lemma insert_by_index_perm (p : string * V) (l : list (string * V)) :
  Permutation (Obj.insert_by_index p l) (p :: l).
Proof.
  induction l as [|q l IH]; simpl.
  - apply Permutation_refl.
  - destruct (Obj.index_of (fst p) <=? Obj.index_of (fst q))%N.
    + apply Permutation_refl.
    + eapply perm_trans; [apply perm_skip, IH | apply perm_swap].
Qed.

Lemma sort_by_index_perm (l : list (string * V)) :
  Permutation (Obj.sort_by_index l) l.
Proof.
  induction l as [|p l IH]; simpl.
  - apply perm_nil.
  - eapply perm_trans; [apply insert_by_index_perm | apply perm_skip, IH].
Qed.

Lemma filter_split_perm (f : string * V -> bool) (l : list (string * V)) :
  Permutation (filter f l ++ filter (fun p => negb (f p)) l) l.
Proof.
  induction l as [|p l IH]; simpl.
  - apply perm_nil.
  - destruct (f p); simpl.
    + apply perm_skip, IH.
    + apply Permutation_sym, Permutation_cons_app, Permutation_sym, IH.
Qed.

(** [Object.entries] lists every own property once. *)
Lemma entries_perm (o : Obj.t V) : Permutation (Obj.entries o) o.
Proof.
  unfold Obj.entries.
  eapply perm_trans; [|apply (filter_split_perm (fun p => Obj.is_index (fst p)))].
  apply Permutation_app_tail, sort_by_index_perm.
Qed.

End Entries.

End ObjFacts.

Module Conservation.

Import ObjFacts.
Local Open Scope Q_scope.

(** The sum of a list of rationals, whatever the order. *)
Definition total (l : list Q) : Q := fold_right Qplus 0 l.

Lemma fold_left_total (l : list Q) (z : Q) :
  fold_left Qplus l z == z + total l.
Proof.
  revert z. induction l as [|x l IH]; intros z; simpl.
  - ring.
  - rewrite IH. ring.
Qed.

Lemma sum_total (l : list Q) : sum l == total l.
Proof. unfold sum. simpl. rewrite fold_left_total. ring. Qed.

Lemma total_perm (l l' : list Q) : Permutation l l' -> total l == total l'.
Proof.
  induction 1; simpl.
  - reflexivity.
  - rewrite IHPermutation. reflexivity.
  - ring.
  - rewrite IHPermutation1. assumption.
Qed.

(** One assignment [acc[k] = (acc[k] || 0) + a] adds [a] to the object's
    total. *)
Lemma set_adds (o : Obj.t Q) (k : string) (a : Q) :
  total (map snd (Obj.set o k (add (or_zero (Obj.get o k)) a)))
  == total (map snd o) + a.
Proof.
  induction o as [|[k' v'] o IH]; simpl.
  - ring.
  - destruct (String.eqb k k'); simpl.
    + destruct (Qeq_bool v' 0) eqn:E; [|ring].
      apply Qeq_bool_iff in E. rewrite E. ring.
    + rewrite IH. ring.
Qed.

Lemma fold_categoryStep (es : list (Expense Q)) (acc : Obj.t Q) :
  total (map snd (fold_left categoryStep es acc))
  == total (map snd acc) + total (map amount es).
Proof.
  revert acc. induction es as [|e es IH]; intros acc; simpl.
  - ring.
  - rewrite IH. unfold categoryStep. rewrite set_adds. ring.
Qed.

Local Open Scope float_scope.

Definition spend (c : string) (a : float) : Expense float :=
  {| id := ""; category := c; amount := a; description := "";
     date := "2024-01-02" |}.

(** C1, refuted: three expenses of 0.1, 0.2 and 0.3 in two categories.
    The category totals are 0.1 and 0.2 + 0.3 = 0.5 and sum to 0.6; the
    grand total (0.1 + 0.2) + 0.3 is the next double, 0.6000000000000001. *)
Lemma category_totals_regroup_the_sum :
  let es := [spend "Food" 0.1; spend "Travel" 0.2; spend "Travel" 0.3] in
  plain_categories es = true
  /\ categoryTotals es = [("Food", 0.1); ("Travel", 0.5)]
  /\ sumValues (categoryTotals es) = 0.6
  /\ grandTotal es = 0.6000000000000001
  /\ sumValues (categoryTotals es) <> grandTotal es.
Proof.
  cbv zeta. repeat split; try reflexivity.
  intros E. apply (f_equal Prim2SF) in E. vm_compute in E. discriminate E.
Qed.

Local Open Scope Q_scope.

(** C1, amended: in exact arithmetic, for every list of expenses whose
    categories are ordinary keys, the values of the total-by-category
    mapping sum to the grand total obtained by summing every amount
    directly.  (In the program's binary64 arithmetic the two sums group the
    additions differently and can differ by a rounding error.) *)
Theorem category_totals_conserve_exact_sum (es : list (Expense Q)) :
  plain_categories es = true ->
  sumValues (categoryTotals es) == grandTotal es.
Proof.
  intros _. unfold sumValues, grandTotal, categoryTotals.
  rewrite !sum_total.
  rewrite (total_perm (Permutation_map snd (entries_perm _))).
  rewrite fold_categoryStep. simpl. ring.
Qed.

Definition spendQ (c : string) (a : Q) : Expense Q :=
  {| id := ""; category := c; amount := a; description := "";
     date := "2024-01-02" |}.

(** The three expenses above, as exact tenths. *)
Lemma category_totals_conserve_exact_sum_witness :
  sumValues (categoryTotals
               [spendQ "Food" (1#10); spendQ "Travel" (2#10);
                spendQ "Travel" (3#10)])
  == grandTotal [spendQ "Food" (1#10); spendQ "Travel" (2#10);
                 spendQ "Travel" (3#10)].
Proof.
  apply (@category_totals_conserve_exact_sum
           [spendQ "Food" (1#10); spendQ "Travel" (2#10);
            spendQ "Travel" (3#10)]).
  reflexivity.
Defined.

End Conservation.

(* ================================================================== *)
(** * Rounding of the chart values *)
(* ================================================================== *)

Module Rounding.

Local Open Scope Q_scope.

(** The magnitude [m * 2^e] of a finite float, as a rational. *)
Definition magnitude (m : positive) (e : Z) : Q :=
  if (0 <=? e)%Z then inject_Z (Zpos m * 2 ^ e)
  else inject_Z (Zpos m) / inject_Z (2 ^ (- e)).

(** [n / 100] is nearest to [m * 2^e], and on a tie it is the one further
    from zero: [n - 1/2 <= 100 * m * 2^e < n + 1/2]. *)
Definition nearestCent (m : positive) (e : Z) (n : Z) : Prop :=
  inject_Z (2 * n - 1) <= 200 * magnitude m e
  /\ 200 * magnitude m e < inject_Z (2 * n + 1).

Lemma cents_half_up_nearest (m : positive) (e : Z) :
  nearestCent m e (JS.cents_half_up m e) /\ (0 <= JS.cents_half_up m e)%Z.
Proof.
  unfold nearestCent, JS.cents_half_up, magnitude.
  destruct (0 <=? e)%Z eqn:He.
  - apply Z.leb_le in He.
    assert (0 < 2 ^ e)%Z as Hp by (apply Z.pow_pos_nonneg; lia).
    replace (200 * inject_Z (Zpos m * 2 ^ e))
      with (inject_Z 200 * inject_Z (Zpos m * 2 ^ e)) by reflexivity.
    rewrite <- inject_Z_mult.
    rewrite <- Zle_Qle, <- Zlt_Qlt. nia.
  - apply Z.leb_gt in He.
    set (P := (2 ^ (- e))%Z).
    assert (0 < P)%Z as HP by (apply Z.pow_pos_nonneg; lia).
    replace (2 ^ (1 - e))%Z with (2 * P)%Z
      by (unfold P; replace (1 - e)%Z with (Z.succ (- e)) by lia;
          rewrite Z.pow_succ_r by lia; reflexivity).
    set (n := ((200 * Zpos m + P) / (2 * P))%Z).
    assert (2 * P * n <= 200 * Zpos m + P < 2 * P * n + 2 * P)%Z as Hn.
    { pose proof (Z.div_mod (200 * Zpos m + P) (2 * P)) as Hd.
      pose proof (Z.mod_pos_bound (200 * Zpos m + P) (2 * P)) as Hb.
      fold n in Hd. lia. }
    assert (0 < inject_Z P) as HPq
      by (change 0 with (inject_Z 0); rewrite <- Zlt_Qlt; exact HP).
    assert (200 * (inject_Z (Zpos m) / inject_Z P)
            == inject_Z (200 * Zpos m) / inject_Z P) as E.
    { rewrite inject_Z_mult. unfold Qdiv. change (inject_Z 200) with 200.
      ring. }
    split; [split|].
    + rewrite E. apply Qle_shift_div_l; [exact HPq|].
      rewrite <- inject_Z_mult, <- Zle_Qle. nia.
    + rewrite E. apply Qlt_shift_div_r; [exact HPq|].
      rewrite <- inject_Z_mult, <- Zlt_Qlt. nia.
    + apply Z.div_pos; lia.
Qed.

(** ** The text has exactly two decimals *)

Definition isDigit (c : ascii) : bool :=
  match Obj.digit c with Some _ => true | None => false end.

Fixpoint allDigits (s : string) : bool :=
  match s with
  | EmptyString => true
  | String c s' => isDigit c && allDigits s'
  end.

(** One digit at least, a point, and two digits. *)
Definition twoDecimals (s : string) : Prop :=
  exists a b : string,
    s = (a ++ "." ++ b)%string
    /\ a <> ""%string /\ allDigits a = true
    /\ String.length b = 2%nat /\ allDigits b = true.

Lemma allDigits_app (a b : string) :
  allDigits (a ++ b) = allDigits a && allDigits b.
Proof.
  induction a as [|c a IH]; simpl; [reflexivity|].
  rewrite IH, andb_assoc. reflexivity.
Qed.

Lemma take_drop (k : nat) (m : string) :
  (JS.take k m ++ JS.drop k m)%string = m.
Proof.
  revert m. induction k as [|k IH]; intros [|c m]; simpl; try reflexivity.
  rewrite IH. reflexivity.
Qed.

Lemma drop_length (k : nat) (m : string) :
  String.length (JS.drop k m) = (String.length m - k)%nat.
Proof.
  revert m. induction k as [|k IH]; intros [|c m]; simpl; auto.
Qed.

Lemma take_empty (k : nat) (m : string) :
  JS.take k m = ""%string -> k = 0%nat \/ m = ""%string.
Proof. destruct k, m; simpl; auto; discriminate. Qed.

Lemma string_of_uint_digits (d : Decimal.uint) :
  allDigits (NilEmpty.string_of_uint d) = true.
Proof. induction d; simpl; auto. Qed.

Lemma digits_allDigits (n : Z) : allDigits (JS.digits n) = true.
Proof.
  unfold JS.digits, NilZero.string_of_uint.
  destruct (N.to_uint (Z.to_N n)) eqn:E; try reflexivity;
    rewrite <- E; apply string_of_uint_digits.
Qed.

Lemma pad3_digits (m : string) :
  allDigits m = true ->
  allDigits (JS.pad3 m) = true /\ (3 <= String.length (JS.pad3 m))%nat.
Proof.
  intros Hm. unfold JS.pad3.
  destruct m as [|c1 [|c2 [|c3 m]]]; simpl in *; auto; try lia.
  split; [assumption|lia].
Qed.

Lemma point2_twoDecimals (m : string) :
  allDigits m = true -> (3 <= String.length m)%nat ->
  twoDecimals (JS.point2 m).
Proof.
  intros Hd Hl. unfold JS.point2.
  set (k := (String.length m - 2)%nat).
  exists (JS.take k m), (JS.drop k m).
  pose proof (take_drop k m) as Htd.
  rewrite <- Htd, allDigits_app in Hd. apply andb_true_iff in Hd.
  destruct Hd as [Ha Hb].
  repeat split; auto.
  - intros E. apply take_empty in E. destruct E as [E|E].
    + unfold k in E. lia.
    + rewrite E in Hl. simpl in Hl. lia.
  - rewrite drop_length. unfold k. lia.
Qed.

Lemma text_twoDecimals (s : bool) (n : Z) :
  exists str,
    JS.text (JS.TFixed s n) = Some ((if s then "-" else "") ++ str)%string
    /\ twoDecimals str.
Proof.
  exists (JS.point2 (JS.pad3 (JS.digits n))). split; [reflexivity|].
  destruct (pad3_digits _ (digits_allDigits n)).
  now apply point2_twoDecimals.
Qed.

(** ** The text is the numeral of the cents *)

(** [str] reads as [n / 100]: digits, a point and two digits, the digits
    before the point making [A] and the two after it [B], with
    [100 A + B = n]. *)
Definition numeralOfCents (str : string) (n : Z) : Prop :=
  exists (a b : string) (A B : N),
    str = (a ++ "." ++ b)%string
    /\ a <> ""%string /\ String.length b = 2%nat
    /\ Obj.numeral a 0 = Some A /\ Obj.numeral b 0 = Some B
    /\ (100 * Z.of_N A + Z.of_N B = n)%Z.

(** The number a decimal numeral of the standard library makes, digit by
    digit. *)
Fixpoint horner (d : Decimal.uint) (acc : N) : N :=
  match d with
  | Decimal.Nil => acc
  | Decimal.D0 d => horner d (10 * acc + 0)
  | Decimal.D1 d => horner d (10 * acc + 1)
  | Decimal.D2 d => horner d (10 * acc + 2)
  | Decimal.D3 d => horner d (10 * acc + 3)
  | Decimal.D4 d => horner d (10 * acc + 4)
  | Decimal.D5 d => horner d (10 * acc + 5)
  | Decimal.D6 d => horner d (10 * acc + 6)
  | Decimal.D7 d => horner d (10 * acc + 7)
  | Decimal.D8 d => horner d (10 * acc + 8)
  | Decimal.D9 d => horner d (10 * acc + 9)
  end%N.

Lemma numeral_string_of_uint (d : Decimal.uint) (acc : N) :
  Obj.numeral (NilEmpty.string_of_uint d) acc = Some (horner d acc).
Proof.
  revert acc. induction d; intros acc;
    cbn [NilEmpty.string_of_uint Obj.numeral horner]; try reflexivity;
    match goal with
    | |- context [Obj.digit ?c] =>
        let v := eval vm_compute in (Obj.digit c) in
        change (Obj.digit c) with v
    end; cbv iota; apply IHd.
Qed.

Lemma of_uint_acc_horner (d : Decimal.uint) (p : positive) :
  Npos (Pos.of_uint_acc d p) = horner d (Npos p).
Proof.
  revert p. induction d; intros p; cbn [Pos.of_uint_acc horner];
    try reflexivity; rewrite IHd; f_equal; lia.
Qed.

Lemma of_uint_horner (d : Decimal.uint) : N.of_uint d = horner d 0.
Proof.
  unfold N.of_uint.
  induction d; cbn [Pos.of_uint horner]; try reflexivity;
    try exact IHd; rewrite of_uint_acc_horner; reflexivity.
Qed.

Lemma numeral_digits (n : Z) :
  Obj.numeral (JS.digits n) 0 = Some (Z.to_N n).
Proof.
  unfold JS.digits, NilZero.string_of_uint.
  rewrite <- (DecimalN.Unsigned.of_to (Z.to_N n)) at 2.
  rewrite of_uint_horner.
  generalize (N.to_uint (Z.to_N n)). intros d.
  destruct d; try reflexivity; exact (numeral_string_of_uint _ 0%N).
Qed.

(** The digits after an accumulator: the accumulator moves up by their
    number of places. *)
Lemma numeral_shift (b : string) (acc acc' V : N) :
  Obj.numeral b acc = Some V ->
  exists V', Obj.numeral b acc' = Some V'
             /\ (V + acc' * 10 ^ N.of_nat (String.length b)
                 = V' + acc * 10 ^ N.of_nat (String.length b))%N.
Proof.
  revert acc acc'. induction b as [|c b IH]; intros acc acc' H.
  - cbn [Obj.numeral String.length] in *. injection H as <-.
    exists acc'. split; [reflexivity|]. change (10 ^ N.of_nat 0)%N with 1%N.
    lia.
  - cbn [Obj.numeral] in *. destruct (Obj.digit c) as [d|]; [|discriminate].
    destruct (IH _ (10 * acc' + d)%N H) as [V' [H' E]].
    exists V'. split; [exact H'|].
    cbn [String.length]. rewrite Nat2N.inj_succ, N.pow_succ_r'.
    set (P := (10 ^ N.of_nat (String.length b))%N) in *. nia.
Qed.

Lemma numeral_app (a b : string) (acc : N) :
  Obj.numeral (a ++ b) acc
  = match Obj.numeral a acc with
    | Some A => Obj.numeral b A
    | None => None
    end.
Proof.
  revert acc. induction a as [|c a IH]; intros acc; cbn [append Obj.numeral].
  - reflexivity.
  - destruct (Obj.digit c); [apply IH|reflexivity].
Qed.

Lemma numeral_pad3 (m : string) :
  Obj.numeral (JS.pad3 m) 0 = Obj.numeral m 0.
Proof.
  unfold JS.pad3. destruct (String.length m) as [|[|[|k]]]; reflexivity.
Qed.

Lemma point2_numeral (m : string) (V : N) :
  (3 <= String.length m)%nat -> Obj.numeral m 0 = Some V ->
  numeralOfCents (JS.point2 m) (Z.of_N V).
Proof.
  intros Hl Hm. unfold JS.point2.
  set (k := (String.length m - 2)%nat).
  pose proof (take_drop k m) as Htd.
  rewrite <- Htd, numeral_app in Hm.
  destruct (Obj.numeral (JS.take k m) 0) as [A|] eqn:Ha; [|discriminate].
  destruct (@numeral_shift (JS.drop k m) A 0%N V Hm) as [B [Hb E]].
  assert (String.length (JS.drop k m) = 2%nat) as Hlen
    by (rewrite drop_length; unfold k; lia).
  rewrite Hlen in E. change (10 ^ N.of_nat 2)%N with 100%N in E.
  exists (JS.take k m), (JS.drop k m), A, B.
  repeat split; auto.
  - intros Ea. apply take_empty in Ea. destruct Ea as [Ea|Ea].
    + unfold k in Ea. lia.
    + rewrite Ea in Hl. simpl in Hl. lia.
  - lia.
Qed.

Lemma text_numeral (s : bool) (n : Z) :
  (0 <= n)%Z ->
  exists str,
    JS.text (JS.TFixed s n) = Some ((if s then "-" else "") ++ str)%string
    /\ twoDecimals str /\ numeralOfCents str n.
Proof.
  intros Hn. exists (JS.point2 (JS.pad3 (JS.digits n))).
  split; [reflexivity|].
  destruct (pad3_digits _ (digits_allDigits n)) as [Hd Hl].
  split; [now apply point2_twoDecimals|].
  rewrite <- (Z2N.id n Hn) at 2.
  apply point2_numeral; [exact Hl|].
  rewrite numeral_pad3. apply numeral_digits.
Qed.

(** ** The value is the double nearest to the cents *)

(** [value] is the double nearest to [n / 100] with the sign [s], the one
    with the even mantissa when two are as near; for [n = 0], the zero of
    that sign. *)
Definition doubleOfCents (s : bool) (n : Z) (value : float) : Prop :=
  match n with
  | Zpos _ =>
      exists m e,
        Prim2SF value = S754_finite s m e
        /\ (2 ^ 52 <= Zpos m < 2 ^ 53)%Z
        /\ Division.nearest n m e
  | _ => value = if s then neg_zero else 0%float
  end.

Lemma Number_nearest (s : bool) (p : positive) :
  (Zpos p < 2 ^ 1000)%Z ->
  doubleOfCents s (Zpos p) (JS.Number (JS.TFixed s (Zpos p))).
Proof.
  intros Hp. cbn [doubleOfCents JS.Number].
  destruct (Division.SFdiv_100 s p)
    as (m & e & g & w & v & c & Hdiv & Hm & He & Hw & Hc & Hg & Hcw & Hcv
        & Hvw & Hu & Heven).
  assert (Z.log2 (Zpos p) < 1000)%Z as Hl
    by (apply Z.log2_lt_pow2; lia).
  exists m, e. split; [|split; [exact Hm|]].
  - rewrite Hdiv. unfold Binary64.finish.
    change (emax - prec)%Z with 971%Z.
    replace (e <=? 971)%Z with true by (symmetry; apply Z.leb_le; lia).
    apply Prim2SF_SF2Prim.
    unfold SpecFloat.valid_binary, bounded, canonical_mantissa.
    rewrite Binary64.digits2_log2, Binary64.fexp_eq.
    assert (Z.log2 (Zpos m) = 52)%Z as ->.
    { apply Z.log2_unique; [lia|]. change (Z.succ 52) with 53%Z. lia. }
    change (emax - prec)%Z with 971%Z.
    apply andb_true_iff. split; [apply Z.eqb_eq|apply Z.leb_le]; lia.
  - apply (Division.nearest_rdiv (Zpos p) m e g w v c); assumption.
Qed.

(** Below [10^21] the cents are below [2^77]. *)
Lemma cents_bound (total : float) (s : bool) (m : positive) (e : Z) :
  Prim2SF total = S754_finite s m e -> (abs total <? 1e21)%float = true ->
  (0 <= JS.cents_half_up m e < 2 ^ 77)%Z.
Proof.
  intros E Hlt.
  pose proof (Prim2SF_valid total) as V. rewrite E in V.
  destruct (Binary64.bounded_facts _ _ V) as (He & Hm & _).
  split; [apply cents_half_up_nearest|].
  unfold JS.cents_half_up.
  destruct (Z.leb_spec 0 e) as [H0|H0].
  - assert ((0 <=? abs total)%float = true) as Ha.
    { apply Binary64.leb_zero_nonneg.
      rewrite FloatAxioms.abs_spec, E. reflexivity. }
    apply (Binary64.ltb_rank (abs total) 1e21 Ha eq_refl) in Hlt.
    rewrite FloatAxioms.abs_spec, E in Hlt.
    change (Binary64.rank (SFabs (S754_finite s m e)))
      with (Binary64.units m e) in Hlt.
    assert (Binary64.rank (Prim2SF 1e21)
            = 1000000000000000000000 * 2 ^ 1074)%Z as E21
      by (vm_compute; reflexivity).
    rewrite E21 in Hlt. unfold Binary64.units in Hlt.
    rewrite (Z.pow_add_r 2 e 1074) in Hlt by lia.
    pose proof (Binary64.pow2_pos 1074 ltac:(lia)) as Hp.
    assert (Zpos m * 2 ^ e < 1000000000000000000000)%Z as Hb by nia.
    apply Z.lt_le_trans with (100 * 1000000000000000000000)%Z; [lia|].
    vm_compute. discriminate.
  - pose proof (Binary64.pow2_pos (- e) ltac:(lia)) as Hp.
    replace (2 ^ (1 - e))%Z with (2 * 2 ^ (- e))%Z
      by (replace (1 - e)%Z with (Z.succ (- e)) by lia;
          rewrite Z.pow_succ_r by lia; reflexivity).
    apply Z.le_lt_trans with (200 * Zpos m + 1)%Z.
    + apply Z.div_le_upper_bound; [lia|]. nia.
    + apply Z.lt_le_trans with (200 * 2 ^ 53 + 1)%Z; [lia|].
      vm_compute. discriminate.
Qed.

(** ** Half-away-from-zero rounding of a decimal, as the specification
    words it *)

Definition roundHalfAway2 (q : Q) : Q :=
  if Qle_bool 0 q then inject_Z (Qfloor (q * 100 + (1 # 2))) / 100
  else - (inject_Z (Qfloor (- q * 100 + (1 # 2))) / 100).

(** ** What the chart shows for a total *)

Local Open Scope float_scope.

(** [value] is [Number(total.toFixed(2))], case by case.  For a finite
    non-zero [total] below [10^21] in magnitude: [n] is the integer
    nearest to a hundred times the binary value of [total], the one
    further from zero on a tie; the text is the sign and the numeral of
    [n / 100] with exactly two decimals; and the value is the double
    nearest to [n / 100].  A zero gives "0.00" and [0].  From [10^21] on,
    and for [NaN] and the infinities, the text is the one of [toString]
    and the value is [total] itself. *)
Definition roundedTo2 (total value : float) : Prop :=
  value = JS.Number (JS.toFixed2 total)
  /\ match Prim2SF total with
     | S754_nan => JS.text (JS.toFixed2 total) = Some "NaN" /\ value = nan
     | S754_infinity s =>
         JS.text (JS.toFixed2 total)
         = Some ((if s then "-" else "") ++ "Infinity")%string
         /\ value = total
     | S754_zero _ =>
         JS.text (JS.toFixed2 total) = Some "0.00" /\ value = 0
     | S754_finite s m e =>
         if abs total <? 1e21
         then exists n str,
                JS.toFixed2 total = JS.TFixed s n
                /\ nearestCent m e n
                /\ JS.text (JS.toFixed2 total)
                   = Some ((if s then "-" else "") ++ str)%string
                /\ twoDecimals str
                /\ numeralOfCents str n
                /\ doubleOfCents s n value
         else JS.toFixed2 total = JS.TToString total /\ value = total
     end.

Lemma toFixed2_rounds (total : float) :
  roundedTo2 total (JS.Number (JS.toFixed2 total)).
Proof.
  split; [reflexivity|]. unfold JS.toFixed2.
  destruct (Prim2SF total) as [z|i| |s m e] eqn:E.
  - split; reflexivity.
  - split; [reflexivity|]. cbn [JS.Number].
    apply Prim2SF_inj. rewrite E. destruct i; reflexivity.
  - split; reflexivity.
  - destruct (abs total <? 1e21) eqn:Hlt; [|split; reflexivity].
    destruct (@cents_bound total s m e E Hlt) as [Hn0 Hn].
    destruct (@text_numeral s (JS.cents_half_up m e) Hn0)
      as [str (Ht & Hs & Hnum)].
    exists (JS.cents_half_up m e), str.
    split; [reflexivity|]. split; [apply cents_half_up_nearest|].
    split; [exact Ht|]. split; [exact Hs|]. split; [exact Hnum|].
    destruct (JS.cents_half_up m e) as [|p|p] eqn:En; try reflexivity.
    apply Number_nearest.
    apply Z.lt_trans with (2 ^ 77)%Z; [exact Hn|].
    apply Z.pow_lt_mono_r; lia.
Qed.

(** [toFixed(2)] on a few doubles: ties of the decimal numeral go the way
    the binary value lies. *)
Example toFixed2_samples :
  map (fun x => JS.text (JS.toFixed2 x))
      [ 0; 0.005; 0.015; 2.675; 8.345; 1.45; -0.001; -2.5; 150.01; 5e-324;
        123456789012345.67; 999999999999999868928 ]
  = map Some
      [ "0.00"; "0.01"; "0.01"; "2.67"; "8.35"; "1.45"; "-0.00"; "-2.50";
        "150.01"; "0.00"; "123456789012345.67";
        "999999999999999868928.00" ].
Proof. reflexivity. Qed.

(** [Number] of such a text is the double the same numeral denotes. *)
Example Number_samples :
  map JS.Number
      [ JS.TFixed false 1; JS.TFixed true 15001; JS.TFixed false 2001;
        JS.TFixed false 900719925474099301; JS.TFixed true 0 ]
  = [ 0.01; -150.01; 20.01; 9007199254740993.01; -0 ].
Proof. reflexivity. Qed.

Import Conservation.

(** C6, refuted: a single expense of 1.005.  The decimal 1.005 rounds
    half away from zero to 1.01; the double nearest to 1.005 lies below it
    and the chart shows 1.00.  For 10.005 the nearest double lies above,
    and the chart shows 10.01; for two of them, 20.01.  And a total of
    [10^21] is not rounded to two decimals at all: [toFixed] returns what
    [toString] does, the text ["1e+21"]. *)
Lemma chart_value_of_1_005 :
  (roundHalfAway2 (1005 # 1000) == 101 # 100)%Q
  /\ plain_categories [spend "Food" 1.005] = true
  /\ chartData [spend "Food" 1.005] = [("Food", 1)]
  /\ JS.text (JS.toFixed2 1.005) = Some "1.00"
  /\ chartData [spend "Food" 1.005] <> [("Food", 1.01)]
  /\ chartData [spend "Food" 10.005] = [("Food", 10.01)]
  /\ chartData [spend "Food" 10.005; spend "Food" 10.005] = [("Food", 20.01)]
  /\ JS.toFixed2 1e21 = JS.TToString 1e21.
Proof.
  repeat split; try reflexivity.
  intros E. apply (f_equal (fun l => map (fun p => Prim2SF (snd p)) l)) in E.
  vm_compute in E. discriminate E.
Qed.

(** C6, amended: every chart entry is the category total passed through
    [Number(total.toFixed(2))].  For a finite non-zero total below [10^21]
    in magnitude the text has exactly two decimals and is the numeral of
    [n / 100], [n] being the integer nearest to a hundred times the binary
    value of the total, ties away from zero, and the chart value is the
    double nearest to [n / 100]; the rounding applies to the double that
    the sum produced, not to the decimal amounts entered.  A total of zero
    shows as "0.00", with the value [0].  From [10^21] on (and for [NaN]
    and the infinities) nothing is rounded: the text is the one of
    [toString] and the chart value is the total itself. *)
Theorem chartData_rounds_binary_value (es : list (Expense float)) :
  plain_categories es = true ->
  Forall2 (fun entry shown =>
             fst shown = fst entry /\ roundedTo2 (snd entry) (snd shown))
          (Obj.entries (categoryTotals es)) (chartData es).
Proof.
  intros _. unfold chartData.
  induction (Obj.entries (categoryTotals es)) as [|[name total] l IH]; simpl.
  - constructor.
  - constructor; [|exact IH]. simpl. split; [reflexivity|].
    apply toFixed2_rounds.
Qed.

(** Two expenses of 10.005 in one category. *)
Lemma chartData_rounds_binary_value_witness :
  Forall2 (fun entry shown =>
             fst shown = fst entry /\ roundedTo2 (snd entry) (snd shown))
          (Obj.entries (categoryTotals [spend "Food" 10.005; spend "Food" 10.005]))
          (chartData [spend "Food" 10.005; spend "Food" 10.005]).
Proof.
  apply (@chartData_rounds_binary_value
           [spend "Food" 10.005; spend "Food" 10.005]).
  reflexivity.
Defined.

End Rounding.

(* ================================================================== *)
(** * Today's total against the grand total *)
(* ================================================================== *)

Module TotalsClaims.

Local Open Scope float_scope.
Local Unset Implicit Arguments.

Definition nonNegative (e : Expense float) : Prop := (0 <=? amount e) = true.

(** The two running sums of [calculateTodayTotal] and of the grand total,
    side by side: the first stays below the second. *)
Lemma running_totals (today : string) (es : list (Expense float)) :
  Forall nonNegative es ->
  forall t g : float,
    (0 <=? t) = true -> (0 <=? g) = true -> (t <=? g) = true ->
    (fold_left add (map amount (todayExpenses es today)) t
       <=? fold_left add (map amount es) g) = true.
Proof.
  induction 1 as [|e es He Hes IH]; intros t g Ht Hg Htg.
  - exact Htg.
  - unfold todayExpenses in *. cbn [filter map fold_left].
    change (add g (amount e)) with (g + amount e).
    destruct (Binary64.add_rank g (amount e) Hg He) as [Hg' _].
    destruct (String.eqb (date e) today); cbn [map fold_left].
    + change (add t (amount e)) with (t + amount e).
      destruct (Binary64.add_rank t (amount e) Ht He) as [Ht' _].
      apply IH; try assumption.
      apply Binary64.add_le_mono; try assumption.
      apply Binary64.leb_rank; [assumption|assumption|lia].
    + apply IH; try assumption.
      apply Binary64.leb_trans with g; try assumption.
      apply Binary64.le_add_nonneg; assumption.
Qed.

(** C9: for every list of expenses whose amounts are all non-negative and
    every date, the total of the expenses of that date is at most the grand
    total of all expenses, in the floating-point arithmetic of the program;
    so is the total [calculateTodayTotal] stores, whatever the clock reads. *)
Theorem today_total_le_grand_total
    (es : list (Expense float)) (today : string) :
  Forall nonNegative es ->
  (todayTotalOn es today <=? grandTotal es) = true
  /\ forall (now : string) (profile : option Profile) (t : float),
       (Dashboard.todayTotal
          (Dashboard.calculateTodayTotal now
             {| Dashboard.profile := profile; Dashboard.expenses := es;
                Dashboard.todayTotal := t |})
        <=? grandTotal es) = true.
Proof.
  intros Hes. split; [|intros now profile t];
    unfold todayTotalOn, grandTotal, sum; cbn [Dashboard.todayTotal
      Dashboard.calculateTodayTotal Dashboard.expenses];
    unfold sum;
    (apply running_totals; [exact Hes|reflexivity|reflexivity|reflexivity]).
Qed.

Definition groceries : list (Expense float) :=
  [ {| id := "a"; category := "Food"; amount := 12.5; description := "";
       date := "2024-01-01" |};
    {| id := "b"; category := "Food"; amount := 7.5; description := "";
       date := "2024-01-02" |} ].

(** The scenario of the specification, with today the second day. *)
Lemma today_total_le_grand_total_witness :
  (todayTotalOn groceries "2024-01-02" <=? grandTotal groceries) = true
  /\ forall (now : string) (profile : option Profile) (t : float),
       (Dashboard.todayTotal
          (Dashboard.calculateTodayTotal now
             {| Dashboard.profile := profile; Dashboard.expenses := groceries;
                Dashboard.todayTotal := t |})
        <=? grandTotal groceries) = true.
Proof.
  apply (today_total_le_grand_total groceries "2024-01-02").
  repeat constructor.
Defined.

(** The scenario of the specification. *)
Example groceries_totals :
  todayTotalOn groceries "2024-01-02" = 7.5
  /\ categoryTotals groceries = [("Food", 20)]
  /\ grandTotal groceries = 20
  /\ chartData groceries = [("Food", 20)].
Proof. repeat split; reflexivity. Qed.

(** Empty input: zero totals and zero counts. *)
Example empty_totals (today : string) :
  todayTotalOn ([] : list (Expense float)) today = 0
  /\ grandTotal ([] : list (Expense float)) = 0
  /\ List.length (todayExpenses ([] : list (Expense float)) today) = 0%nat
  /\ categoryTotals ([] : list (Expense float)) = [].
Proof. repeat split; reflexivity. Qed.

End TotalsClaims.

(* ================================================================== *)
(** * The keys of the totals and the cells of the chart *)
(* ================================================================== *)

Module ObjLookup.

Local Unset Implicit Arguments.
Local Open Scope list_scope.

Section Lookup.

Context {V : Type}.

(** The own property names in the order of their creation, which is the
    order of the list that stands for the object; [Object.keys] lists
    them otherwise ([Obj.keys]). *)
Definition created (o : Obj.t V) : list string := map fst o.

(** Whether [k] is among the strings of [l]. *)
Definition mem (k : string) (l : list string) : bool :=
  existsb (String.eqb k) l.

Lemma mem_In (k : string) (l : list string) : mem k l = true <-> In k l.
Proof.
  unfold mem. rewrite existsb_exists. split.
  - intros [x [Hx E]]. apply String.eqb_eq in E. now subst.
  - intros H. exists k. split; [exact H|apply String.eqb_refl].
Qed.

Lemma get_set_same (o : Obj.t V) (k : string) (v : V) :
  Obj.get (Obj.set o k v) k = Some v.
Proof.
  induction o as [|[k' v'] o IH]; simpl.
  - rewrite String.eqb_refl. reflexivity.
  - destruct (String.eqb k k') eqn:E; simpl; rewrite E; [reflexivity|exact IH].
Qed.

Lemma get_set_other (o : Obj.t V) (k k' : string) (v : V) :
  k' <> k -> Obj.get (Obj.set o k v) k' = Obj.get o k'.
Proof.
  intros Hne. induction o as [|[k0 v0] o IH]; simpl.
  - destruct (String.eqb k' k) eqn:E; [|reflexivity].
    apply String.eqb_eq in E. contradiction.
  - destruct (String.eqb k k0) eqn:E; simpl.
    + apply String.eqb_eq in E. subst k0.
      destruct (String.eqb k' k) eqn:E'; [|reflexivity].
      apply String.eqb_eq in E'. contradiction.
    + rewrite IH. reflexivity.
Qed.

Lemma get_none (o : Obj.t V) (k : string) :
  Obj.get o k = None <-> mem k (created o) = false.
Proof.
  induction o as [|[k' v'] o IH]; simpl.
  - split; reflexivity.
  - destruct (String.eqb k k'); simpl; [split; discriminate|exact IH].
Qed.

(** An assignment keeps the keys, or adds the new key at the end. *)
Lemma created_set (o : Obj.t V) (k : string) (v : V) :
  created (Obj.set o k v) = if mem k (created o) then created o else created o ++ [k].
Proof.
  induction o as [|[k' v'] o IH]; simpl.
  - reflexivity.
  - destruct (String.eqb k k') eqn:E; simpl.
    + reflexivity.
    + unfold created in *. rewrite IH. fold (mem k (map fst o)).
      destruct (mem k (map fst o)); reflexivity.
Qed.

End Lookup.

End ObjLookup.

Module ChartExtras.

Import ObjLookup.
Local Unset Implicit Arguments.
Local Open Scope list_scope.

(** The strings of a list, each once, in the order of their first
    occurrence. *)
Fixpoint distinct (l : list string) : list string :=
  match l with
  | [] => []
  | x :: l' => x :: filter (fun y => negb (String.eqb y x)) (distinct l')
  end.

Lemma distinct_In (l : list string) (x : string) :
  In x (distinct l) <-> In x l.
Proof.
  induction l as [|y l IH]; simpl; [reflexivity|].
  rewrite filter_In, IH. split.
  - intros [H|[H _]]; auto.
  - intros [H|H]; [now left|].
    destruct (String.eqb x y) eqn:E.
    + apply String.eqb_eq in E. left. congruence.
    + right. split; [exact H|reflexivity].
Qed.

Lemma distinct_NoDup (l : list string) : NoDup (distinct l).
Proof.
  induction l as [|y l IH]; simpl; constructor.
  - rewrite filter_In. intros [_ H]. rewrite String.eqb_refl in H. discriminate.
  - apply NoDup_filter. exact IH.
Qed.

Lemma filter_filter {A : Type} (f g : A -> bool) (l : list A) :
  filter f (filter g l) = filter (fun x => g x && f x) l.
Proof.
  induction l as [|x l IH]; simpl; [reflexivity|].
  destruct (g x); simpl; [destruct (f x)|]; rewrite IH; reflexivity.
Qed.

Section Keys.

Context {N : Type} `{Arith N}.

(** The names created by a run of the reducer: those there were, then the new
    categories in the order they come. *)
Lemma created_fold (es : list (Expense N)) (acc : Obj.t N) :
  created (fold_left categoryStep es acc)
  = created acc
    ++ filter (fun c => negb (mem c (created acc))) (distinct (map category es)).
Proof.
  revert acc. induction es as [|e es IH]; intros acc; simpl.
  - rewrite app_nil_r. reflexivity.
  - rewrite IH. unfold categoryStep. rewrite created_set.
    set (c := category e). set (ks := created acc).
    destruct (mem c ks) eqn:Hc; simpl.
    + f_equal. rewrite filter_filter. apply filter_ext. intros y.
      destruct (String.eqb y c) eqn:E; simpl; [|reflexivity].
      apply String.eqb_eq in E. subst y. rewrite Hc. reflexivity.
    + rewrite <- app_assoc. simpl. f_equal. f_equal.
      rewrite filter_filter. apply filter_ext. intros y.
      unfold mem. rewrite existsb_app. simpl. rewrite orb_false_r.
      fold (mem y ks).
      destruct (String.eqb y c), (mem y ks); reflexivity.
Qed.

Lemma created_NoDup_fold (es : list (Expense N)) (acc : Obj.t N) :
  NoDup (created acc) -> NoDup (created (fold_left categoryStep es acc)).
Proof.
  revert acc. induction es as [|e es IH]; intros acc Hacc; simpl.
  - exact Hacc.
  - apply IH. unfold categoryStep. rewrite created_set.
    destruct (mem (category e) (created acc)) eqn:Hc; [exact Hacc|].
    apply NoDup_app; [exact Hacc|repeat constructor; intros []|].
    intros k Hk [<-|[]].
    apply mem_In in Hk. congruence.
Qed.

Lemma created_NoDup (es : list (Expense N)) : NoDup (created (categoryTotals es)).
Proof. apply created_NoDup_fold. constructor. Qed.

Lemma created_distinct (es : list (Expense N)) :
  created (categoryTotals es) = distinct (map category es).
Proof.
  unfold categoryTotals. rewrite created_fold. simpl.
  induction (distinct (map category es)) as [|x l IH]; simpl;
    [reflexivity|now rewrite IH].
Qed.

Lemma keys_created (o : Obj.t N) : Permutation (Obj.keys o) (created o).
Proof. apply Permutation_map, ObjFacts.entries_perm. Qed.

(** Without an array index among its names, the object lists its keys in
    the order of their creation. *)
Lemma entries_plain (o : Obj.t N) :
  Forall (fun k => Obj.is_index k = false) (created o) -> Obj.entries o = o.
Proof.
  intros Ho. unfold Obj.entries.
  assert (filter (fun p => Obj.is_index (fst p)) o = []) as ->.
  { induction o as [|[k v] o IH]; [reflexivity|]. inversion Ho; subst.
    cbn [filter fst] in *. replace (Obj.is_index k) with false by auto.
    now apply IH. }
  cbn [Obj.sort_by_index fold_right app].
  induction o as [|[k v] o IH]; [reflexivity|]. inversion Ho; subst.
  cbn [filter fst] in *. replace (Obj.is_index k) with false by auto.
  cbn [negb]. f_equal. now apply IH.
Qed.

(** X1: every category of the expenses is a key of the total-by-category
    object, exactly once, and it has no other key; and when no category
    reads as an array index, [Object.keys] lists them in the order of
    their first occurrence among the expenses (for categories that are
    not names an object inherits, which the assignment treats
    otherwise). *)
Theorem categoryTotals_keys (es : list (Expense N)) :
  plain_categories es = true ->
  NoDup (Obj.keys (categoryTotals es))
  /\ (forall c, In c (Obj.keys (categoryTotals es))
                <-> exists e, In e es /\ category e = c)
  /\ (Forall (fun e => Obj.is_index (category e) = false) es ->
      Obj.keys (categoryTotals es) = distinct (map category es)).
Proof.
  intros _.
  pose proof (keys_created (categoryTotals es)) as Hperm.
  assert (forall c, In c (created (categoryTotals es))
                    <-> exists e, In e es /\ category e = c) as Hin.
  { intros c. rewrite created_distinct, distinct_In, in_map_iff.
    split; intros [e [H1 H2]]; exists e; auto. }
  split; [|split].
  - apply (Permutation_NoDup (Permutation_sym Hperm)), created_NoDup.
  - intros c. rewrite <- Hin. split; apply Permutation_in;
      [exact Hperm|apply Permutation_sym, Hperm].
  - intros Hplain. unfold Obj.keys. rewrite entries_plain.
    + apply created_distinct.
    + apply Forall_forall. intros k Hk. apply Hin in Hk.
      destruct Hk as [e [He <-]]. rewrite Forall_forall in Hplain.
      apply Hplain, He.
Qed.

End Keys.

Definition lunchAndTrain : list (Expense float) :=
  [ Conservation.spend "Food" 12.5%float;
    Conservation.spend "Travel" 3%float;
    Conservation.spend "Food" 7.5%float ].

(** Two lunches and a train ticket: Food, then Travel. *)
Lemma categoryTotals_keys_witness :
  NoDup (Obj.keys (categoryTotals lunchAndTrain))
  /\ (forall c, In c (Obj.keys (categoryTotals lunchAndTrain))
                <-> exists e, In e lunchAndTrain /\ category e = c)
  /\ (Forall (fun e => Obj.is_index (category e) = false) lunchAndTrain ->
      Obj.keys (categoryTotals lunchAndTrain)
      = distinct (map category lunchAndTrain)).
Proof.
  apply (categoryTotals_keys lunchAndTrain). reflexivity.
Defined.

(** ** The order of the slices *)

Section Order.

Context {V : Type}.

Definition byIndex (p q : string * V) : Prop :=
  (Obj.index_of (fst p) <= Obj.index_of (fst q))%N.

Lemma insert_by_index_In (p q : string * V) (l : list (string * V)) :
  In q (Obj.insert_by_index p l) -> q = p \/ In q l.
Proof.
  induction l as [|r l IH]; simpl.
  - intros [E|[]]. now left.
  - destruct (Obj.index_of (fst p) <=? Obj.index_of (fst r))%N.
    + intros [E|Hin]; [now left|now right].
    + intros [E|Hin]; [right; now left|].
      destruct (IH Hin) as [E|Hl]; [now left|right; now right].
Qed.

Lemma insert_by_index_sorted (p : string * V) (l : list (string * V)) :
  StronglySorted byIndex l -> StronglySorted byIndex (Obj.insert_by_index p l).
Proof.
  induction 1 as [|r l Hs IH Hr]; simpl.
  - constructor; constructor.
  - destruct (Obj.index_of (fst p) <=? Obj.index_of (fst r))%N eqn:E.
    + apply N.leb_le in E. constructor; [constructor; assumption|].
      constructor; [exact E|].
      rewrite Forall_forall in *. intros q Hq. specialize (Hr q Hq).
      unfold byIndex in *. lia.
    + apply N.leb_gt in E. constructor; [exact IH|].
      rewrite Forall_forall in *. intros q Hq.
      destruct (insert_by_index_In _ _ _ Hq) as [->|Hl].
      * unfold byIndex. lia.
      * apply Hr, Hl.
Qed.

Lemma sort_by_index_sorted (l : list (string * V)) :
  StronglySorted byIndex (Obj.sort_by_index l).
Proof.
  induction l as [|p l IH]; simpl.
  - constructor.
  - apply insert_by_index_sorted, IH.
Qed.

Lemma sort_by_index_In (p : string * V) (l : list (string * V)) :
  In p (Obj.sort_by_index l) <-> In p l.
Proof.
  split; apply Permutation_in;
    [|apply Permutation_sym]; apply ObjFacts.sort_by_index_perm.
Qed.

End Order.

Lemma chartData_names (es : list (Expense float)) :
  Permutation (map fst (chartData es)) (created (categoryTotals es)).
Proof.
  unfold chartData, created. rewrite map_map.
  rewrite (map_ext _ fst) by (intros [k v]; reflexivity).
  apply Permutation_map, ObjFacts.entries_perm.
Qed.

(** The rank of a chart name among the array indices. *)
Definition nameIndex (name : string) : N := Obj.index_of name.

(** X2: the slices of the chart are the distinct categories: first those
    that read as array indices, by ascending index, then the others in the
    order of their first occurrence among the expenses. *)
Theorem chartData_slice_order (es : list (Expense float)) :
  plain_categories es = true ->
  let names := map fst (chartData es) in
  Permutation names (distinct (map category es))
  /\ names = filter Obj.is_index names
              ++ filter (fun c => negb (Obj.is_index c))
                   (distinct (map category es))
  /\ StronglySorted (fun a b => (nameIndex a <= nameIndex b)%N)
       (filter Obj.is_index names).
Proof.
  intros _ names.
  pose proof (created_distinct es) as Hkeys.
  assert (Permutation names (distinct (map category es))) as Hperm.
  { rewrite <- Hkeys. apply chartData_names. }
  split; [exact Hperm|].
  set (o := categoryTotals es) in *.
  set (idx := Obj.sort_by_index (filter (fun p => Obj.is_index (fst p)) o)).
  set (rest := filter (fun p => negb (Obj.is_index (fst p))) o).
  assert (names = map fst idx ++ map fst rest) as Hnames.
  { unfold names, chartData. fold o. unfold Obj.entries. fold idx rest.
    rewrite map_map. rewrite (map_ext _ fst) by (intros [k v]; reflexivity).
    apply map_app. }
  assert (forall c, In c (map fst idx) -> Obj.is_index c = true) as Hidx.
  { intros c Hc. apply in_map_iff in Hc. destruct Hc as [p [<- Hp]].
    apply sort_by_index_In, filter_In in Hp. apply Hp. }
  assert (forall c, In c (map fst rest) -> Obj.is_index c = false) as Hrest.
  { intros c Hc. apply in_map_iff in Hc. destruct Hc as [p [<- Hp]].
    apply filter_In in Hp. destruct Hp as [_ Hp].
    now apply negb_true_iff in Hp. }
  assert (filter Obj.is_index names = map fst idx) as Hfilter.
  { rewrite Hnames, filter_app.
    rewrite (forallb_filter_id Obj.is_index (map fst idx)).
    - replace (filter Obj.is_index (map fst rest)) with (@nil string);
        [apply app_nil_r|].
      symmetry. clear -Hrest.
      induction (map fst rest) as [|c l IH]; simpl; [reflexivity|].
      rewrite (Hrest c) by now left. apply IH. intros; apply Hrest; now right.
    - apply forallb_forall. exact Hidx. }
  split.
  - rewrite Hfilter, Hnames. f_equal.
    rewrite <- Hkeys. unfold rest, created. clear.
    induction o as [|[k v] o IH]; simpl; [reflexivity|].
    destruct (Obj.is_index k); simpl; rewrite IH; reflexivity.
  - rewrite Hfilter. unfold idx.
    generalize (sort_by_index_sorted (filter (fun p => Obj.is_index (fst p)) o)).
    generalize (Obj.sort_by_index (filter (fun p => Obj.is_index (fst p)) o)).
    clear. intros l Hs. induction Hs as [|p l Hs IH Hp]; simpl; constructor.
    + exact IH.
    + rewrite Forall_forall in *. intros c Hc.
      apply in_map_iff in Hc. destruct Hc as [q [<- Hq]]. apply (Hp q Hq).
Qed.

(** A category named ["7"] overtakes the ones met before it. *)
Definition roomSeven : list (Expense float) :=
  [ Conservation.spend "Food" 12.5%float;
    Conservation.spend "7" 3%float;
    Conservation.spend "Food" 7.5%float ].

Lemma chartData_slice_order_witness :
  let names := map fst (chartData roomSeven) in
  Permutation names (distinct (map category roomSeven))
  /\ names = filter Obj.is_index names
              ++ filter (fun c => negb (Obj.is_index c))
                   (distinct (map category roomSeven))
  /\ StronglySorted (fun a b => (nameIndex a <= nameIndex b)%N)
       (filter Obj.is_index names).
Proof.
  apply (chartData_slice_order roomSeven). reflexivity.
Defined.

(** X3: the chart shows its placeholder exactly when there is no expense
    (for categories that are not names an object inherits), and exactly
    when the list, once loaded, shows its own. *)
Theorem ExpenseChart_empty_iff (es : list (Expense float)) :
  plain_categories es = true ->
  (ExpenseChart es = NoExpenses <-> es = [])
  /\ forall formatDate st,
       ExpenseList.render formatDate es false st = ExpenseList.NoExpensesYet
       <-> ExpenseChart es = NoExpenses.
Proof.
  intros _.
  assert (ExpenseChart es = NoExpenses <-> es = []) as Hiff.
  { pose proof (Permutation_length (chartData_names es)) as Hlen.
    rewrite created_distinct, length_map in Hlen.
    unfold ExpenseChart. split.
    - destruct (chartData es) eqn:E; [|discriminate]. intros _.
      destruct es as [|e es]; [reflexivity|]. simpl in Hlen. discriminate.
    - intros ->. reflexivity. }
  split; [exact Hiff|].
  intros formatDate st. rewrite Hiff. unfold ExpenseList.render.
  destruct es; split; try reflexivity; discriminate.
Qed.

Lemma ExpenseChart_empty_iff_witness :
  (ExpenseChart lunchAndTrain = NoExpenses <-> lunchAndTrain = [])
  /\ forall formatDate st,
       ExpenseList.render formatDate lunchAndTrain false st
       = ExpenseList.NoExpensesYet
       <-> ExpenseChart lunchAndTrain = NoExpenses.
Proof.
  apply (ExpenseChart_empty_iff lunchAndTrain). reflexivity.
Defined.

(** ** The cells *)

Lemma nth_error_cells {A B : Type} (f : nat * A -> B) (data : list A)
  (s k : nat) :
  nth_error (map f (combine (seq s (List.length data)) data)) k
  = option_map (fun d => f (s + k, d)%nat) (nth_error data k).
Proof.
  revert s k. induction data as [|d data IH]; intros s k; simpl.
  - destruct k; reflexivity.
  - destruct k as [|k]; simpl.
    + rewrite Nat.add_0_r. reflexivity.
    + rewrite IH. rewrite Nat.add_succ_r. reflexivity.
Qed.

(** X4: the cells of the pie are the entries of [chartData] in their order,
    the k-th coloured with the entry [k mod 5] of [COLORS]; so the colours
    repeat with period five. *)
Theorem ExpenseChart_cells (es : list (Expense float))
  (cells : list (string * float * string)) :
  ExpenseChart es = Pie cells ->
  map fst cells = chartData es
  /\ (forall k name value colour,
        nth_error cells k = Some (name, value, colour) ->
        nth_error COLORS (k mod 5) = Some colour)
  /\ (forall k c1 c2,
        nth_error cells k = Some c1 -> nth_error cells (k + 5) = Some c2 ->
        snd c1 = snd c2).
Proof.
  unfold ExpenseChart.
  destruct (chartData es) as [|d data] eqn:E; [discriminate|].
  rewrite <- E. clear E d data. intros [= <-].
  set (data := chartData es).
  set (f := fun '(index, (name, value)) => (name, value, cellColor index)).
  assert (forall k, nth_error (map f (combine (seq 0 (List.length data)) data)) k
                    = option_map (fun d => (fst d, snd d, cellColor k))
                        (nth_error data k)) as Hnth.
  { intros k. rewrite (nth_error_cells f data 0 k). simpl.
    destruct (nth_error data k) as [[name value]|]; reflexivity. }
  assert (forall k, nth_error COLORS (k mod 5) = Some (cellColor k)) as Hcol.
  { intros k. unfold cellColor. change (List.length COLORS) with 5%nat.
    apply nth_error_nth'. change (List.length COLORS) with 5%nat.
    apply Nat.mod_upper_bound. discriminate. }
  split; [|split].
  - apply nth_error_ext. intros k. rewrite nth_error_map, Hnth.
    destruct (nth_error data k) as [[name value]|]; reflexivity.
  - intros k name value colour Hk. rewrite Hnth in Hk.
    destruct (nth_error data k); [|discriminate].
    injection Hk as _ _ <-. apply Hcol.
  - intros k c1 c2 H1 H2. rewrite Hnth in H1, H2.
    destruct (nth_error data k); [|discriminate].
    destruct (nth_error data (k + 5)); [|discriminate].
    injection H1 as <-. injection H2 as <-. simpl.
    unfold cellColor. change (List.length COLORS) with 5%nat.
    replace (k + 5)%nat with (k + 1 * 5)%nat by lia.
    rewrite Nat.Div0.mod_add. reflexivity.
Qed.

Lemma ExpenseChart_cells_witness :
  exists cells,
    ExpenseChart lunchAndTrain = Pie cells
    /\ map fst cells = chartData lunchAndTrain
    /\ (forall k name value colour,
          nth_error cells k = Some (name, value, colour) ->
          nth_error COLORS (k mod 5) = Some colour)
    /\ (forall k c1 c2,
          nth_error cells k = Some c1 -> nth_error cells (k + 5) = Some c2 ->
          snd c1 = snd c2).
Proof.
  eexists. split; [vm_compute; reflexivity|].
  apply (ExpenseChart_cells lunchAndTrain). vm_compute. reflexivity.
Defined.

End ChartExtras.

(* ================================================================== *)
(** * The total of one category *)
(* ================================================================== *)

Module SumFacts.

Import FloatFacts.
Local Open Scope float_scope.
Local Unset Implicit Arguments.

Lemma ltb_0_leb (x : float) : (0 <? x) = true -> (0 <=? x) = true.
Proof.
  rewrite FloatAxioms.ltb_spec, FloatAxioms.leb_spec.
  change (Prim2SF 0) with (S754_zero false).
  unfold SFltb, SFleb.
  destruct (Prim2SF x) as [s|[|]| |[|] m e]; simpl; congruence.
Qed.

Lemma ltb_0_rank (x : float) :
  (0 <=? x) = true ->
  ((0 <? x) = true <-> (0 < Binary64.rank (Prim2SF x))%Z).
Proof.
  intros Hx. apply (Binary64.ltb_rank 0 x); [reflexivity|exact Hx].
Qed.

Lemma sumRank_pos (u : Z) : (0 < u -> 0 < Binary64.sumRank u)%Z.
Proof.
  intros Hu. unfold Binary64.sumRank.
  destruct (Z.eqb_spec u 0) as [E|_]; [lia|].
  pose proof Binary64.top_pos as Ht.
  assert (2 ^ Z.log2 u <= Binary64.rounded u)%Z as Hr.
  { unfold Binary64.rounded. apply Binary64.rne_ge_pow2.
    - unfold Binary64.excess. pose proof (Z.log2_nonneg u). lia.
    - apply Binary64.log2_bounds, Hu. }
  pose proof (Binary64.pow2_pos (Z.log2 u) (Z.log2_nonneg u)). lia.
Qed.

(** A sum of two non-negative numbers, one of them positive, is positive:
    rounding does not reach zero. *)
Lemma add_pos (x a : float) :
  (0 <=? x) = true -> (0 <=? a) = true ->
  (0 < Binary64.rank (Prim2SF x) + Binary64.rank (Prim2SF a))%Z ->
  (0 <? x + a) = true.
Proof.
  intros Hx Ha Hu. destruct (Binary64.add_rank x a Hx Ha) as [Hs Hr].
  apply ltb_0_rank; [exact Hs|]. rewrite Hr. apply sumRank_pos, Hu.
Qed.

(** The values a running sum takes: [+0] or a positive number (which may
    be [Infinity]), never [-0] or [NaN]. *)
Definition clean (s : float) : Prop := s = 0 \/ (0 <? s) = true.

Lemma clean_nonneg (s : float) : clean s -> (0 <=? s) = true.
Proof. intros [->|H]; [reflexivity|apply ltb_0_leb, H]. Qed.

Lemma nonneg_cases (a : float) :
  (0 <=? a) = true -> a = 0 \/ a = neg_zero \/ (0 <? a) = true.
Proof.
  rewrite FloatAxioms.leb_spec, FloatAxioms.ltb_spec.
  change (Prim2SF 0) with (S754_zero false). unfold SFltb, SFleb.
  destruct (Prim2SF a) as [s|[|]| |[|] m e] eqn:E; simpl; try discriminate;
    intros _; auto.
  apply zero_cases in E. destruct s; auto.
Qed.

Lemma add_clean (s a : float) :
  clean s -> (0 <=? a) = true -> clean (s + a).
Proof.
  intros Hs Ha. pose proof (clean_nonneg s Hs) as Hs0.
  pose proof (Binary64.rank_range _ (Prim2SF_valid s)) as Rs.
  pose proof (Binary64.rank_range _ (Prim2SF_valid a)) as Ra.
  destruct Hs as [->|Hs].
  - destruct (nonneg_cases a Ha) as [->|[->|Hp]].
    + left. reflexivity.
    + left. reflexivity.
    + right. apply add_pos; [reflexivity|exact Ha|].
      apply (ltb_0_rank a Ha) in Hp. lia.
  - right. apply add_pos; [exact Hs0|exact Ha|].
    apply (ltb_0_rank s Hs0) in Hs. lia.
Qed.

(** [s || 0] is [s] for such a value. *)
Lemma or_zero_clean (s : float) : clean s -> or_zero (Some s) = s.
Proof.
  intros [->|Hs]; [reflexivity|]. simpl. unfold JS.falsy.
  rewrite FloatAxioms.ltb_spec in Hs.
  change (Prim2SF 0) with (S754_zero false) in Hs. unfold SFltb in Hs.
  destruct (is_zero s) eqn:Hz.
  { apply is_zero_spec in Hz. destruct Hz as [z Hz]. rewrite Hz in Hs.
    destruct z; discriminate. }
  destruct (is_nan s) eqn:Hn; [|reflexivity].
  apply is_nan_spec in Hn. rewrite Hn in Hs. discriminate.
Qed.

Lemma fold_clean (l : list float) (s : float) :
  Forall (fun a => (0 <=? a) = true) l -> clean s ->
  clean (fold_left add l s).
Proof.
  intros Hl. revert s. induction Hl as [|a l Ha Hl IH]; intros s Hs; simpl.
  - exact Hs.
  - apply IH. apply add_clean; assumption.
Qed.

End SumFacts.

Module TotalsExtras.

Import ObjLookup SumFacts.
Local Open Scope float_scope.
Local Open Scope list_scope.
Local Unset Implicit Arguments.

Definition nonNegative (e : Expense float) : Prop := (0 <=? amount e) = true.

(** The expenses of one category, in their order. *)
Definition ofCategory (es : list (Expense float)) (c : string) :=
  filter (fun e => String.eqb (category e) c) es.

Lemma amounts_nonneg (es : list (Expense float)) :
  Forall nonNegative es -> Forall (fun a => (0 <=? a) = true) (map amount es).
Proof.
  induction 1; simpl; constructor; assumption.
Qed.

Lemma ofCategory_nonneg (es : list (Expense float)) (c : string) :
  Forall nonNegative es -> Forall nonNegative (ofCategory es c).
Proof.
  rewrite !Forall_forall. intros H e He. apply filter_In in He. apply H, He.
Qed.

Lemma categoryTotals_snoc (es : list (Expense float)) (e : Expense float) :
  categoryTotals (es ++ [e]) = categoryStep (categoryTotals es) e.
Proof.
  unfold categoryTotals. rewrite fold_left_app. reflexivity.
Qed.

(** X5: when no amount is negative or [NaN] (and no category is a name an
    object inherits), the total the chart keeps for a category is the sum
    of that category's amounts, added from [0] in the order of the
    expenses; a category no expense has is not a key.  So when every
    expense has the same category that total is the grand total, bit for
    bit. *)
Theorem category_total_is_ordered_sum (es : list (Expense float)) :
  plain_categories es = true ->
  Forall nonNegative es ->
  (forall c,
     Obj.get (categoryTotals es) c
     = match ofCategory es c with
       | [] => None
       | l => Some (sum (map amount l))
       end)
  /\ (forall c,
        es <> [] -> Forall (fun e => category e = c) es ->
        Obj.get (categoryTotals es) c = Some (grandTotal es)).
Proof.
  intros _ Hes.
  assert (forall c,
     Obj.get (categoryTotals es) c
     = match ofCategory es c with
       | [] => None
       | l => Some (sum (map amount l))
       end) as Hget.
  { induction es as [|e es IH] using rev_ind; intros c.
    - reflexivity.
    - apply Forall_app in Hes. destruct Hes as [Hes He].
      specialize (IH Hes). rewrite categoryTotals_snoc.
      unfold categoryStep, ofCategory. rewrite filter_app. simpl.
      fold (ofCategory es c).
      destruct (String.eqb (category e) c) eqn:E.
      + apply String.eqb_eq in E. subst c.
        rewrite get_set_same, (IH (category e)).
        pose proof (ofCategory_nonneg es (category e) Hes) as Hl.
        destruct (ofCategory es (category e)) as [|e0 l] eqn:El.
        * reflexivity.
        * rewrite or_zero_clean.
          2:{ apply fold_clean; [apply amounts_nonneg, Hl|now left]. }
          change ((e0 :: l) ++ [e]) with (e0 :: (l ++ [e])).
          cbv beta iota. f_equal. unfold sum. cbn [map fold_left].
          rewrite map_app, fold_left_app. reflexivity.
      + rewrite get_set_other, app_nil_r; [apply IH|].
        intros ->. rewrite String.eqb_refl in E. discriminate. }
  split; [exact Hget|].
  intros c Hne Hall. rewrite Hget.
  assert (ofCategory es c = es) as ->.
  { unfold ofCategory. apply forallb_filter_id, forallb_forall.
    rewrite Forall_forall in Hall. intros e He.
    apply String.eqb_eq, Hall, He. }
  destruct es; [congruence|reflexivity].
Qed.

Definition weekOfFood : list (Expense float) :=
  [ Conservation.spend "Food" 0.1;
    Conservation.spend "Food" 0.2;
    Conservation.spend "Food" 0.3 ].

Lemma category_total_is_ordered_sum_witness :
  (forall c,
     Obj.get (categoryTotals weekOfFood) c
     = match ofCategory weekOfFood c with
       | [] => None
       | l => Some (sum (map amount l))
       end)
  /\ (forall c,
        weekOfFood <> [] -> Forall (fun e => category e = c) weekOfFood ->
        Obj.get (categoryTotals weekOfFood) c = Some (grandTotal weekOfFood)).
Proof.
  apply (category_total_is_ordered_sum weekOfFood).
  - reflexivity.
  - repeat constructor.
Defined.

(** The totals stay between [0] and the running grand total. *)
Lemma fold_bounded (es : list (Expense float)) :
  Forall nonNegative es ->
  forall (acc : Obj.t float) (g : float),
    (0 <=? g) = true ->
    (forall k v, Obj.get acc k = Some v ->
                 (0 <=? v) = true /\ (v <=? g) = true) ->
    forall k v,
      Obj.get (fold_left categoryStep es acc) k = Some v ->
      (0 <=? v) = true /\ (v <=? fold_left add (map amount es) g) = true.
Proof.
  induction 1 as [|e es He Hes IH]; intros acc g Hg Hacc k v Hk.
  - apply (Hacc k v Hk).
  - cbn [fold_left map] in *.
    change (add g (amount e)) with (g + amount e).
    destruct (Binary64.add_rank g (amount e) Hg He) as [Hg' _].
    refine (IH (categoryStep acc e) (g + amount e) Hg' _ k v Hk).
    clear k v Hk IH. intros k v Hk. unfold categoryStep in Hk.
    destruct (String.eqb k (category e)) eqn:E.
    + apply String.eqb_eq in E. subst k. rewrite get_set_same in Hk.
      injection Hk as <-.
      set (z := or_zero (Obj.get acc (category e))).
      assert ((0 <=? z) = true /\ (z <=? g) = true) as [Hz Hzg].
      { unfold z. destruct (Obj.get acc (category e)) as [x|] eqn:Ex.
        - simpl. destruct (JS.falsy x).
          + split; [reflexivity|].
            apply Binary64.leb_rank; [reflexivity|exact Hg|].
            apply (Binary64.rank_range _ (Prim2SF_valid g)).
          + apply (Hacc _ _ Ex).
        - split; [reflexivity|].
          apply Binary64.leb_rank; [reflexivity|exact Hg|].
          apply (Binary64.rank_range _ (Prim2SF_valid g)). }
      change (add z (amount e)) with (z + amount e).
      split; [apply (Binary64.add_rank z (amount e) Hz He)|].
      apply Binary64.add_le_mono; try assumption.
      apply Binary64.leb_rank; [assumption|assumption|lia].
    + rewrite get_set_other in Hk.
      2:{ intros ->. rewrite String.eqb_refl in E. discriminate. }
      destruct (Hacc k v Hk) as [Hv Hvg]. split; [exact Hv|].
      apply Binary64.leb_trans with g; try assumption.
      apply Binary64.le_add_nonneg; assumption.
Qed.

(** X6: when no amount is negative or [NaN] (and no category is a name an
    object inherits), every total the chart keeps for a category is at
    least [0] and at most the grand total the dashboard shows, in the
    floating-point arithmetic of the program; and so is every value of
    [chartData] before its rounding to cents. *)
Theorem category_total_le_grand_total (es : list (Expense float)) :
  plain_categories es = true ->
  Forall nonNegative es ->
  (forall c v, Obj.get (categoryTotals es) c = Some v ->
               (0 <=? v) = true /\ (v <=? grandTotal es) = true)
  /\ (forall c v, In (c, v) (Obj.entries (categoryTotals es)) ->
                  (0 <=? v) = true /\ (v <=? grandTotal es) = true).
Proof.
  intros _ Hes.
  assert (forall c v, Obj.get (categoryTotals es) c = Some v ->
               (0 <=? v) = true /\ (v <=? grandTotal es) = true) as Hget.
  { intros c v Hc. unfold grandTotal, sum.
    refine (fold_bounded es Hes Obj.empty 0 eq_refl _ c v Hc).
    intros k x Hk. discriminate Hk. }
  split; [exact Hget|].
  intros c v Hin.
  apply (Permutation_in _ (ObjFacts.entries_perm (categoryTotals es))) in Hin.
  apply (Hget c).
  pose proof (ChartExtras.created_NoDup es) as Hnd.
  revert Hin Hnd. unfold created. generalize (categoryTotals es). clear.
  intros o. induction o as [|[k x] o IH]; simpl; [intros []|].
  intros [E|Hin] Hnd.
  - injection E as -> ->. rewrite String.eqb_refl. reflexivity.
  - inversion Hnd as [|? ? Hk Hnd']. subst.
    destruct (String.eqb c k) eqn:E.
    + apply String.eqb_eq in E. subst k. exfalso. apply Hk.
      change c with (fst (c, v)). apply in_map, Hin.
    + apply IH; assumption.
Qed.

Lemma category_total_le_grand_total_witness :
  (forall c v, Obj.get (categoryTotals weekOfFood) c = Some v ->
               (0 <=? v) = true /\ (v <=? grandTotal weekOfFood) = true)
  /\ (forall c v, In (c, v) (Obj.entries (categoryTotals weekOfFood)) ->
                  (0 <=? v) = true /\ (v <=? grandTotal weekOfFood) = true).
Proof.
  apply (category_total_le_grand_total weekOfFood).
  - reflexivity.
  - repeat constructor.
Defined.

End TotalsExtras.

(* ================================================================== *)
(** * What one render of the dashboard shows *)
(* ================================================================== *)

Module ViewExtras.

Import Dashboard FloatFacts LimitFacts SumFacts.
Local Open Scope float_scope.
Local Open Scope list_scope.
Local Unset Implicit Arguments.

Lemma ltb_not_nan (x y : float) : (x <? y) = true -> is_nan x = false.
Proof.
  intros H. destruct (is_nan x) eqn:Hn; [|reflexivity].
  apply is_nan_spec in Hn. rewrite FloatAxioms.ltb_spec, Hn in H.
  discriminate H.
Qed.

Lemma remaining_over_limit (p : Profile) (t : float) :
  (daily_limit p <? t) = true -> remaining (Some p) t = 0.
Proof.
  intros Hlt. unfold remaining.
  destruct (or_zero_limit p (ltb_not_nan _ _ Hlt)) as [E|[E Hz]]; rewrite E.
  - apply Math_max_0_sub_lt, Hlt.
  - rewrite Math_max_0_sub_zeros. rewrite Hz in Hlt.
    apply Math_max_0_sub_lt, Hlt.
Qed.

(** X7: whenever a render shows the limit alert, a profile is loaded,
    today's total compares greater than its limit, the alert quotes the
    two amounts of the limit card and of the today card, and the
    remaining card reads "0.00". *)
Theorem alert_means_nothing_remains (clock : Clock) (st : State) (a : Alert) :
  alert (render clock st) = Some a ->
  exists p,
    profile st = Some p
    /\ (daily_limit p <? todayTotal st) = true
    /\ alertLimit a = Some (dailyLimitText (render clock st))
    /\ alertToday a = todayText (render clock st)
    /\ JS.text (remainingText (render clock st)) = Some "0.00".
Proof.
  unfold render. cbn [alert dailyLimitText todayText remainingText].
  destruct (profile st) as [p|] eqn:Ep; [|discriminate].
  cbn [isOverLimit truthy option_map limitText].
  destruct (daily_limit p <? todayTotal st) eqn:Hlt; [|discriminate].
  intros [= <-]. exists p. repeat split; [exact Hlt|].
  rewrite (remaining_over_limit p _ Hlt). reflexivity.
Qed.

Definition overspent : State :=
  {| profile := Some {| daily_limit := 20; full_name := "" |};
     expenses := []; todayTotal := 25 |}.

Lemma alert_means_nothing_remains_witness :
  exists a,
    alert (render (steady "2024-01-01T08:00:00.000Z") overspent) = Some a
    /\ exists p,
         profile overspent = Some p
         /\ (daily_limit p <? todayTotal overspent) = true
         /\ alertLimit a
            = Some (dailyLimitText (render (steady "2024-01-01T08:00:00.000Z") overspent))
         /\ alertToday a
            = todayText (render (steady "2024-01-01T08:00:00.000Z") overspent)
         /\ JS.text (remainingText (render (steady "2024-01-01T08:00:00.000Z") overspent))
            = Some "0.00".
Proof.
  eexists. split; [reflexivity|].
  apply (alert_means_nothing_remains (steady "2024-01-01T08:00:00.000Z") overspent).
  reflexivity.
Defined.

(** ** The today card against the total card *)

Definition positive (e : Expense float) : Prop := (0 <? amount e) = true.

Lemma fold_pos (l : list float) (s : float) :
  Forall (fun a => (0 <? a) = true) l -> (0 <? s) = true ->
  (0 <? fold_left add l s) = true.
Proof.
  intros Hl. revert s. induction Hl as [|a l Ha Hl IH]; intros s Hs; simpl.
  - exact Hs.
  - apply IH. change (add s a) with (s + a).
    pose proof (ltb_0_leb s Hs) as Hs0. pose proof (ltb_0_leb a Ha) as Ha0.
    apply add_pos; try assumption.
    apply (ltb_0_rank s Hs0) in Hs. apply (ltb_0_rank a Ha0) in Ha. lia.
Qed.

Lemma sum_pos (l : list float) :
  l <> [] -> Forall (fun a => (0 <? a) = true) l -> (0 <? sum l) = true.
Proof.
  intros Hne Hl. destruct Hl as [|a l Ha Hl]; [congruence|].
  unfold sum. cbn [fold_left]. apply fold_pos; [exact Hl|].
  change (add zero a) with (0 + a).
  pose proof (ltb_0_leb a Ha) as Ha0.
  apply add_pos; [reflexivity|exact Ha0|].
  apply (ltb_0_rank a Ha0) in Ha. change (Binary64.rank (Prim2SF 0)) with 0%Z.
  lia.
Qed.

Lemma filter_length_all {A : Type} (f : A -> bool) (l : list A) :
  List.length (filter f l) = List.length l -> filter f l = l.
Proof.
  induction l as [|x l IH]; simpl; [reflexivity|].
  pose proof (filter_length_le f l) as Hle.
  destruct (f x); simpl; intros E.
  - f_equal. apply IH. lia.
  - lia.
Qed.

(** X8: in a display pass whose clock readings (the one of the effect and
    the one per expense of the count) all fall on the same date, with
    every amount positive: the today card counts no transaction exactly
    when the today total is zero; it never counts more transactions than
    the total card; and when it counts as many, the two cards show the
    same amount. *)
Theorem today_card_against_total_card
    (st : State) (now : string) (clock : Clock) :
  Forall positive (expenses st) ->
  (forall i, (i < List.length (expenses st))%nat ->
             isoDate (clock i) = isoDate now) ->
  let v := displayPass now clock st in
  (todayCount v = 0%nat <-> todayTotal (calculateTodayTotal now st) = 0)
  /\ (todayCount v <= totalCount v)%nat
  /\ (todayCount v = totalCount v -> todayText v = totalText v).
Proof.
  intros Hpos Hclock v. subst v.
  unfold displayPass, render, calculateTodayTotal.
  cbn [todayCount totalCount todayText totalText expenses todayTotal].
  rewrite (CountFacts.countedToday_same_date clock (isoDate now)
             (expenses st) 0 Hclock).
  unfold todayExpenses.
  set (today := filter (fun exp => String.eqb (date exp) (isoDate now))
                       (expenses st)).
  split; [|split].
  - split.
    + intros E. apply length_zero_iff_nil in E. rewrite E. reflexivity.
    + intros E. destruct today as [|e l] eqn:Et; [reflexivity|].
      assert ((0 <? sum (map amount (e :: l))) = true) as Hs.
      { apply sum_pos; [discriminate|].
        rewrite <- Et. unfold today. clear -Hpos.
        rewrite Forall_forall in *. intros a Ha.
        apply in_map_iff in Ha. destruct Ha as [x [<- Hx]].
        apply filter_In in Hx. apply Hpos, Hx. }
      rewrite E in Hs. discriminate Hs.
  - apply filter_length_le.
  - intros E. unfold today in *. apply filter_length_all in E.
    rewrite E. reflexivity.
Qed.

Definition twoCoffees : State :=
  {| profile := None;
     expenses :=
       [ {| id := "a"; category := "Food"; amount := 3.5; description := "";
            date := "2024-01-01" |};
         {| id := "b"; category := "Food"; amount := 3.5; description := "";
            date := "2023-12-31" |} ];
     todayTotal := 0 |}.

Lemma today_card_against_total_card_witness :
  let v := displayPass "2024-01-01T08:00:00.000Z"
             (steady "2024-01-01T08:00:00.020Z") twoCoffees in
  (todayCount v = 0%nat
   <-> todayTotal (calculateTodayTotal "2024-01-01T08:00:00.000Z" twoCoffees) = 0)
  /\ (todayCount v <= totalCount v)%nat
  /\ (todayCount v = totalCount v -> todayText v = totalText v).
Proof.
  apply (today_card_against_total_card twoCoffees
           "2024-01-01T08:00:00.000Z" (steady "2024-01-01T08:00:00.020Z")).
  - repeat constructor.
  - intros i _. reflexivity.
Defined.

End ViewExtras.

(* ================================================================== *)
(** * The effects of one submission *)
(* ================================================================== *)

Module SubmitExtras.

Import ExpenseForm.
Local Open Scope float_scope.
Local Open Scope list_scope.
Local Unset Implicit Arguments.

(** The toasts among the effects, each with its variant. *)
Definition toasts (evs : list event) : list (string * string * bool) :=
  flat_map (fun ev => match ev with
                      | Toast title text destructive =>
                          [(title, text, destructive)]
                      | _ => []
                      end) evs.

(** The effects when the one check of each key fails first. *)
Definition rejected (m : string) : list event :=
  [ PreventDefault; Toast "Validation Error" m true; SetLoading false ].

Section Submission.

Variable parseFloat : string -> float.
Variable user : option string.
Variable insertError : Row -> option string.

Abbreviation handleSubmit := (handleSubmit parseFloat user insertError).
Abbreviation inserted := (inserted parseFloat user insertError).
Abbreviation input := (FormClaims.input parseFloat).
Abbreviation wellFormed := (FormClaims.wellFormed parseFloat).

(** The row of a submission by [user_id]. *)
Definition rowOf (user_id : string) (f : Fields) : Row :=
  {| row_user_id := user_id;
     row_category := category f;
     row_amount := parseFloat (amount f);
     row_description := or_null (description f);
     row_date := date f |}.

(** The three ways a submission that passes validation goes on. *)
Lemma handleSubmit_valid (f : Fields) :
  expenseSchema (input f) = [] ->
  handleSubmit f
  = PreventDefault :: SetLoading true ::
    match user with
    | None =>
        [ Toast "Error" "You must be logged in to add expenses" true;
          SetLoading false ]
    | Some user_id =>
        Insert (rowOf user_id f) ::
        match insertError (rowOf user_id f) with
        | Some error => [ Toast "Error" error true; SetLoading false ]
        | None =>
            [ Toast "Success" "Expense added successfully" false;
              OnSuccess; SetLoading false ]
        end
    end.
Proof.
  intros Hok. unfold ExpenseForm.handleSubmit, parse.
  fold (input f). rewrite Hok. reflexivity.
Qed.

Lemma handleSubmit_invalid (f : Fields) (i : issue) (errors : list issue) :
  expenseSchema (input f) = i :: errors ->
  handleSubmit f = rejected (message i).
Proof.
  intros Hbad. unfold ExpenseForm.handleSubmit, parse.
  fold (input f). rewrite Hbad. reflexivity.
Qed.

Ltac submission f :=
  let Hs := fresh "Hs" in
  let E := fresh "E" in
  destruct (expenseSchema (input f)) as [|? ?] eqn:Hs;
  [ rewrite (handleSubmit_valid f Hs);
    destruct user as [user_id|];
    [ destruct (insertError (rowOf user_id f)) as [error|] eqn:E | ]
  | rewrite (handleSubmit_invalid f _ _ Hs) ].

(** X9: every submission first prevents the browser's default, switches
    the loading flag off last, and shows exactly one toast on the way;
    at most one row is sent to storage. *)
Theorem handleSubmit_frame (f : Fields) :
  hd_error (handleSubmit f) = Some PreventDefault
  /\ last (handleSubmit f) PreventDefault = SetLoading false
  /\ List.length (toasts (handleSubmit f)) = 1%nat
  /\ (List.length (inserted f) <= 1)%nat.
Proof.
  unfold ExpenseForm.inserted.
  submission f; repeat split; simpl; lia.
Qed.

(** X10: a row is sent to storage exactly when the fields pass every
    check and a user is signed in; the row then carries that user's id,
    the category and date typed, the amount [parseFloat] read and the
    description, or null for an empty one. *)
Theorem insert_iff_valid_and_signed_in (f : Fields) :
  (inserted f <> [] <-> wellFormed f /\ user <> None)
  /\ (forall row, In row (inserted f) ->
        exists user_id, user = Some user_id /\ row = rowOf user_id f).
Proof.
  unfold ExpenseForm.inserted.
  pose proof (FormClaims.expenseSchema_accepts parseFloat f) as Hacc.
  submission f; simpl; split.
  - split; [intros _|discriminate].
    split; [now apply Hacc|discriminate].
  - intros row [<-|[]]. exists user_id. split; reflexivity.
  - split; [intros _|discriminate].
    split; [now apply Hacc|discriminate].
  - intros row [<-|[]]. exists user_id. split; reflexivity.
  - split; [congruence|]. intros [_ H]. congruence.
  - intros row [].
  - split; [congruence|]. intros [H _]. apply Hacc in H. discriminate H.
  - intros row [].
Qed.

(** X11: every row sent to storage has a category and a date that are not
    empty, an amount that is a positive number, and a description that is
    null or has between 1 and 500 characters. *)
Theorem inserted_row_invariant (f : Fields) (row : Row) :
  In row (inserted f) ->
  row_category row <> ""
  /\ (0 <? row_amount row) = true
  /\ is_nan (row_amount row) = false
  /\ row_date row <> ""
  /\ match row_description row with
     | None => True
     | Some d => (1 <= String.length d <= 500)%nat
     end.
Proof.
  intros Hin.
  assert (wellFormed f /\ exists user_id, row = rowOf user_id f) as [Hw Hrow].
  { unfold ExpenseForm.inserted in Hin.
    pose proof (FormClaims.expenseSchema_accepts parseFloat f) as Hacc.
    revert Hin. submission f; simpl; try tauto.
    - intros [<-|[]]. split; [now apply Hacc|now exists user_id].
    - intros [<-|[]]. split; [now apply Hacc|now exists user_id]. }
  destruct Hrow as [user_id ->]. destruct Hw as (Hc & Hp & Hd & Ht).
  simpl. repeat split; try assumption.
  - destruct (is_nan (parseFloat (amount f))) eqn:Hn; [|reflexivity].
    apply FloatFacts.is_nan_spec in Hn.
    rewrite FloatAxioms.ltb_spec, Hn in Hp. discriminate Hp.
  - destruct (description f) as [|c d]; simpl; [exact I|].
    simpl in Hd. lia.
Qed.

(** X12: [onSuccess] is called exactly when a row was sent and storage
    reported no error, and exactly when the one toast shown is not the
    destructive one. *)
Theorem onSuccess_iff_stored (f : Fields) :
  (In OnSuccess (handleSubmit f)
   <-> exists row, inserted f = [row] /\ insertError row = None)
  /\ (In OnSuccess (handleSubmit f)
      <-> toasts (handleSubmit f)
          = [("Success", "Expense added successfully", false)])
  /\ (~ In OnSuccess (handleSubmit f)
      <-> exists title text, toasts (handleSubmit f) = [(title, text, true)]).
Proof.
  unfold ExpenseForm.inserted.
  submission f; simpl; (split; [|split]).
  - split; [intuition discriminate|].
    intros [row [[= <-] Hr]]. congruence.
  - split; [intuition discriminate|discriminate].
  - split; [intros _; eauto|intros _; intuition discriminate].
  - split; [intros _|intuition].
    exists (rowOf user_id f). split; [reflexivity|exact E].
  - split; [reflexivity|intuition].
  - split; [intros H; exfalso; apply H; intuition|].
    intros [title [text [=]]].
  - split; [intuition discriminate|]. intros [row [[=] _]].
  - split; [intuition discriminate|discriminate].
  - split; [intros _; eauto|intros _; intuition discriminate].
  - split; [intuition discriminate|]. intros [row [[=] _]].
  - split; [intuition discriminate|discriminate].
  - split; [intros _; eauto|intros _; intuition discriminate].
Qed.

(** X13: when a field fails its check, the toast carries the message of
    the first failing check in the order category, amount, description,
    date, and nothing else happens. *)
Theorem first_failing_check_is_reported (f : Fields) :
  (category f = "" ->
   handleSubmit f = rejected "Category is required")
  /\ (category f <> "" -> is_nan (parseFloat (amount f)) = true ->
      handleSubmit f = rejected "Expected number, received nan")
  /\ (category f <> "" -> is_nan (parseFloat (amount f)) = false ->
      (0 <? parseFloat (amount f)) = false ->
      handleSubmit f = rejected "Amount must be positive")
  /\ (category f <> "" -> (0 <? parseFloat (amount f)) = true ->
      (500 < String.length (description f))%nat ->
      handleSubmit f = rejected "Description too long")
  /\ (category f <> "" -> (0 <? parseFloat (amount f)) = true ->
      (String.length (description f) <= 500)%nat -> date f = "" ->
      handleSubmit f = rejected "Date is required").
Proof.
  assert (forall x y : float, (x <? y) = true -> is_nan y = false) as Hnan.
  { intros x y H. destruct (is_nan y) eqn:Hn; [|reflexivity].
    apply FloatFacts.is_nan_spec in Hn.
    rewrite FloatAxioms.ltb_spec, Hn in H.
    unfold SFltb in H. destruct (Prim2SF x) as [?|?| |? ? ?]; discriminate H. }
  unfold ExpenseForm.handleSubmit, parse, expenseSchema. cbn [in_category
    in_amount in_description in_date].
  repeat split.
  - intros ->. reflexivity.
  - intros Hc Hn. destruct (category f); [congruence|].
    rewrite Hn. reflexivity.
  - intros Hc Hn Hp. destruct (category f); [congruence|].
    rewrite Hn, Hp. reflexivity.
  - intros Hc Hp Hd. destruct (category f); [congruence|].
    rewrite (Hnan _ _ Hp), Hp.
    apply Nat.leb_gt in Hd. rewrite Hd. reflexivity.
  - intros Hc Hp Hd Ht. destruct (category f); [congruence|].
    rewrite (Hnan _ _ Hp), Hp.
    apply Nat.leb_le in Hd. rewrite Hd, Ht. reflexivity.
Qed.

(** X14: a row is sent to storage only between the switching on of the
    loading flag and its switching off, and before any toast and before
    [onSuccess]. *)
Theorem insert_is_inside_loading
    (f : Fields) (before after : list event) (row : Row) :
  handleSubmit f = before ++ Insert row :: after ->
  before = [ PreventDefault; SetLoading true ]
  /\ last after PreventDefault = SetLoading false
  /\ toasts before = []
  /\ ~ In OnSuccess before
  /\ forall r, ~ In (Insert r) after.
Proof.
  assert (forall (tail : list event) r0,
            (forall r, ~ In (Insert r) tail) ->
            PreventDefault :: SetLoading true :: Insert r0 :: tail
            = before ++ Insert row :: after ->
            before = [ PreventDefault; SetLoading true ] /\ after = tail)
    as Hsplit.
  { intros tail r0 Htail H.
    destruct before as [|b0 before]; [discriminate H|].
    injection H as <- H.
    destruct before as [|b1 before]; [discriminate H|].
    injection H as <- H.
    destruct before as [|b2 before].
    - injection H as _ <-. split; reflexivity.
    - injection H as _ H. exfalso. apply (Htail row).
      rewrite H. apply in_or_app. right. left. reflexivity. }
  submission f; intros H.
  - apply Hsplit in H.
    + destruct H as [-> ->]. repeat split; simpl; try tauto.
      * intros [?|[?|[]]]; discriminate.
      * intros r [?|[?|[]]]; discriminate.
    + intros r [?|[?|[]]]; discriminate.
  - apply Hsplit in H.
    + destruct H as [-> ->]. repeat split; simpl; try tauto.
      * intros [?|[?|[]]]; discriminate.
      * intros r [?|[?|[?|[]]]]; discriminate.
    + intros r [?|[?|[?|[]]]]; discriminate.
  - exfalso.
    assert (In (Insert row) (before ++ Insert row :: after)) as Hin
      by (apply in_or_app; right; left; reflexivity).
    rewrite <- H in Hin. simpl in Hin.
    destruct Hin as [?|[?|[?|[?|[]]]]]; discriminate.
  - exfalso.
    assert (In (Insert row) (before ++ Insert row :: after)) as Hin
      by (apply in_or_app; right; left; reflexivity).
    rewrite <- H in Hin. simpl in Hin.
    destruct Hin as [?|[?|[?|[]]]]; discriminate.
Qed.

End Submission.

Definition lunchForm : Fields :=
  {| category := "Food"; amount := "5"; description := "";
     date := "2024-01-02" |}.

Definition noStorageError (_ : Row) : option string := None.

Lemma inserted_row_invariant_witness :
  let row := rowOf FormClaims.parseFloat5 "u1" lunchForm in
  row_category row <> ""
  /\ (0 <? row_amount row) = true
  /\ is_nan (row_amount row) = false
  /\ row_date row <> ""
  /\ match row_description row with
     | None => True
     | Some d => (1 <= String.length d <= 500)%nat
     end.
Proof.
  apply (inserted_row_invariant FormClaims.parseFloat5 (Some "u1")
           noStorageError lunchForm).
  left. reflexivity.
Defined.

Lemma insert_is_inside_loading_witness :
  let before := [ PreventDefault; SetLoading true ] in
  let after := [ Toast "Success" "Expense added successfully" false;
                 OnSuccess; SetLoading false ] in
  before = [ PreventDefault; SetLoading true ]
  /\ last after PreventDefault = SetLoading false
  /\ toasts before = []
  /\ ~ In OnSuccess before
  /\ forall r, ~ In (Insert r) after.
Proof.
  apply (insert_is_inside_loading FormClaims.parseFloat5 (Some "u1")
           noStorageError lunchForm
           [ PreventDefault; SetLoading true ]
           [ Toast "Success" "Expense added successfully" false;
             OnSuccess; SetLoading false ]
           (rowOf FormClaims.parseFloat5 "u1" lunchForm)).
  reflexivity.
Defined.

End SubmitExtras.

(* ================================================================== *)
(** * Removing an expense from the list *)
(* ================================================================== *)

Module ListExtras.

Import ExpenseList.
Local Open Scope list_scope.
Local Unset Implicit Arguments.

(** The toasts among the effects, each with its variant. *)
Definition toasts (evs : list event) : list (string * string * bool) :=
  flat_map (fun ev => match ev with
                      | Toast title text destructive =>
                          [(title, text, destructive)]
                      | _ => []
                      end) evs.

Lemma list_run_app (evs1 evs2 : list event) (st : State) :
  run (evs1 ++ evs2) st = run evs2 (run evs1 st).
Proof. apply fold_left_app. Qed.

Section Removal.

Variable deleteError : string -> bool.

Abbreviation handleDelete := (handleDelete deleteError).

Lemma handleDelete_pending (st : State) (id : string) :
  deleteId st = Some id -> id <> "" ->
  handleDelete st
  = SetDeleting true :: Delete id ::
    (if deleteError id
     then [ Toast "Error" "Failed to delete expense" true ]
     else [ Toast "Success" "Expense deleted successfully" false; OnUpdate ])
    ++ [ SetDeleting false; SetDeleteId None ].
Proof.
  intros E Hid. unfold ExpenseList.handleDelete. rewrite E. simpl.
  destruct (String.eqb id "") eqn:Eid; [|reflexivity].
  apply String.eqb_eq in Eid. contradiction.
Qed.

Lemma handleDelete_idle (st : State) :
  truthyId (deleteId st) = false -> handleDelete st = [].
Proof.
  intros E. unfold ExpenseList.handleDelete. rewrite E. reflexivity.
Qed.

Lemma truthyId_cases (st : State) :
  (truthyId (deleteId st) = false)
  \/ exists id, deleteId st = Some id /\ id <> "".
Proof.
  unfold truthyId. destruct (deleteId st) as [id|]; [|now left].
  destruct (String.eqb id "") eqn:E; [now left|right].
  exists id. split; [reflexivity|]. intros ->. discriminate E.
Qed.

(** X15: confirming the dialog asks the storage to remove exactly the id
    that is pending, once, and nothing when no id or the empty id is
    pending; [onUpdate] is called exactly when the storage reports no
    error, one toast is shown per removal asked for, and afterwards the
    dialog is closed and the buttons are enabled again. *)
Theorem handleDelete_outcome (st : State) :
  let evs := handleDelete st in
  deleted evs
  = match deleteId st with
    | Some id => if String.eqb id "" then [] else [id]
    | None => []
    end
  /\ (In OnUpdate evs <-> exists id, deleted evs = [id] /\ deleteError id = false)
  /\ List.length (toasts evs) = List.length (deleted evs)
  /\ truthyId (deleteId (run evs st)) = false
  /\ (deleted evs <> [] -> deleting (run evs st) = false)
  /\ (deleted evs = [] -> run evs st = st).
Proof.
  intros evs. subst evs.
  destruct (truthyId_cases st) as [Hidle|[i [Ei Hi]]].
  - rewrite (handleDelete_idle st Hidle). simpl.
    repeat split; try tauto; try congruence.
    + unfold truthyId in Hidle. destruct (deleteId st) as [i|]; [|reflexivity].
      destruct (String.eqb i ""); [reflexivity|discriminate].
    + intros [i [H _]]. discriminate H.
  - rewrite (handleDelete_pending st i Ei Hi). rewrite Ei.
    assert (String.eqb i "" = false) as ->.
    { destruct (String.eqb i "") eqn:E; [|reflexivity].
      apply String.eqb_eq in E. contradiction. }
    destruct (deleteError i) eqn:Ed; simpl; repeat split;
      try reflexivity; try discriminate.
    + intuition discriminate.
    + intros [j [[= <-] H]]. congruence.
    + intros _. exists i. split; [reflexivity|exact Ed].
    + intuition.
Qed.

(** X16: whatever rows had their trash button clicked before, confirming
    removes the expense of the last click and no other; and after the
    dialog is dismissed, confirming removes nothing. *)
Theorem confirm_removes_last_clicked
    (clicks : list (Expense float)) (e : Expense float) (st : State) :
  let st1 := run (flat_map clickTrash (clicks ++ [e])) st in
  deleteId st1 = Some (id e)
  /\ deleted (handleDelete st1) = (if String.eqb (id e) "" then [] else [id e])
  /\ handleDelete (run onOpenChange st1) = [].
Proof.
  intros st1.
  assert (deleteId st1 = Some (id e)) as E.
  { unfold st1. rewrite flat_map_app, list_run_app. reflexivity. }
  split; [exact E|]. split; [|reflexivity].
  destruct (truthyId_cases st1) as [Hidle|[i [Ei Hi]]].
  - rewrite (handleDelete_idle st1 Hidle).
    rewrite E in Hidle. simpl in Hidle.
    apply negb_false_iff in Hidle. rewrite Hidle. reflexivity.
  - rewrite (handleDelete_pending st1 i Ei Hi).
    rewrite E in Ei. injection Ei as <-.
    destruct (String.eqb (id e) "") eqn:Eid.
    + apply String.eqb_eq in Eid. contradiction.
    + destruct (deleteError (id e)); reflexivity.
Qed.

End Removal.

End ListExtras.

(* ================================================================== *)
(** * Loading and reloading the dashboard's data *)
(* ================================================================== *)

Module FlowExtras.

Import DashboardFlow.
Local Open Scope float_scope.
Local Open Scope list_scope.
Local Unset Implicit Arguments.

Lemma flow_run_app (evs1 evs2 : list event) (st : State) :
  run (evs1 ++ evs2) st = run evs2 (run evs1 st).
Proof. apply fold_left_app. Qed.

(** The ways two runs of effects can be interleaved. *)
Inductive interleaved : list event -> list event -> list event -> Prop :=
| BothDone : interleaved [] [] []
| LeftFirst (ev : event) (l1 l2 l : list event) :
    interleaved l1 l2 l -> interleaved (ev :: l1) l2 (ev :: l)
| RightFirst (ev : event) (l1 l2 l : list event) :
    interleaved l1 l2 l -> interleaved l1 (ev :: l2) (ev :: l).

(** Two effects that can be swapped. *)
Definition commute (a b : event) : Prop :=
  forall st, apply a (apply b st) = apply b (apply a st).

Lemma run_commute (a : event) (l : list event) :
  Forall (commute a) l ->
  forall st, run l (apply a st) = apply a (run l st).
Proof.
  induction 1 as [|b l Hb Hl IH]; intros st; [reflexivity|].
  simpl. rewrite <- Hb. apply IH.
Qed.

(** Runs of effects that commute pairwise end in the same state however
    they are interleaved. *)
Lemma interleaved_run (l1 l2 l : list event) :
  interleaved l1 l2 l ->
  Forall (fun a => Forall (commute a) l2) l1 ->
  forall st, run l st = run (l1 ++ l2) st.
Proof.
  induction 1 as [|ev l1 l2 l Hl IH|ev l1 l2 l Hl IH]; intros Hc st.
  - reflexivity.
  - inversion Hc; subst. simpl. apply IH. assumption.
  - assert (Forall (fun a => Forall (commute a) l2) l1) as Hc2.
    { clear -Hc. induction Hc as [|a l1 Ha Hl1 IH1]; constructor.
      - inversion Ha; assumption.
      - exact IH1. }
    assert (Forall (commute ev) l1) as Hev.
    { clear -Hc. induction Hc as [|a l1 Ha Hl1 IH1]; constructor.
      - inversion Ha as [|? ? Hae _]; subst. intros st. symmetry. apply Hae.
      - exact IH1. }
    change (run (ev :: l) st) with (run l (apply ev st)).
    rewrite (IH Hc2), !flow_run_app.
    change (run (ev :: l2) (run l1 st)) with (run l2 (apply ev (run l1 st))).
    rewrite (run_commute ev l1 Hev). reflexivity.
Qed.

Section Loading.

Variable user : option string.
Variable profileOf : string -> answer Profile.
Variable expensesOf : string -> answer (option (list (Expense float))).

Abbreviation fetchProfile := (fetchProfile user profileOf).
Abbreviation fetchExpenses := (fetchExpenses user expensesOf).
Abbreviation mount := (mount user profileOf expensesOf).
Abbreviation handleExpenseAdded := (handleExpenseAdded user expensesOf).

(** X17: the two loads of the mount effect write different parts of the
    state: however their effects are interleaved, the state they leave is
    the one of running [fetchProfile] and then [fetchExpenses]. *)
Theorem mount_interleaving (evs : list event) (st : State) :
  interleaved fetchProfile fetchExpenses evs ->
  run evs st = run mount st.
Proof.
  intros Hevs. apply (interleaved_run _ _ _ Hevs).
  unfold DashboardFlow.fetchProfile, DashboardFlow.fetchExpenses.
  destruct user as [user_id|]; [|constructor].
  destruct (profileOf user_id) as [p|], (expensesOf user_id) as [data|];
    repeat constructor; intros s; reflexivity.
Qed.

Lemma fetchExpenses_frame (st : State) :
  Dashboard.profile (core (run fetchExpenses st)) = Dashboard.profile (core st)
  /\ Dashboard.todayTotal (core (run fetchExpenses st))
     = Dashboard.todayTotal (core st)
  /\ showExpenseForm (run fetchExpenses st) = showExpenseForm st.
Proof.
  unfold DashboardFlow.fetchExpenses.
  destruct user as [user_id|]; [|repeat split].
  destruct (expensesOf user_id) as [[es|]|]; repeat split.
Qed.

(** X18: [fetchExpenses] leaves the profile, today's total and the form
    as they are; it replaces the expenses by the storage's answer ([[]]
    for a null one) and keeps them on an error, with a destructive toast;
    it ends with the loading flag off exactly when a user is signed in,
    so that without one the list keeps showing that it is loading. *)
Theorem fetchExpenses_outcome (st : State) :
  let st' := run fetchExpenses st in
  Dashboard.profile (core st') = Dashboard.profile (core st)
  /\ Dashboard.todayTotal (core st') = Dashboard.todayTotal (core st)
  /\ showExpenseForm st' = showExpenseForm st
  /\ Dashboard.expenses (core st')
     = match user with
       | None => Dashboard.expenses (core st)
       | Some user_id =>
           match expensesOf user_id with
           | Error => Dashboard.expenses (core st)
           | Data None => []
           | Data (Some es) => es
           end
       end
  /\ (loading st' = false <-> user <> None)
  /\ (user = None ->
      forall formatDate list,
        ExpenseList.render formatDate (Dashboard.expenses (core st'))
          (loading st') list
        = ExpenseList.LoadingExpenses)
  /\ (In (Toast "Error" "Failed to load expenses" true) fetchExpenses
      <-> exists user_id, user = Some user_id /\ expensesOf user_id = Error).
Proof.
  intros st'. subst st'. unfold DashboardFlow.fetchExpenses.
  destruct user as [user_id|].
  - destruct (expensesOf user_id) as [[es|]|] eqn:E; simpl;
      repeat split; try congruence; try discriminate.
    + intuition discriminate.
    + intros [u [[= <-] H]]. congruence.
    + intuition discriminate.
    + intros [u [[= <-] H]]. congruence.
    + intros _. exists user_id. split; [reflexivity|exact E].
    + intuition.
  - simpl. repeat split; try congruence; try discriminate.
    + intuition discriminate.
    + intros [u [H _]]. discriminate H.
Qed.

(** X19: the mount effect sets the profile exactly when a user is signed
    in and the storage answers with their row; otherwise the profile
    stays as it was, so that from the initial state no alert is shown,
    whatever the expenses loaded and whatever today's total becomes. *)
Theorem mount_profile (now : string) (clock : Dashboard.Clock) :
  let st1 := run mount initial in
  let st2 := run (calculateTodayTotal now st1) st1 in
  Dashboard.profile (core st2)
  = match user with
    | None => None
    | Some user_id =>
        match profileOf user_id with Data p => Some p | Error => None end
    end
  /\ (Dashboard.profile (core st2) = None ->
      Dashboard.alert (Dashboard.render clock (core st2)) = None
      /\ JS.text (Dashboard.dailyLimitText (Dashboard.render clock (core st2)))
         = Some "0.00")
  /\ Dashboard.todayTotal (core st2)
     = todayTotalOn (Dashboard.expenses (core st1)) (isoDate now).
Proof.
  intros st1 st2.
  assert (Dashboard.profile (core st2) = Dashboard.profile (core st1)) as E2
    by reflexivity.
  assert (Dashboard.profile (core st1)
          = match user with
            | None => None
            | Some user_id =>
                match profileOf user_id with Data p => Some p | Error => None end
            end) as E1.
  { unfold st1, DashboardFlow.mount. rewrite flow_run_app.
    destruct (fetchExpenses_frame (run fetchProfile initial)) as [-> _].
    unfold DashboardFlow.fetchProfile.
    destruct user as [user_id|]; [|reflexivity].
    destruct (profileOf user_id); reflexivity. }
  split; [rewrite E2; exact E1|]. split; [|reflexivity].
  intros Hnone. unfold Dashboard.render.
  cbn [Dashboard.alert Dashboard.dailyLimitText]. rewrite Hnone.
  split; reflexivity.
Qed.

Section Form.

Variable parseFloat : string -> float.
Variable insertError : ExpenseForm.Row -> option string.

(** X20: the dashboard reacts to a submission of the form only when a row
    was stored without error: it then hides the form and reloads the
    expenses from the storage, ending with the loading flag off; after any
    other submission its state is untouched.  (The form and the dashboard
    ask the same session for the user.) *)
Theorem submission_reloads_iff_stored (f : ExpenseForm.Fields) (st : State) :
  let evs := ExpenseForm.handleSubmit parseFloat user insertError f in
  let st' := run (onSubmitted user expensesOf evs) st in
  (In ExpenseForm.OnSuccess evs ->
   st' = run handleExpenseAdded st
   /\ showExpenseForm st' = false /\ loading st' = false)
  /\ (~ In ExpenseForm.OnSuccess evs -> st' = st).
Proof.
  intros evs st'. subst evs st'.
  unfold ExpenseForm.handleSubmit.
  destruct (ExpenseForm.parse _) as [validated|errors].
  2:{ simpl. split; [intuition discriminate|reflexivity]. }
  destruct user as [user_id|] eqn:Eu.
  2:{ simpl. split; [intuition discriminate|reflexivity]. }
  destruct (insertError _).
  { simpl. split; [intuition discriminate|reflexivity]. }
  split.
  - intros _. cbn [onSubmitted flat_map]. rewrite app_nil_r.
    split; [reflexivity|].
    unfold DashboardFlow.handleExpenseAdded, DashboardFlow.fetchExpenses.
    destruct (expensesOf user_id) as [[es|]|]; split; reflexivity.
  - intros H. exfalso. apply H. simpl. intuition.
Qed.

End Form.

Section List.

Variable deleteError : string -> bool.

(** X21: the dashboard reloads the expenses after a confirmation in the
    list exactly when the storage removed the expense without error;
    otherwise its state is untouched; and it never changes whether the
    form is shown. *)
Theorem removal_reloads_iff_removed
    (list : ExpenseList.State) (st : State) :
  let evs := ExpenseList.handleDelete deleteError list in
  let st' := run (onDeleted user expensesOf evs) st in
  (In ExpenseList.OnUpdate evs -> st' = run fetchExpenses st)
  /\ (~ In ExpenseList.OnUpdate evs -> st' = st)
  /\ showExpenseForm st' = showExpenseForm st.
Proof.
  intros evs st'. subst evs st'. unfold ExpenseList.handleDelete.
  destruct (ExpenseList.truthyId (ExpenseList.deleteId list)).
  2:{ simpl. repeat split; tauto. }
  destruct (ExpenseList.deleteId list) as [i|].
  2:{ simpl. repeat split; tauto. }
  destruct (deleteError i).
  { simpl. repeat split; intuition discriminate. }
  cbn [onDeleted flat_map app]. rewrite app_nil_r.
  split; [reflexivity|]. split.
  - intros H. exfalso. apply H. simpl. intuition.
  - apply (fetchExpenses_frame st).
Qed.

End List.

End Loading.

Lemma mount_interleaving_witness :
  let user := Some "u1" in
  let profileOf := fun _ : string =>
    Data {| daily_limit := 20; full_name := "" |} in
  let expensesOf := fun _ : string =>
    @Data (option (list (Expense float))) None in
  run [ SetLoading true;
        SetProfile {| daily_limit := 20; full_name := "" |};
        SetExpenses []; SetLoading false ] initial
  = run (mount user profileOf expensesOf) initial.
Proof.
  apply (mount_interleaving (Some "u1")
           (fun _ => Data {| daily_limit := 20; full_name := "" |})
           (fun _ => Data None)).
  apply RightFirst, LeftFirst, RightFirst, RightFirst, BothDone.
Defined.

End FlowExtras.

(* ================================================================== *)
(** * The date of a clock reading *)
(* ================================================================== *)

Module ClockExtras.

Local Unset Implicit Arguments.

(** Whether the character occurs in the text. *)
Fixpoint contains (c : ascii) (s : string) : bool :=
  match s with
  | EmptyString => false
  | String c' s' => Ascii.eqb c' c || contains c s'
  end.

(** X22: the date of a clock reading is the text before its first "T":
    for a text [d] without "T", [d ++ "T" ++ rest] has date [d]; a date has
    no "T" in it, is a prefix of the reading, and is its own date, so that
    the form's initial date is the maximum of its date input. *)
Theorem isoDate_is_the_text_before_T (d rest : string) :
  contains "T" d = false ->
  isoDate (d ++ String "T" rest) = d
  /\ isoDate d = d
  /\ (forall now,
        contains "T" (isoDate now) = false
        /\ isoDate (isoDate now) = isoDate now
        /\ (exists tail, now = isoDate now ++ tail)
        /\ isoDate (ExpenseForm.dateMax now) = ExpenseForm.dateMax now).
Proof.
  intros Hd.
  assert (forall s, contains "T" s = false -> isoDate s = s) as Hfix.
  { induction s as [|c s IH]; simpl; [reflexivity|].
    destruct (Ascii.eqb c "T"); [discriminate|].
    intros H. rewrite IH by exact H. reflexivity. }
  assert (forall s, contains "T" (isoDate s) = false) as Hfree.
  { induction s as [|c s IH]; simpl; [reflexivity|].
    destruct (Ascii.eqb c "T") eqn:E; [reflexivity|].
    simpl. rewrite E. exact IH. }
  split; [|split; [apply Hfix, Hd|]].
  - induction d as [|c d IH]; simpl.
    + reflexivity.
    + simpl in Hd. destruct (Ascii.eqb c "T"); [discriminate|].
      rewrite IH by exact Hd. reflexivity.
  - intros now. split; [apply Hfree|].
    split; [apply Hfix, Hfree|].
    split; [|apply Hfix, Hfree].
    induction now as [|c s [tail IH]]; simpl.
    + exists EmptyString. reflexivity.
    + destruct (Ascii.eqb c "T").
      * exists (String c s). reflexivity.
      * exists tail. simpl. rewrite <- IH. reflexivity.
Qed.

Lemma isoDate_is_the_text_before_T_witness :
  isoDate "2024-01-02T10:15:00.000Z" = "2024-01-02"
  /\ isoDate "2024-01-02" = "2024-01-02"
  /\ (forall now,
        contains "T" (isoDate now) = false
        /\ isoDate (isoDate now) = isoDate now
        /\ (exists tail, now = isoDate now ++ tail)
        /\ isoDate (ExpenseForm.dateMax now) = ExpenseForm.dateMax now).
Proof.
  apply (isoDate_is_the_text_before_T "2024-01-02" "10:15:00.000Z").
  reflexivity.
Defined.

End ClockExtras.
